(** * cv-forge: tailoring and secure-rendering pipeline

    A shallow embedding of the TypeScript sources of cv-forge
    (path-utils.ts, cv-generator.ts, job-parser.ts,
    cover-letter-generator.ts, email-template-generator.ts,
    document-generator.ts, config.ts, error-utils.ts and the default
    output path of index.ts) and the properties of its specification,
    stated and settled against that embedding, followed by further
    properties of the code.

    Conventions of the embedding.
    - A JavaScript string is a [string] of 8-bit characters: the model
      covers ASCII text, where a UTF-16 code unit and a byte coincide.  The
      few characters of the sources' literals that are not ASCII stand as
      their UTF-8 bytes.
    - [throw new Error(msg)] is the [Err msg] case of [result].
    - The Node.js [path] module is modelled in its POSIX flavour; the
      current working directory is an explicit argument [cwd], an absolute
      path.
    - The file system, the environment and the clock are fields of an
      explicit [World]; the external libraries (markdown-it, md-to-pdf) and
      the Date of the runtime are parameters, and so are the draws of
      [Math.random].  The diagnostic lines that the code writes with
      [console.error] are left out. *)

From Stdlib Require Import ZArith Lia Bool Ascii.
From stdpp Require Import base list sorting strings gmap pretty.

Local Open Scope string_scope.
Local Open Scope list_scope.

(** ** Errors *)

Inductive result (A : Type) : Type :=
| OK (a : A)
| Err (msg : string).
Arguments OK {A} a.
Arguments Err {A} msg.

Definition bind {A B} (r : result A) (k : A -> result B) : result B :=
  match r with OK a => k a | Err m => Err m end.

(** ** JavaScript string primitives *)

Module JS.

Definition chr (n : nat) : ascii := Ascii.ascii_of_nat n.
Definition NUL : ascii := chr 0.
Definition dquote : ascii := chr 34.
Definition backslash : ascii := chr 92.
Definition LF : ascii := chr 10.

Definition ascii_eqb (a b : ascii) : bool := Ascii.eqb a b.

Definition code (c : ascii) : nat := Ascii.nat_of_ascii c.

Definition between (lo hi : nat) (c : ascii) : bool :=
  (lo <=? code c)%nat && (code c <=? hi)%nat.

Definition is_upper : ascii -> bool := between 65 90.
Definition is_lower : ascii -> bool := between 97 122.
Definition is_digit : ascii -> bool := between 48 57.
Definition is_alpha (c : ascii) : bool := is_upper c || is_lower c.
(** [\w] *)
Definition is_word (c : ascii) : bool :=
  is_alpha c || is_digit c || ascii_eqb c "_".
(** [\s], and the characters removed by [trim], in the ASCII range; the
    blanks outside ASCII that JavaScript also takes (U+00A0 and others)
    are left to the condition [Domain.ascii_text] of the statements *)
Definition is_space (c : ascii) : bool :=
  match code c with
  | 9 | 10 | 11 | 12 | 13 | 32 => true
  | _ => false
  end.
(** the line terminators, which [.] does not match *)
Definition is_newline (c : ascii) : bool :=
  match code c with 10 | 13 => true | _ => false end.

Definition lower_char (c : ascii) : ascii :=
  if is_upper c then chr (code c + 32) else c.

Fixpoint smap (f : ascii -> ascii) (s : string) : string :=
  match s with
  | EmptyString => EmptyString
  | String c r => String (f c) (smap f r)
  end.

Fixpoint sfilter (p : ascii -> bool) (s : string) : string :=
  match s with
  | EmptyString => EmptyString
  | String c r => if p c then String c (sfilter p r) else sfilter p r
  end.

Fixpoint sforall (p : ascii -> bool) (s : string) : bool :=
  match s with
  | EmptyString => true
  | String c r => p c && sforall p r
  end.

Definition toLowerCase : string -> string := smap lower_char.

Fixpoint startsWith (s t : string) {struct t} : bool :=
  match t, s with
  | EmptyString, _ => true
  | String b t', String a s' => ascii_eqb a b && startsWith s' t'
  | String _ _, EmptyString => false
  end.

Fixpoint includes (s t : string) : bool :=
  startsWith s t ||
  match s with
  | EmptyString => false
  | String _ s' => includes s' t
  end.

Definition str_eqb (s t : string) : bool := String.eqb s t.

Fixpoint sdrop (n : nat) (s : string) : string :=
  match n, s with
  | S k, String _ r => sdrop k r
  | _, _ => s
  end.

Definition is_empty (s : string) : bool :=
  match s with EmptyString => true | _ => false end.

Fixpoint trimStart (s : string) : string :=
  match s with
  | String c r => if is_space c then trimStart r else s
  | EmptyString => EmptyString
  end.

Fixpoint trimEnd (s : string) : string :=
  match s with
  | EmptyString => EmptyString
  | String c r =>
      match trimEnd r with
      | EmptyString => if is_space c then EmptyString else String c EmptyString
      | r' => String c r'
      end
  end.

Definition trim (s : string) : string := trimEnd (trimStart s).

(** [xs.join(sep)] *)
Fixpoint join (sep : string) (xs : list string) : string :=
  match xs with
  | [] => ""
  | [x] => x
  | x :: rest => x +:+ sep +:+ join sep rest
  end.

(** [s.split("/")] *)
Fixpoint split_slash (s : string) : list string :=
  match s with
  | EmptyString => [""]
  | String c r =>
      if ascii_eqb c "/" then "" :: split_slash r
      else match split_slash r with
           | h :: t => String c h :: t
           | [] => [String c ""]
           end
  end.

(** [s.replace(/\0/g, '')] *)
Definition remove_nul : string -> string :=
  sfilter (fun c => negb (ascii_eqb c NUL)).

(** [s.replace(/\.\./g, '')]: one left-to-right pass, matches do not
    overlap. *)
Fixpoint remove_dotdot (s : string) : string :=
  match s with
  | String "." (String "." r) => remove_dotdot r
  | String c r => String c (remove_dotdot r)
  | EmptyString => EmptyString
  end.

End JS.

(** ** Regular expressions *)

(** The backtracking matcher of ECMAScript for the constructs that the
    sources use: character classes, sequence, alternation, the greedy
    quantifiers [*], [+], [?], the lazy [*?], one capture group, [\b],
    [^] and [$].  The [i] flag is expressed by the classes themselves. *)
Module Regex.
Import JS.

Inductive re : Type :=
| Eps
| Chr (c : ascii -> bool)
| Seq (a b : re)
| Alt (a b : re)
| Star (a : re)
| StarLazy (a : re)
| Opt (a : re)
| Group (a : re)
| Bound
| Bos
| Eos.

Definition Plus (a : re) : re := Seq a (Star a).

Fixpoint seq (rs : list re) : re :=
  match rs with
  | [] => Eps
  | [r] => r
  | r :: rs' => Seq r (seq rs')
  end.

(** a position in the subject: the character before it, the index, the
    characters from it on, and the text of the capture group *)
Record state := {
  prev : option ascii;
  pos : nat;
  rest : string;
  cap : option string
}.

Definition head_char (s : string) : option ascii :=
  match s with String c _ => Some c | EmptyString => None end.

Definition is_word_opt (c : option ascii) : bool :=
  match c with Some c => is_word c | None => false end.

Fixpoint stake (n : nat) (s : string) : string :=
  match n, s with
  | S k, String c r => String c (stake k r)
  | _, _ => EmptyString
  end.

(** [x'] is [x] after the characters [w]. *)
Definition consumes (x : state) (w : string) (x' : state) : Prop :=
  rest x = w +:+ rest x' /\ pos x' = pos x + String.length w /\ cap x' = cap x.

(** The iterations of [a*]: [step] matches [a] once, an iteration that
    consumes nothing is refused, and [fuel] bounds the iterations by the
    characters that are left. *)
Fixpoint star_loop (step : (state -> option state) -> state -> option state)
    (k : state -> option state) (fuel : nat) (x : state) : option state :=
  match fuel with
  | O => k x
  | S f =>
      match step (fun y => if (pos x <? pos y)%nat
                           then star_loop step k f y else None) x with
      | Some y => Some y
      | None => k x
      end
  end.

(** the same for the lazy [a*?], which tries the rest first *)
Fixpoint lazy_loop (step : (state -> option state) -> state -> option state)
    (k : state -> option state) (fuel : nat) (x : state) : option state :=
  match k x with
  | Some y => Some y
  | None =>
      match fuel with
      | O => None
      | S f =>
          step (fun y => if (pos x <? pos y)%nat
                         then lazy_loop step k f y else None) x
      end
  end.

Fixpoint m (r : re) (k : state -> option state) (x : state) {struct r}
  : option state :=
  match r with
  | Eps => k x
  | Chr c =>
      match rest x with
      | String a s' =>
          if c a then
            k {| prev := Some a; pos := S (pos x); rest := s'; cap := cap x |}
          else None
      | EmptyString => None
      end
  | Seq a b => m a (m b k) x
  | Alt a b =>
      match m a k x with
      | Some y => Some y
      | None => m b k x
      end
  | Star a => star_loop (m a) k (String.length (rest x)) x
  | StarLazy a => lazy_loop (m a) k (String.length (rest x)) x
  | Opt a =>
      match m a k x with
      | Some y => Some y
      | None => k x
      end
  | Group a =>
      m a (fun y =>
             k {| prev := prev y; pos := pos y; rest := rest y;
                  cap := Some (stake (pos y - pos x) (rest x)) |}) x
  | Bound =>
      if xorb (is_word_opt (prev x)) (is_word_opt (head_char (rest x)))
      then k x else None
  | Bos => if Nat.eqb (pos x) 0 then k x else None
  | Eos => if is_empty (rest x) then k x else None
  end.

(** A match that starts at index [i], where [s] is what is left of the
    subject: its length and its capture. *)
Definition match_at (r : re) (p : option ascii) (i : nat) (s : string)
  : option (nat * option string) :=
  match m r Some {| prev := p; pos := i; rest := s; cap := None |} with
  | Some y => Some (pos y - i, cap y)
  | None => None
  end.

(** the leftmost match *)
Fixpoint search (r : re) (p : option ascii) (i : nat) (s : string)
  : option (nat * string * option string) :=
  match match_at r p i s with
  | Some (n, c) => Some (i, stake n s, c)
  | None =>
      match s with
      | String a s' => search r (Some a) (S i) s'
      | EmptyString => None
      end
  end.

(** [s.match(r)] without the [g] flag: the match and its capture *)
Definition exec (r : re) (s : string) : option (string * option string) :=
  match search r None 0 s with
  | Some (_, whole, c) => Some (whole, c)
  | None => None
  end.

(** [r.test(s)] *)
Definition test (r : re) (s : string) : bool :=
  match exec r s with Some _ => true | None => false end.

(** The scan of the [g] flag: [skip] counts the characters of the last
    match that are still to be passed. *)
Fixpoint scan {A} (r : re) (hit : string -> option string -> A)
    (miss : ascii -> list A) (p : option ascii) (i skip : nat) (s : string)
  : list A :=
  match s with
  | EmptyString =>
      match skip, match_at r p i s with
      | O, Some (_, c) => [hit "" c]
      | _, _ => []
      end
  | String a s' =>
      match skip with
      | S k => scan r hit miss (Some a) (S i) k s'
      | O =>
          match match_at r p i s with
          | Some (S n, c) =>
              hit (stake (S n) s) c :: scan r hit miss (Some a) (S i) n s'
          | Some (O, c) =>
              hit "" c :: miss a ++ scan r hit miss (Some a) (S i) 0 s'
          | None => miss a ++ scan r hit miss (Some a) (S i) 0 s'
          end
      end
  end.

(** [s.match(r)] with the [g] flag: all matches *)
Definition match_all (r : re) (s : string) : list string :=
  scan r (fun whole _ => whole) (fun _ => []) None 0 0 s.

(** [s.replace(r, f)] with the [g] flag *)
Definition replace_all (r : re) (f : string -> option string -> string)
    (s : string) : string :=
  fold_right String.append ""
    (scan r f (fun a => [String a ""]) None 0 0 s).

(** [s.replace(r, repl)] without the [g] flag: the leftmost match *)
Definition replace_first (r : re) (repl : string) (s : string) : string :=
  match search r None 0 s with
  | Some (i, whole, _) =>
      stake i s +:+ repl +:+ sdrop (i + String.length whole) s
  | None => s
  end.

(** classes *)
Definition lit (c : ascii) : re := Chr (ascii_eqb c).
Definition lit_i (c : ascii) : re :=
  Chr (fun a => ascii_eqb (lower_char a) (lower_char c)).
Fixpoint word_of (f : ascii -> re) (w : string) : list re :=
  match w with
  | EmptyString => []
  | String c w' => f c :: word_of f w'
  end.
(** a literal word, and the same under the [i] flag *)
Definition str (w : string) : re := seq (word_of lit w).
Definition str_i (w : string) : re := seq (word_of lit_i w).
Definition any_of (cs : list ascii) : ascii -> bool :=
  fun a => existsb (ascii_eqb a) cs.
(** [.] *)
Definition dot : re := Chr (fun a => negb (is_newline a)).
Definition space : re := Chr is_space.
Definition digit : re := Chr is_digit.

End Regex.

(** ** PathGuard: path-utils.ts *)

Module Path.
Import JS.

(** *** The POSIX [path] module of Node.js *)

Definition isAbsolute (p : string) : bool := startsWith p "/".

Fixpoint endsWithSlash (p : string) : bool :=
  match p with
  | EmptyString => false
  | String c EmptyString => ascii_eqb c "/"
  | String _ r => endsWithSlash r
  end.

(** One step of [normalizeString]: [acc] is the stack of kept segments,
    the most recent one first. *)
Definition norm_step (allowAboveRoot : bool) (acc : list string) (c : string)
  : list string :=
  if str_eqb c "" || str_eqb c "." then acc
  else if str_eqb c ".." then
    match acc with
    | top :: rest =>
        if str_eqb top ".." then (if allowAboveRoot then ".." :: acc else acc)
        else rest
    | [] => if allowAboveRoot then [".."] else []
    end
  else c :: acc.

Definition normalizeString (allowAboveRoot : bool) (comps : list string)
  : list string :=
  rev (fold_left (norm_step allowAboveRoot) comps []).

Definition normalize (p : string) : string :=
  if is_empty p then "."
  else
    let abs := isAbsolute p in
    let trailing := endsWithSlash p in
    let body := join "/" (normalizeString (negb abs) (split_slash p)) in
    if is_empty body then
      (if abs then "/" else if trailing then "./" else ".")
    else
      (if abs then "/" else "") +:+ body +:+ (if trailing then "/" else "").

(** [path.join(...args)] *)
Definition path_join (args : list string) : string :=
  let joined := join "/" (filter (fun a => negb (is_empty a) = true) args) in
  if is_empty joined then "." else normalize joined.

(** The segments of [path.resolve(p)], run in directory [cwd]. *)
Definition resolve_comps (cwd p : string) : list string :=
  normalizeString false
    (split_slash (if isAbsolute p then p else cwd +:+ "/" +:+ p)).

Definition render_abs (comps : list string) : string :=
  "/" +:+ join "/" comps.

Definition resolve (cwd p : string) : string :=
  render_abs (resolve_comps cwd p).

Fixpoint strip_common (xs ys : list string) : list string * list string :=
  match xs, ys with
  | x :: xs', y :: ys' =>
      if str_eqb x y then strip_common xs' ys' else (xs, ys)
  | _, _ => (xs, ys)
  end.

(** [path.relative(from, to)] *)
Definition relative (cwd from to : string) : string :=
  let f := resolve_comps cwd from in
  let t := resolve_comps cwd to in
  let '(f', t') := strip_common f t in
  join "/" (repeat ".." (length f') ++ t').

(** [path.basename(p)]: the last non-empty segment. *)
Definition basename (p : string) : string :=
  default ""
    (last (filter (fun c => negb (is_empty c) = true) (split_slash p))).

(** A segment as [path.resolve] leaves it: not empty, not [.], not [..]
    and without a separator. *)
Definition no_slash (c : string) : bool :=
  sforall (fun a => negb (ascii_eqb a "/")) c.

Definition normal_comp (c : string) : bool :=
  negb (str_eqb c "") && negb (str_eqb c ".") && negb (str_eqb c "..")
  && no_slash c.

(** A segment that [normalizeString] does not drop. *)
Definition kept (c : string) : Prop := c <> "" /\ c <> ".".

(** *** sanitizeFileName *)

Definition hostile (c : ascii) : bool :=
  existsb (ascii_eqb c)
    ["<"; ">"; ":"; dquote; "|"; "?"; "*"; "/"; backslash]%char.

Definition replace_hostile : string -> string :=
  smap (fun c => if hostile c then "_"%char else c).

Definition sanitizeFileName (fileName : string) : result string :=
  if is_empty fileName then Err "Invalid filename provided"
  else
    let sanitized := basename fileName in
    let sanitized := remove_dotdot sanitized in
    let sanitized := remove_nul sanitized in
    let sanitized := replace_hostile sanitized in
    if is_empty sanitized || is_empty (trim sanitized) then
      Err "Filename is invalid after sanitization"
    else if startsWith sanitized "." then OK ("_" +:+ sanitized)
    else OK sanitized.

(** *** safeJoinPath *)

Definition sanitize_segment (segment : string) : string :=
  remove_dotdot (remove_nul segment).

Definition safeJoinPath (cwd basePath : string) (segments : list string)
  : result string :=
  let sanitizedSegments := map sanitize_segment segments in
  let joined := path_join (basePath :: sanitizedSegments) in
  let resolved := resolve cwd joined in
  let resolvedBase := resolve cwd basePath in
  let relativePath := relative cwd resolvedBase resolved in
  if startsWith relativePath ".." || isAbsolute relativePath then
    Err ("Resulting path would escape base directory: " +:+ basePath)
  else OK resolved.

(** *** validateAndNormalizePath *)

Definition validateAndNormalizePath (cwd outputPath : string)
    (allowedBasePath : option string) : result string :=
  if is_empty outputPath then Err "Invalid output path provided"
  else
    let cleanPath := remove_nul outputPath in
    let resolvedPath := resolve cwd cleanPath in
    let escapes :=
      match allowedBasePath with
      | Some allowed =>
          if is_empty allowed then false
          else
            let normalizedAllowed := resolve cwd allowed in
            let relativePath := relative cwd normalizedAllowed resolvedPath in
            startsWith relativePath ".." || isAbsolute relativePath
      | None => false
      end in
    if escapes then
      Err ("Path " +:+ outputPath +:+ " is outside allowed directory "
           +:+ default "" allowedBasePath)
    else OK resolvedPath.

End Path.

(** ** The data model: job-parser.ts, cv-generator.ts *)

Module Model.

Record PersonalInfo := {
  fullName : string;
  email : string;
  phone : option string;
  location : option string;
  linkedIn : option string;
  github : option string;
  website : option string
}.

Record Experience := {
  exp_jobTitle : string;
  exp_company : string;
  exp_location : option string;
  startDate : string;
  endDate : option string;
  exp_description : string;
  exp_achievements : option (list string)
}.

Record Education := {
  degree : string;
  institution : string;
  edu_location : option string;
  graduationYear : string;
  gpa : option string;
  honors : option (list string)
}.

Record Skills := {
  technical : list string;
  soft : option (list string);
  languages : option (list string);
  certifications : option (list string)
}.

Record Project := {
  proj_name : string;
  proj_description : string;
  technologies : list string;
  url : option string
}.

Record UserProfile := {
  personalInfo : PersonalInfo;
  summary : string;
  experience : list Experience;
  education : list Education;
  skills : Skills;
  projects : option (list Project)
}.

Record JobRequirements := {
  jr_jobTitle : string;
  jr_company : string;
  jobDescription : string;
  requirements : option (list string);
  jr_preferredSkills : option (list string);
  jr_location : option string;
  jr_salaryRange : option string
}.

Record ParsedJobRequirements := {
  pj_jobTitle : string;
  pj_company : string;
  keySkills : list string;
  requiredSkills : list string;
  preferredSkills : list string;
  keyWords : list string;
  experienceLevel : string;
  pj_location : option string;
  pj_salaryRange : option string;
  contactEmails : option (list string);
  hiringManagerName : option string
}.

(** An entry of [TailoredCV.experience]. *)
Record TailoredExperience := {
  jobTitle : string;
  company : string;
  te_location : option string;
  duration : string;
  description : string;
  achievements : list string
}.

Record TailoredCV := {
  cv_personalInfo : PersonalInfo;
  cv_summary : string;
  cv_experience : list TailoredExperience;
  cv_education : list Education;
  cv_skills : Skills;
  cv_projects : option (list Project)
}.

End Model.

(** ** The Date of the runtime *)

(** [new Date(s)] and [toLocaleDateString('en-US', {month: 'short',
    year: 'numeric'})] belong to the JavaScript runtime.  The tailoring
    code is written against this interface; [Date_parse s] is
    [new Date(s).getTime()], with [None] for NaN. *)
Class DateRuntime := {
  Date_parse : string -> option Z;
  monthYear : Z -> string
}.

(** A runtime for the date-only forms [YYYY], [YYYY-MM] and [YYYY-MM-DD]
    of the ECMAScript date-time string format, which are read as UTC;
    every other string is an invalid date.  [tz] is the offset of local
    time from UTC in minutes, which [toLocaleDateString] applies.  The
    Date of an engine reads further forms (as [Jan 2020]) and prints
    years before 1 in its own way; the runtime is used at strings of the
    three forms and at strings that no engine reads as a date. *)
Module IsoDate.
Import JS.

Definition digit (c : ascii) : option Z :=
  if is_digit c then Some (Z.of_nat (code c) - 48)%Z else None.

Fixpoint number_go (acc : Z) (s : string) : option Z :=
  match s with
  | EmptyString => Some acc
  | String c r =>
      match digit c with
      | Some d => number_go (acc * 10 + d) r
      | None => None
      end
  end.

(** a non-empty run of decimal digits *)
Definition number (s : string) : option Z :=
  if is_empty s then None else number_go 0 s.

Definition days_from_civil (y m d : Z) : Z :=
  let y' := if (m <=? 2)%Z then (y - 1)%Z else y in
  let era := (y' / 400)%Z in
  let yoe := (y' - era * 400)%Z in
  let mp := if (m >? 2)%Z then (m - 3)%Z else (m + 9)%Z in
  let doy := ((153 * mp + 2) / 5 + d - 1)%Z in
  let doe := (yoe * 365 + yoe / 4 - yoe / 100 + doy)%Z in
  (era * 146097 + doe - 719468)%Z.

(** year and month of a day number *)
Definition civil_from_days (z : Z) : Z * Z :=
  let z := (z + 719468)%Z in
  let era := (z / 146097)%Z in
  let doe := (z - era * 146097)%Z in
  let yoe := ((doe - doe / 1460 + doe / 36524 - doe / 146096) / 365)%Z in
  let doy := (doe - (365 * yoe + yoe / 4 - yoe / 100))%Z in
  let mp := ((5 * doy + 2) / 153)%Z in
  let m := if (mp <? 10)%Z then (mp + 3)%Z else (mp - 9)%Z in
  let y := (yoe + era * 400)%Z in
  (if (m <=? 2)%Z then (y + 1)%Z else y, m).

Definition msPerDay : Z := 86400000.

Definition in_range (lo hi x : Z) : bool := (lo <=? x)%Z && (x <=? hi)%Z.

Definition parse_parts (parts : list string) : option Z :=
  match parts with
  | [y] =>
      if Nat.eqb (String.length y) 4 then
        y' ← number y; Some (days_from_civil y' 1 1 * msPerDay)%Z
      else None
  | [y; m] =>
      if Nat.eqb (String.length y) 4 && Nat.eqb (String.length m) 2 then
        y' ← number y; m' ← number m;
        if in_range 1 12 m' then Some (days_from_civil y' m' 1 * msPerDay)%Z
        else None
      else None
  | [y; m; d] =>
      if Nat.eqb (String.length y) 4 && Nat.eqb (String.length m) 2
         && Nat.eqb (String.length d) 2 then
        y' ← number y; m' ← number m; d' ← number d;
        if in_range 1 12 m' && in_range 1 31 d' then
          Some ((days_from_civil y' m' 1 + d' - 1) * msPerDay)%Z
        else None
      else None
  | _ => None
  end.

Fixpoint split_dash (s : string) : list string :=
  match s with
  | EmptyString => [""]
  | String c r =>
      if ascii_eqb c "-" then "" :: split_dash r
      else match split_dash r with
           | h :: t => String c h :: t
           | [] => [String c ""]
           end
  end.

Definition parse (s : string) : option Z := parse_parts (split_dash s).

Definition monthName (m : Z) : string :=
  nth (Z.to_nat (m - 1))
    ["Jan"; "Feb"; "Mar"; "Apr"; "May"; "Jun";
     "Jul"; "Aug"; "Sep"; "Oct"; "Nov"; "Dec"] "".

Definition format (tz : Z) (t : Z) : string :=
  let '(y, m) := civil_from_days ((t + tz * 60000) / msPerDay) in
  monthName m +:+ " " +:+ pretty y.

Definition runtime (tz : Z) : DateRuntime :=
  {| Date_parse := parse; monthYear := format tz |}.

End IsoDate.

(** ** RequirementExtractor: job-parser.ts *)

Module JobParser.
Import JS Model Regex.

Definition techSkills : list string :=
  ["javascript"; "typescript"; "python"; "java"; "c#"; "react"; "angular";
   "vue"; "node.js"; "express"; "django"; "flask"; "spring"; "docker";
   "kubernetes"; "aws"; "azure"; "gcp"; "git"; "sql"; "mongodb";
   "postgresql"; "mysql"; "html"; "css"; "bootstrap"; "tailwind"; "sass";
   "api"; "rest"; "graphql"; "agile"; "scrum"; "devops"; "ci/cd"; "jenkins";
   "terraform"].

Definition commonWords : list string :=
  ["the"; "and"; "or"; "but"; "in"; "on"; "at"; "to"; "for"; "of"; "with";
   "by"; "is"; "are"; "was"; "were"; "be"; "been"; "have"; "has"; "had";
   "do"; "does"; "did"; "will"; "would"; "could"; "should"; "may"; "might";
   "must"; "can"; "a"; "an"].

(** [[A-Z][a-z]+\s+[A-Z][a-z]+] under the [i] flag, where both classes
    match every letter *)
Definition two_words_i : re :=
  seq [Chr is_alpha; Plus (Chr is_alpha); Plus space;
       Chr is_alpha; Plus (Chr is_alpha)].

Definition patterns : list re :=
  [ seq [str_i "contact"; Plus space; Group two_words_i];
    seq [str_i "reach"; Plus space; str_i "out"; Plus space; str_i "to";
         Plus space; Group two_words_i];
    seq [str_i "hiring"; Plus space; str_i "manager";
         Plus (Chr (fun a => ascii_eqb a ":" || is_space a));
         Group two_words_i];
    seq [str_i "questions"; lit "?"; Plus space; str_i "contact"; Plus space;
         Group two_words_i];
    seq [Group two_words_i;
         Plus (Chr (fun a => ascii_eqb a "," || is_space a));
         str_i "hiring"; Plus space; str_i "manager"];
    seq [str_i "please"; Plus space; str_i "send"; Plus dot; str_i "to";
         Plus space; Group two_words_i] ].

(** [/^[A-Z][a-z]+\s+[A-Z][a-z]+$/] *)
Definition proper_name : re :=
  seq [Bos; Chr is_upper; Plus (Chr is_lower); Plus space;
       Chr is_upper; Plus (Chr is_lower); Eos].

(** the [for] loop over the patterns *)
Fixpoint first_accepted (ps : list re) (jobDescription : string)
  : option string :=
  match ps with
  | [] => None
  | pattern :: ps' =>
      match exec pattern jobDescription with
      | Some (_, Some candidate) =>
          if negb (is_empty candidate) then
            let name := trim candidate in
            if test proper_name name then Some name
            else first_accepted ps' jobDescription
          else first_accepted ps' jobDescription
      | _ => first_accepted ps' jobDescription
      end
  end.

Definition extractHiringManagerName (jobDescription : string)
  : option string :=
  first_accepted patterns jobDescription.

(** The extraction as the specification words it: the first pattern that
    matches decides, and its candidate is accepted or rejected. *)
Fixpoint first_match_wins (ps : list re) (jobDescription : string)
  : option string :=
  match ps with
  | [] => None
  | pattern :: ps' =>
      match exec pattern jobDescription with
      | Some (_, c) =>
          let name := trim (default "" c) in
          if test proper_name name then Some name else None
      | None => first_match_wins ps' jobDescription
      end
  end.

(** what one pattern contributes: its candidate, when there is one and
    it is accepted *)
Definition accepted (pattern : re) (jobDescription : string) : option string :=
  match exec pattern jobDescription with
  | Some (_, Some candidate) =>
      if negb (is_empty candidate) && test proper_name (trim candidate)
      then Some (trim candidate) else None
  | _ => None
  end.

(** a capitalized word: a capital letter and then small letters *)
Definition capitalized (w : string) : bool :=
  match w with
  | String c r => is_upper c && negb (is_empty r) && sforall is_lower r
  | EmptyString => false
  end.

Definition two_capitalized_words (name : string) : Prop :=
  exists w1 sp w2,
    name = w1 +:+ sp +:+ w2 /\ capitalized w1 = true /\
    sp <> "" /\ sforall is_space sp = true /\ capitalized w2 = true.

(** [/\b[A-Za-z0-9._%+-]+@[A-Za-z0-9.-]+\.[A-Z|a-z]{2,}\b/g] *)
Definition emailRegex : re :=
  seq [Bound;
       Plus (Chr (fun a => is_alpha a || is_digit a
                           || any_of ["."; "_"; "%"; "+"; "-"]%char a));
       lit "@";
       Plus (Chr (fun a => is_alpha a || is_digit a
                           || any_of ["."; "-"]%char a));
       lit ".";
       Chr (fun a => is_alpha a || ascii_eqb a "|");
       Plus (Chr (fun a => is_alpha a || ascii_eqb a "|"));
       Bound].

(** [/\b\w+\b/g] *)
Definition wordRegex : re := seq [Bound; Plus (Chr is_word); Bound].

(** [[...new Set(xs)]] *)
Definition dedup (xs : list string) : list string :=
  fold_left (fun acc x => if existsb (str_eqb x) acc then acc else acc ++ [x])
    xs [].

Definition join_or_empty (xs : option (list string)) : string :=
  match xs with Some l => join " " l | None => "" end.

Definition parseJobRequirements (jobReq : JobRequirements)
  : ParsedJobRequirements :=
  let fullText :=
    jr_jobTitle jobReq +:+ " " +:+ jobDescription jobReq +:+ " "
    +:+ join_or_empty (requirements jobReq) +:+ " "
    +:+ join_or_empty (jr_preferredSkills jobReq) in
  let lowered := toLowerCase fullText in
  let foundSkills :=
    filter (fun skill => includes lowered (toLowerCase skill) = true)
      techSkills in
  let experienceLevel :=
    if includes lowered "senior" || includes lowered "lead" then "senior"
    else if includes lowered "junior" || includes lowered "entry" then "junior"
    else "mid" in
  let contactEmails := match_all emailRegex fullText in
  let hiringManagerName := extractHiringManagerName (jobDescription jobReq) in
  let words := match_all wordRegex lowered in
  let keyWords :=
    take 20
      (dedup (filter (fun word => (3 <? String.length word)%nat = true
                                  /\ existsb (str_eqb word) commonWords = false)
                words)) in
  {| pj_jobTitle := jr_jobTitle jobReq;
     pj_company := jr_company jobReq;
     keySkills := foundSkills;
     requiredSkills := default [] (requirements jobReq);
     preferredSkills := default [] (jr_preferredSkills jobReq);
     keyWords := keyWords;
     experienceLevel := experienceLevel;
     pj_location := jr_location jobReq;
     pj_salaryRange := jr_salaryRange jobReq;
     contactEmails :=
       match contactEmails with [] => None | _ => Some contactEmails end;
     hiringManagerName := hiringManagerName |}.

End JobParser.

(** ** ProfileTailor: cv-generator.ts *)

Module CvGenerator.
Import JS Model.

(** *** tailorSummary *)

(** [s.replace(pat, repl)] with a string pattern: the first occurrence. *)
Fixpoint replace_first (s pat repl : string) : string :=
  if startsWith s pat then repl +:+ sdrop (String.length pat) s
  else match s with
       | EmptyString => EmptyString
       | String c r => String c (replace_first r pat repl)
       end.

(** the body of the [forEach] over [keySkills] *)
Definition append_skill (tailoredSummary skill : string) : string :=
  if negb (includes (toLowerCase tailoredSummary) (toLowerCase skill)) then
    tailoredSummary +:+ " Experienced with " +:+ skill +:+ "."
  else tailoredSummary.

Definition append_skills (summary : string) (skills : list string) : string :=
  fold_left append_skill skills summary.

Definition tailorSummary (summary : string) (jobReq : ParsedJobRequirements)
  : string :=
  let tailoredSummary := append_skills summary (keySkills jobReq) in
  if str_eqb (experienceLevel jobReq) "senior"
     && negb (includes (toLowerCase tailoredSummary) "senior") then
    replace_first tailoredSummary "experienced" "senior experienced"
  else tailoredSummary.

(** *** prioritizeSkills *)

(** the condition of the [forEach] body; [requiredSet.has] is membership
    of the lower-cased skill in the lower-cased requirements *)
Definition is_prioritized (requiredSkills : list string) (skill : string)
  : bool :=
  existsb (str_eqb (toLowerCase skill)) (map toLowerCase requiredSkills)
  || existsb (fun req => includes (toLowerCase skill) (toLowerCase req))
       requiredSkills.

(** the two arrays [prioritized] and [others] after each [push] *)
Definition prioritize_step (requiredSkills : list string)
    (acc : list string * list string) (skill : string)
  : list string * list string :=
  if is_prioritized requiredSkills skill then (acc.1 ++ [skill], acc.2)
  else (acc.1, acc.2 ++ [skill]).

Definition prioritizeSkills (userSkills requiredSkills : list string)
  : list string :=
  let '(prioritized, others) :=
    fold_left (prioritize_step requiredSkills) userSkills ([], []) in
  prioritized ++ others.



(** The match that the code makes: the skill contains a requirement. *)
Definition contains_requirement (requiredSkills : list string) (skill : string)
  : bool :=
  existsb (fun req => includes (toLowerCase skill) (toLowerCase req))
    requiredSkills.

(** *** Highlighting *)

(** [new RegExp(`\\b${word}\\b`, 'gi')].  The words come from the fixed
    skill vocabulary of [parseJobRequirements] or are [\w+] tokens, so the
    only character with a meaning of its own in the pattern is the dot.
    For a word with another such character ([c++], say) [new RegExp]
    throws or builds another pattern: the definitions below are the code
    for the words of [Domain.plain_word], and the statements about them
    are made for these.  The code replaces only after a successful
    [match], and a replace without a match changes nothing. *)
Definition pat_char (pc : ascii) : Regex.re :=
  if ascii_eqb pc "." then Regex.dot else Regex.lit_i pc.

Definition word_regex (word : string) : Regex.re :=
  Regex.seq (Regex.Bound :: Regex.word_of pat_char word ++ [Regex.Bound]).

Definition highlight (text word : string) : string :=
  Regex.replace_all (word_regex word)
    (fun _ _ => "**" +:+ word +:+ "**") text.

Definition tailorExperienceDescription (description : string)
    (jobReq : ParsedJobRequirements) : string :=
  fold_left highlight (keySkills jobReq) description.

Definition tailorAchievement (achievement : string)
    (jobReq : ParsedJobRequirements) : string :=
  fold_left highlight (keyWords jobReq) achievement.

(** *** formatDuration *)

Section WithDate.
Context {date : DateRuntime}.

Definition formatDuration (startDate : string) (endDate : option string)
  : string :=
  match Date_parse startDate with
  | None => "Invalid start date"
  | Some start =>
      let startMonth := monthYear start in
      match endDate with
      | None => startMonth +:+ " - Present"
      | Some e =>
          if is_empty e || is_empty (trim e)
             || str_eqb (toLowerCase e) "present" then
            startMonth +:+ " - Present"
          else
            match Date_parse e with
            | None => startMonth +:+ " - Present"
            | Some end_ => startMonth +:+ " - " +:+ monthYear end_
            end
      end
  end.

(** an end date that is missing, blank, [present] or not a date *)
Definition end_open (endDate : option string) : Prop :=
  endDate = None \/
  exists e, endDate = Some e /\
    (trim e = "" \/ toLowerCase e = "present" \/ Date_parse e = None).

(** *** groupAndTailorExperience *)

(** [companiesMap]: a [Map] keeps its keys in insertion order. *)
Fixpoint group_push (company : string) (exp : Experience)
    (groups : list (string * list Experience))
  : list (string * list Experience) :=
  match groups with
  | [] => [(company, [exp])]
  | (k, exps) :: rest =>
      if str_eqb k company then (k, exps ++ [exp]) :: rest
      else (k, exps) :: group_push company exp rest
  end.

(** the key of the map: [exp.company.trim()] *)
Definition key (exp : Experience) : string := trim (exp_company exp).

Definition group_by_company (experiences : list Experience)
  : list (string * list Experience) :=
  fold_left (fun groups exp => group_push (key exp) exp groups)
    experiences [].

(** [Array.prototype.sort] is stable, and a comparator result of NaN
    counts as 0.  [before cmp a b] says that the comparator puts [a]
    strictly before [b].  For a comparator that orders its arguments
    consistently every stable sort returns what this insertion sort
    returns; otherwise ECMAScript leaves the order to the implementation,
    and the model fixes it to the one of the insertion sort. *)
Definition before {A} (cmp : A -> A -> option Z) (a b : A) : bool :=
  match cmp a b with
  | Some v => (v <? 0)%Z
  | None => false
  end.

Fixpoint insert_sorted {A} (cmp : A -> A -> option Z) (x : A) (l : list A)
  : list A :=
  match l with
  | [] => [x]
  | y :: l' => if before cmp y x then y :: insert_sorted cmp x l' else x :: l
  end.

Definition sort {A} (cmp : A -> A -> option Z) (l : list A) : list A :=
  foldr (insert_sorted cmp) [] l.

Fixpoint lookup_group (company : string)
    (groups : list (string * list Experience)) : option (list Experience) :=
  match groups with
  | [] => None
  | (k, exps) :: rest =>
      if str_eqb k company then Some exps else lookup_group company rest
  end.




(** [(a, b) => dateB.getTime() - dateA.getTime()] *)
Definition by_start_desc (a b : Experience) : option Z :=
  match Date_parse (startDate a), Date_parse (startDate b) with
  | Some dateA, Some dateB => Some (dateB - dateA)%Z
  | _, _ => None
  end.

(** [duration.match(/(\d{4})/g)], and the largest of the numbers found *)
Definition four_digits : Regex.re :=
  Regex.Group (Regex.seq [Regex.digit; Regex.digit; Regex.digit; Regex.digit]).

Definition extractYear (duration : string) : Z :=
  foldr Z.max 0%Z
    (map (fun y => default 0%Z (IsoDate.number y))
       (Regex.match_all four_digits duration)).

Definition by_year_desc (a b : TailoredExperience) : option Z :=
  Some (extractYear (duration b) - extractYear (duration a))%Z.

(** a [Set] keeps its elements in insertion order *)
Definition set_add (acc : list string) (x : string) : list string :=
  if existsb (str_eqb x) acc then acc else acc ++ [x].

Definition single (jobReq : ParsedJobRequirements) (exp : Experience)
  : TailoredExperience :=
  {| jobTitle := exp_jobTitle exp;
     company := exp_company exp;
     te_location := exp_location exp;
     duration := formatDuration (startDate exp) (endDate exp);
     description := tailorExperienceDescription (exp_description exp) jobReq;
     achievements :=
       match exp_achievements exp with
       | Some l => map (fun a => tailorAchievement a jobReq) l
       | None => []
       end |}.

(** [xs.slice(0, -1)] *)
Definition drop_last {A} (l : list A) : list A := removelast l.

Definition consolidate (jobReq : ParsedJobRequirements) (company : string)
    (companyExperiences : list Experience) (mostRecentRole : Experience)
  : TailoredExperience :=
  let earliestRole := default mostRecentRole (last companyExperiences) in
  let allTitles := rev (map exp_jobTitle companyExperiences) in
  let consolidatedTitle :=
    exp_jobTitle mostRecentRole +:+ " (Previously: "
    +:+ join ", " (drop_last allTitles) +:+ ")" in
  let totalDuration :=
    formatDuration (startDate earliestRole) (endDate mostRecentRole) in
  let allDescriptions :=
    filter (fun desc => is_empty (trim desc) = false)
      (map (fun exp => tailorExperienceDescription (exp_description exp) jobReq)
         companyExperiences) in
  let consolidatedDescription :=
    if (1 <? length allDescriptions)%nat then
      "Career progression through multiple roles: " +:+ join " " allDescriptions
    else default "" (head allDescriptions) in
  let allAchievements :=
    fold_left
      (fun acc exp =>
         fold_left
           (fun acc achievement =>
              let tailored := tailorAchievement achievement jobReq in
              if is_empty (trim tailored) then acc else set_add acc tailored)
           (default [] (exp_achievements exp)) acc)
      companyExperiences [] in
  let roleProgressionSummary :=
    "Progressed through " +:+ pretty (length companyExperiences)
    +:+ " roles: "
    +:+ join " → "
          (rev (map (fun exp =>
                       exp_jobTitle exp +:+ " ("
                       +:+ formatDuration (startDate exp) (endDate exp)
                       +:+ ")")
                  companyExperiences)) in
  {| jobTitle := consolidatedTitle;
     company := company;
     te_location := exp_location mostRecentRole;
     duration := totalDuration;
     description := consolidatedDescription;
     achievements := roleProgressionSummary :: allAchievements |}.

(** the body of [companiesMap.forEach] *)
Definition tailor_group (jobReq : ParsedJobRequirements)
    (group : string * list Experience) : list TailoredExperience :=
  let companyExperiences := sort by_start_desc group.2 in
  match companyExperiences with
  | [] => []
  | [exp] => [single jobReq exp]
  | mostRecentRole :: _ =>
      [consolidate jobReq group.1 companyExperiences mostRecentRole]
  end.

Definition groupAndTailorExperience (experiences : list Experience)
    (jobRequirements : ParsedJobRequirements) : list TailoredExperience :=
  let companiesMap := group_by_company experiences in
  let tailoredExperience :=
    concat (map (tailor_group jobRequirements) companiesMap) in
  sort by_year_desc tailoredExperience.

(** *** generateTailoredCV *)



End WithDate.

End CvGenerator.

(** ** CorrespondenceComposer: cover-letter-generator.ts *)

Module CoverLetter.
Import JS Model.

Record Recipient := {
  companyName : string;
  rc_hiringManagerName : option string;
  department : option string;
  rc_jobTitle : string;
  emailAddress : option string
}.

Record Content := {
  opening : string;
  body : list string;
  closing : string
}.

Record CoverLetterData := {
  cl_personalInfo : PersonalInfo;
  recipient : Recipient;
  content : Content;
  signature : string
}.

Definition dq : string := String dquote "".

(** an optional string that is present and not empty *)
Definition truthy (o : option string) : bool :=
  match o with Some s => negb (is_empty s) | None => false end.

(** [x || ''] *)
Definition or_empty (o : option string) : string := default "" o.

(** [x ? pre + x : ''] *)
Definition prefixed (pre : string) (o : option string) : string :=
  if truthy o then pre +:+ or_empty o else "".

(** [s.replace(/\n\n/g, '</p><p>')] *)
Definition paragraph_breaks (s : string) : string :=
  Regex.replace_all (Regex.seq [Regex.lit LF; Regex.lit LF])
    (fun _ _ => "</p><p>") s.

(** [currentDate] is [new Date().toLocaleDateString('en-US', ...)], the
    date of the day as the runtime prints it. *)
Definition formatCoverLetterAsHTML (currentDate : string)
    (coverLetter : CoverLetterData) : string :=
    "<!DOCTYPE html>
<html lang="
    +:+ dq
    +:+ "en"
    +:+ dq
    +:+ ">
<head>
    <meta charset="
    +:+ dq
    +:+ "UTF-8"
    +:+ dq
    +:+ ">
    <meta name="
    +:+ dq
    +:+ "viewport"
    +:+ dq
    +:+ " content="
    +:+ dq
    +:+ "width=device-width, initial-scale=1.0"
    +:+ dq
    +:+ ">
    <title>Cover Letter - "
    +:+ fullName (cl_personalInfo coverLetter)
    +:+ "</title>
    <style>
        body {
            font-family: -apple-system, BlinkMacSystemFont, 'Segoe UI', Roboto, 'Calibri', sans-serif;
            line-height: 1.6;
            color: #333;
            max-width: 800px;
            margin: 0 auto;
            padding: 40px 20px;
            background: #fff;
        }
        
        .header {
            text-align: left;
            margin-bottom: 30px;
        }
        
        .header h1 {
            margin: 0;
            color: #2c3e50;
            font-size: 24px;
        }
        
        .contact-info {
            margin: 10px 0;
            color: #7f8c8d;
        }
        
        .date {
            margin: 20px 0;
            font-weight: 500;
        }
        
        .recipient {
            margin: 20px 0;
            font-weight: 500;
        }
        
        .subject {
            margin: 20px 0;
            font-weight: bold;
            color: #2c3e50;
        }
        
        .content {
            margin: 30px 0;
        }
        
        .content p {
            margin-bottom: 20px;
            text-align: justify;
        }
        
        .signature {
            margin-top: 30px;
            white-space: pre-line;
        }
        
        @media print {
            body {
                padding: 0;
                background: white;
            }
        }
    </style>
</head>
<body>
    <div class="
    +:+ dq
    +:+ "header"
    +:+ dq
    +:+ ">
        <h1>"
    +:+ fullName (cl_personalInfo coverLetter)
    +:+ "</h1>
        <div class="
    +:+ dq
    +:+ "contact-info"
    +:+ dq
    +:+ ">
            "
    +:+ email (cl_personalInfo coverLetter)
    +:+ "
            "
    +:+ prefixed " | " (phone (cl_personalInfo coverLetter))
    +:+ "
            "
    +:+ prefixed " | " (location (cl_personalInfo coverLetter))
    +:+ "
        </div>
    </div>
    
    <div class="
    +:+ dq
    +:+ "date"
    +:+ dq
    +:+ ">"
    +:+ currentDate
    +:+ "</div>
    
    <div class="
    +:+ dq
    +:+ "recipient"
    +:+ dq
    +:+ ">
        "
    +:+ or_empty (rc_hiringManagerName (recipient coverLetter))
    +:+ (if truthy (rc_hiringManagerName (recipient coverLetter)) then "<br>" else "")
    +:+ "
        "
    +:+ companyName (recipient coverLetter)
    +:+ "
        "
    +:+ prefixed "<br>" (emailAddress (recipient coverLetter))
    +:+ "
    </div>
    
    <div class="
    +:+ dq
    +:+ "subject"
    +:+ dq
    +:+ ">Re: Application for "
    +:+ rc_jobTitle (recipient coverLetter)
    +:+ " Position</div>
    
    <div class="
    +:+ dq
    +:+ "content"
    +:+ dq
    +:+ ">
        <p>"
    +:+ paragraph_breaks (opening (content coverLetter))
    +:+ "</p>
        "
    +:+ join "" (map (fun paragraph => "<p>" +:+ paragraph +:+ "</p>") (body (content coverLetter)))
    +:+ "
        <p>"
    +:+ closing (content coverLetter)
    +:+ "</p>
    </div>
    
    <div class="
    +:+ dq
    +:+ "signature"
    +:+ dq
    +:+ ">"
    +:+ signature coverLetter
    +:+ "</div>
</body>
</html>".

End CoverLetter.

(** ** DocumentRenderer: document-generator.ts, config.ts *)

Module DocumentGenerator.
Import JS Model Path.

Definition dq : string := String dquote "".
Definition nl : string := String LF "".

Definition truthy (o : option string) : bool :=
  match o with Some s => negb (is_empty s) | None => false end.

(** [xs.filter(Boolean)] *)
Definition filter_truthy (xs : list (option string)) : list string :=
  omap (fun o => if truthy o then o else None) xs.

(** [xs.forEach(x => { markdown += f(x) })] *)
Definition each {A} (f : A -> string) (xs : list A) : string :=
  fold_left (fun markdown x => markdown +:+ f x) xs "".

(** [achievement.replace(/\*\*(.*?)\*\*/g, "$1")] *)
Definition bold_marks : Regex.re :=
  Regex.seq [Regex.lit "*"; Regex.lit "*";
             Regex.Group (Regex.StarLazy Regex.dot);
             Regex.lit "*"; Regex.lit "*"].

Definition cleanAchievement (achievement : string) : string :=
  Regex.replace_all bold_marks (fun _ c => default "" c) achievement.

Definition skills_line (label : string) (xs : option (list string)) : string :=
  match xs with
  | Some (x :: r) =>
      "**" +:+ label +:+ ":** " +:+ join ", " (x :: r) +:+ nl +:+ nl
  | _ => ""
  end.

Definition experience_md (exp : TailoredExperience) : string :=
  if is_empty (jobTitle exp) || is_empty (company exp) then ""
  else
    "### " +:+ jobTitle exp +:+ " | " +:+ company exp +:+ nl
    +:+ match filter_truthy [te_location exp; Some (duration exp)] with
        | [] => ""
        | expDetails => "*" +:+ join " | " expDetails +:+ "*" +:+ nl +:+ nl
        end
    +:+ (if is_empty (description exp) then ""
         else description exp +:+ nl +:+ nl)
    +:+ match achievements exp with
        | [] => ""
        | l =>
            "**Key Achievements:**" +:+ nl
            +:+ each (fun a => "- " +:+ cleanAchievement a +:+ nl) l
            +:+ nl
        end.

Definition education_md (edu : Education) : string :=
  if is_empty (degree edu) || is_empty (institution edu) then ""
  else
    "### " +:+ degree edu +:+ nl
    +:+ "**" +:+ institution edu +:+ "**"
    +:+ (let eduDetails :=
           [edu_location edu; Some (graduationYear edu)]
           ++ (if truthy (gpa edu)
               then [Some ("GPA: " +:+ default "" (gpa edu))] else []) in
         match filter_truthy eduDetails with
         | [] => ""
         | kept => " | *" +:+ join " | " kept +:+ "*"
         end)
    +:+ nl +:+ nl
    +:+ skills_line "Honors" (honors edu).

Definition project_md (project : Project) : string :=
  if is_empty (proj_name project) || is_empty (proj_description project)
  then ""
  else
    "### " +:+ proj_name project +:+ nl
    +:+ (if truthy (url project)
         then "*Project URL: " +:+ default "" (url project) +:+ "*"
              +:+ nl +:+ nl
         else "")
    +:+ proj_description project +:+ nl +:+ nl
    +:+ "**Technologies:** " +:+ join ", " (technologies project)
    +:+ nl +:+ nl.

Definition formatCVAsMarkdown (cvData : TailoredCV) : result string :=
  let info := cv_personalInfo cvData in
  if is_empty (fullName info) then
    Err "Invalid CV data: Missing personalInfo.fullName"
  else
    OK ("# " +:+ fullName info +:+ nl +:+ nl
        +:+ match filter_truthy
                    [Some (email info); phone info; location info;
                     linkedIn info; github info; website info] with
            | [] => ""
            | contactInfo =>
                "**Contact:** " +:+ join " | " contactInfo +:+ nl +:+ nl
            end
        +:+ "---" +:+ nl +:+ nl
        +:+ "## Professional Summary" +:+ nl +:+ nl
        +:+ cv_summary cvData +:+ nl +:+ nl
        +:+ "## Skills" +:+ nl +:+ nl
        +:+ skills_line "Technical Skills"
              (Some (technical (cv_skills cvData)))
        +:+ skills_line "Soft Skills" (soft (cv_skills cvData))
        +:+ skills_line "Languages" (languages (cv_skills cvData))
        +:+ skills_line "Certifications" (certifications (cv_skills cvData))
        +:+ "## Experience" +:+ nl +:+ nl
        +:+ each experience_md (cv_experience cvData)
        +:+ "## Education" +:+ nl +:+ nl
        +:+ each education_md (cv_education cvData)
        +:+ match cv_projects cvData with
            | Some (p :: ps) =>
                "## Projects" +:+ nl +:+ nl +:+ each project_md (p :: ps)
            | _ => ""
            end).

(** [escapeHtml] of the package escape-html *)
Definition escape_char (c : ascii) : string :=
  if ascii_eqb c dquote then "&quot;"
  else if ascii_eqb c "&" then "&amp;"
  else if ascii_eqb c "'" then "&#39;"
  else if ascii_eqb c "<" then "&lt;"
  else if ascii_eqb c ">" then "&gt;"
  else String c "".

Fixpoint escapeHtml (s : string) : string :=
  match s with
  | EmptyString => EmptyString
  | String c r => escape_char c +:+ escapeHtml r
  end.

(** the options handed to [new MarkdownIt(...)] *)
Record MarkdownItOptions := {
  html : bool;
  linkify : bool;
  typographer : bool
}.

(** the page around the name and the rendered markdown *)
Definition pageHead : string :=
  "<!DOCTYPE html>
<html lang="
  +:+ dq
  +:+ "en"
  +:+ dq
  +:+ ">
<head>
    <meta charset="
  +:+ dq
  +:+ "UTF-8"
  +:+ dq
  +:+ ">
    <meta name="
  +:+ dq
  +:+ "viewport"
  +:+ dq
  +:+ " content="
  +:+ dq
  +:+ "width=device-width, initial-scale=1.0"
  +:+ dq
  +:+ ">
    <title>".

Definition pageMiddle : string :=
  " - Resume</title>
    <style>
        body {
            font-family: -apple-system, BlinkMacSystemFont, 'Segoe UI', Roboto, Oxygen, Ubuntu, Cantarell, sans-serif;
            line-height: 1.6;
            color: #333;
            max-width: 800px;
            margin: 0 auto;
            padding: 40px 20px;
            background: #fff;
        }
        
        h1 {
            color: #2c3e50;
            border-bottom: 3px solid #3498db;
            padding-bottom: 10px;
            margin-bottom: 20px;
        }
        
        h2 {
            color: #2980b9;
            border-bottom: 1px solid #bdc3c7;
            padding-bottom: 5px;
            margin-top: 30px;
        }
        
        h3 {
            color: #34495e;
            margin-bottom: 5px;
        }
        
        hr {
            border: none;
            border-top: 2px solid #ecf0f1;
            margin: 20px 0;
        }
        
        strong {
            color: #2c3e50;
        }
        
        em {
            color: #7f8c8d;
        }
        
        ul {
            padding-left: 20px;
        }
        
        li {
            margin-bottom: 5px;
        }
        
        @media print {
            body {
                padding: 0;
                background: white;
            }
            
            h1, h2, h3 {
                page-break-after: avoid;
            }
        }
    </style>
</head>
<body>
    ".

Definition pageTail : string :=
  "
</body>
</html>".

Section WithMarkdownIt.
(** [new MarkdownIt(options).render(markdown)] of the package
    markdown-it *)
Variable render : MarkdownItOptions -> string -> string.

Definition formatCVAsHTML (cvData : TailoredCV) : result string :=
  bind (formatCVAsMarkdown cvData) (fun markdown =>
    let md := {| html := false; linkify := true; typographer := true |} in
    let htmlContent := render md markdown in
    let escapedFullName := escapeHtml (fullName (cv_personalInfo cvData)) in
    OK (pageHead +:+ escapedFullName +:+ pageMiddle +:+ htmlContent
        +:+ pageTail)).

End WithMarkdownIt.

(** the text of the temporary stylesheet *)
Definition cssContent (baseFontSize lineHeight h1FontSize h2FontSize
    h3FontSize paragraphSpacing sectionSpacing : string) : string :=
  "body {
          font-family: -apple-system, BlinkMacSystemFont, 'Segoe UI', Roboto, 'Calibri', sans-serif;
          font-size: "
  +:+ baseFontSize
  +:+ ";
          line-height: "
  +:+ lineHeight
  +:+ ";
          color: #333;
          max-width: none;
          margin: 0;
          padding: 20px;
        }
        h1 {
          color: #2c3e50;
          border-bottom: 2px solid #3498db;
          padding-bottom: 6px;
          margin-bottom: "
  +:+ sectionSpacing
  +:+ ";
          margin-top: 0;
          font-size: "
  +:+ h1FontSize
  +:+ ";
          font-weight: 600;
          line-height: 1.2;
        }
        h2 {
          color: #2980b9;
          border-bottom: 1px solid #bdc3c7;
          padding-bottom: 3px;
          margin-top: "
  +:+ sectionSpacing
  +:+ ";
          margin-bottom: "
  +:+ paragraphSpacing
  +:+ ";
          font-size: "
  +:+ h2FontSize
  +:+ ";
          font-weight: 600;
          line-height: 1.3;
        }
        h3 {
          color: #34495e;
          margin-bottom: 4px;
          margin-top: "
  +:+ paragraphSpacing
  +:+ ";
          font-size: "
  +:+ h3FontSize
  +:+ ";
          font-weight: 600;
          line-height: 1.3;
        }
        p {
          margin-top: 0;
          margin-bottom: "
  +:+ paragraphSpacing
  +:+ ";
        }
        strong {
          color: #2c3e50;
          font-weight: 600;
        }
        em {
          color: #7f8c8d;
        }
        ul {
          margin: "
  +:+ paragraphSpacing
  +:+ " 0;
          padding-left: 20px;
        }
        li {
          margin-bottom: 3px;
          line-height: "
  +:+ lineHeight
  +:+ ";
        }
        hr {
          border: none;
          border-top: 1px solid #ecf0f1;
          margin: 20px 0;
        }".

(** *** The world of [generateDocument] *)

Record Margins := {
  top : option string;
  right : option string;
  bottom : option string;
  left : option string
}.

Record PDFOptions := {
  pageSize : option string;
  margins : option Margins
}.

Inductive OutputFormat : Type :=
| MARKDOWN
| PDF
| HTML
| OTHER (name : string).

(** what [mdToPdf] is called with *)
Record PdfRequest := {
  pr_content : string;
  dest : string;
  pr_format : string;
  margin_top : string;
  margin_right : string;
  margin_bottom : string;
  margin_left : string;
  printBackground : bool;
  launch_args : list string;
  stylesheet : list string
}.

(** what [mdToPdf] does: it throws, or it returns an object that may lack
    a [filename], having written the bytes [output] to [dest] or not *)
Inductive PdfOutcome : Type :=
| Throws (msg : string)
| Returns (filename : option string) (output : option string).

(** The files with their contents, the directories, [process.env], the
    value of [Date.now()], [os.tmpdir()], [process.cwd()], and the record
    of the conversion requests made so far. *)
Record World := {
  files : gmap string string;
  dirs : gset string;
  env : gmap string string;
  now : Z;
  tmpdir : string;
  cwd : string;
  conversions : list PdfRequest
}.

Definition with_files (f : gmap string string -> gmap string string)
    (w : World) : World :=
  {| files := f (files w); dirs := dirs w; env := env w; now := now w;
     tmpdir := tmpdir w; cwd := cwd w; conversions := conversions w |}.

Definition with_dirs (f : gset string -> gset string) (w : World) : World :=
  {| files := files w; dirs := f (dirs w); env := env w; now := now w;
     tmpdir := tmpdir w; cwd := cwd w; conversions := conversions w |}.

Definition record_conversion (r : PdfRequest) (w : World) : World :=
  {| files := files w; dirs := dirs w; env := env w; now := now w;
     tmpdir := tmpdir w; cwd := cwd w;
     conversions := conversions w ++ [r] |}.

(** [fs.writeFile(path, content)] where it succeeds; the failures of the
    file system (a target that is a directory, a full disk) are not
    modelled *)
Definition writeFile (path content : string) : World -> World :=
  with_files (insert path content).

(** [try { await fs.unlink(path) } catch { }] *)
Definition unlink (path : string) : World -> World :=
  with_files (delete path).

(** [fs.access(path)] succeeds *)
Definition accessible (path : string) (w : World) : bool :=
  bool_decide (is_Some (files w !! path)) || bool_decide (path ∈ dirs w).

(** [process.env.NAME || fallback] *)
Definition getenv (w : World) (name fallback : string) : string :=
  match env w !! name with
  | Some v => if is_empty v then fallback else v
  | None => fallback
  end.

(** [option || fallback] *)
Definition or_else (o : option string) (fallback : string) : string :=
  match o with
  | Some v => if is_empty v then fallback else v
  | None => fallback
  end.

Fixpoint prefixes {A} (l : list A) : list (list A) :=
  [] :: match l with
        | [] => []
        | x :: r => map (cons x) (prefixes r)
        end.

(** the directory and the directories above it *)
Definition with_ancestors (dirPath : string) : list string :=
  map render_abs (prefixes (resolve_comps "/" dirPath)).

(** [ensureDirectoryExists]: a path that is a file is refused, a missing
    directory is made with the directories above it.  Of the ways in which
    [fs.stat] and [fs.mkdir] fail only the path that is a file is
    modelled: where a directory above the path is a file, or access is
    denied, the code throws and this function does not.  What is stated
    of a call is therefore stated of a call that returns. *)
Definition ensureDirectoryExists (dirPath : string) (w : World)
  : result unit * World :=
  if bool_decide (dirPath ∈ dirs w) then (OK tt, w)
  else if bool_decide (is_Some (files w !! dirPath)) then
    (Err ("Path exists but is not a directory: " +:+ dirPath), w)
  else (OK tt, with_dirs (fun d => d ∪ list_to_set (with_ancestors dirPath)) w).

(** [/\.[^/.]+$/] *)
Definition extension : Regex.re :=
  Regex.seq [Regex.lit ".";
             Regex.Plus (Regex.Chr (fun a => negb (ascii_eqb a "/")
                                             && negb (ascii_eqb a ".")));
             Regex.Eos].

Section WithLibraries.
Variable render : MarkdownItOptions -> string -> string.
(** [mdToPdf] of the package md-to-pdf *)
Variable mdToPdf : PdfRequest -> World -> PdfOutcome.

(** the path of the temporary stylesheet *)
Definition tempCssPath (w : World) : string :=
  path_join [tmpdir w; "cv-style-" +:+ pretty (now w) +:+ ".css"].

Definition styleSheet (w : World) : string :=
  cssContent (getenv w "PDF_BASE_FONT_SIZE" "12px")
    (getenv w "PDF_LINE_HEIGHT" "1.4")
    (getenv w "PDF_H1_FONT_SIZE" "20px")
    (getenv w "PDF_H2_FONT_SIZE" "15px")
    (getenv w "PDF_H3_FONT_SIZE" "13px")
    (getenv w "PDF_PARAGRAPH_SPACING" "8px")
    (getenv w "PDF_SECTION_SPACING" "12px").

Definition margin_of (pdfOptions : option PDFOptions)
    (side : Margins -> option string) (w : World) (name : string) : string :=
  or_else (m ← (o ← pdfOptions; margins o); side m) (getenv w name "10mm").

Definition pdfRequest (markdown filePath : string)
    (pdfOptions : option PDFOptions) (w : World) : PdfRequest :=
  {| pr_content := markdown;
     dest := filePath;
     pr_format :=
       or_else (o ← pdfOptions; pageSize o) (getenv w "PDF_PAGE_SIZE" "A4");
     margin_top := margin_of pdfOptions top w "PDF_MARGIN_TOP";
     margin_right := margin_of pdfOptions right w "PDF_MARGIN_RIGHT";
     margin_bottom := margin_of pdfOptions bottom w "PDF_MARGIN_BOTTOM";
     margin_left := margin_of pdfOptions left w "PDF_MARGIN_LEFT";
     printBackground := true;
     launch_args := ["--no-sandbox"; "--disable-setuid-sandbox"];
     stylesheet := [tempCssPath w] |}.

(** the world in which the converter is called: the stylesheet is
    written and the request is on record *)
Definition at_conversion (markdown filePath : string)
    (pdfOptions : option PDFOptions) (w : World) : World :=
  let w1 := writeFile (tempCssPath w) (styleSheet w) w in
  record_conversion (pdfRequest markdown filePath pdfOptions w1) w1.

(** the [try] block of the PDF case; what it throws is caught and thrown
    again as [PDF generation failed: ...] *)
Definition convert (markdown filePath : string)
    (pdfOptions : option PDFOptions) (w : World) : result string * World :=
  let w := writeFile (tempCssPath w) (styleSheet w) w in
  let request := pdfRequest markdown filePath pdfOptions w in
  let w := record_conversion request w in
  match mdToPdf request w with
  | Throws msg => (Err ("PDF generation failed: " +:+ msg), w)
  | Returns filename output =>
      let w := match output with
               | Some bytes => writeFile filePath bytes w
               | None => w
               end in
      let w := unlink (tempCssPath w) w in
      if negb (truthy filename) then
        (Err ("PDF generation failed: "
              +:+ "PDF generation failed - no output file created"), w)
      else if accessible filePath w then (OK filePath, w)
      else
        (Err ("PDF generation failed: "
              +:+ "PDF file was not created at " +:+ filePath), w)
  end.

(** the steps before the [switch]: the validated directory and the base
    name *)
Definition prepare (outputPath fileName : string) (w : World)
  : result (string * string) * World :=
  match validateAndNormalizePath (cwd w) outputPath None with
  | Err e => (Err e, w)
  | OK validatedOutputPath =>
      match ensureDirectoryExists validatedOutputPath w with
      | (Err e, w) => (Err e, w)
      | (OK _, w) =>
          match sanitizeFileName fileName with
          | Err e => (Err e, w)
          | OK sanitizedFileName =>
              (OK (validatedOutputPath,
                   Regex.replace_first extension "" sanitizedFileName), w)
          end
      end
  end.

Definition generateDocument (cvData : TailoredCV)
    (outputPath fileName : string) (format : OutputFormat)
    (pdfOptions : option PDFOptions) (w : World) : result string * World :=
  match prepare outputPath fileName w with
  | (Err e, w) => (Err e, w)
  | (OK (validatedOutputPath, baseName), w) =>
      match format with
      | MARKDOWN =>
          match formatCVAsMarkdown cvData with
          | Err e => (Err e, w)
          | OK markdown =>
              match safeJoinPath (cwd w) validatedOutputPath
                      [baseName +:+ ".md"] with
              | Err e => (Err e, w)
              | OK filePath => (OK filePath, writeFile filePath markdown w)
              end
          end
      | HTML =>
          match formatCVAsHTML render cvData with
          | Err e => (Err e, w)
          | OK html =>
              match safeJoinPath (cwd w) validatedOutputPath
                      [baseName +:+ ".html"] with
              | Err e => (Err e, w)
              | OK filePath => (OK filePath, writeFile filePath html w)
              end
          end
      | PDF =>
          match formatCVAsMarkdown cvData with
          | Err e => (Err e, w)
          | OK markdown =>
              match safeJoinPath (cwd w) validatedOutputPath
                      [baseName +:+ ".pdf"] with
              | Err e => (Err e, w)
              | OK filePath => convert markdown filePath pdfOptions w
              end
          end
      | OTHER name => (Err ("Unsupported format: " +:+ name), w)
      end
  end.

End WithLibraries.

(** *** config.ts *)

Import Regex.

Definition pageSizes : list string :=
  ["A4"; "A3"; "A5"; "Letter"; "Legal"; "Tabloid"].

Definition valid_page_size (s : string) : bool := existsb (str_eqb s) pageSizes.

(** [/^\d+(\.\d+)?(mm|cm|in|px|pt)$/] *)
Definition marginFormat : re :=
  seq [Bos; Plus digit; Opt (Group (Seq (lit ".") (Plus digit)));
       Group (Alt (str "mm") (Alt (str "cm") (Alt (str "in")
                (Alt (str "px") (str "pt")))));
       Eos].

(** [/^\d+px$/] *)
Definition pixels : re := seq [Bos; Plus digit; str "px"; Eos].

(** [/^\d+(\.\d+)?$/] *)
Definition plainNumber : re :=
  seq [Bos; Plus digit; Opt (Group (Seq (lit ".") (Plus digit))); Eos].

(** [/^\d+$/] *)
Definition digits : re := seq [Bos; Plus digit; Eos].

Record Config := {
  DEFAULT_OUTPUT_PATH : option string;
  TEMP_DIR : option string;
  PDF_TIMEOUT : Z;
  PDF_PAGE_SIZE : string;
  PDF_MARGIN_TOP : string;
  PDF_MARGIN_RIGHT : string;
  PDF_MARGIN_BOTTOM : string;
  PDF_MARGIN_LEFT : string;
  PDF_BASE_FONT_SIZE : string;
  PDF_LINE_HEIGHT : string;
  PDF_H1_FONT_SIZE : string;
  PDF_H2_FONT_SIZE : string;
  PDF_H3_FONT_SIZE : string;
  PDF_PARAGRAPH_SPACING : string;
  PDF_SECTION_SPACING : string;
  DISABLE_SANDBOX : bool;
  DEBUG : bool
}.

(** a field [z.string().regex(r).optional().default(d)]: absent gives the
    default, present and matching gives the value, anything else fails the
    parse *)
Definition field (e : gmap string string) (name : string)
    (valid : string -> bool) (fallback : string) : option string :=
  match e !! name with
  | None => Some fallback
  | Some v => if valid v then Some v else None
  end.

Definition flag (v : string) : bool :=
  str_eqb v "true" || str_eqb v "false".

(** [ConfigSchema.parse(e)], [None] when it throws a [ZodError].  The
    timeout is kept as the integer that its digits denote, which
    [parseInt] gives up to 2^53. *)
Definition parseConfig (e : gmap string string) : option Config :=
  timeout ← field e "PDF_TIMEOUT" (test digits) "";
  size ← field e "PDF_PAGE_SIZE" valid_page_size "A4";
  mt ← field e "PDF_MARGIN_TOP" (test marginFormat) "10mm";
  mr ← field e "PDF_MARGIN_RIGHT" (test marginFormat) "10mm";
  mb ← field e "PDF_MARGIN_BOTTOM" (test marginFormat) "10mm";
  ml ← field e "PDF_MARGIN_LEFT" (test marginFormat) "10mm";
  base ← field e "PDF_BASE_FONT_SIZE" (test pixels) "12px";
  lh ← field e "PDF_LINE_HEIGHT" (test plainNumber) "1.4";
  h1 ← field e "PDF_H1_FONT_SIZE" (test pixels) "20px";
  h2 ← field e "PDF_H2_FONT_SIZE" (test pixels) "15px";
  h3 ← field e "PDF_H3_FONT_SIZE" (test pixels) "13px";
  ps ← field e "PDF_PARAGRAPH_SPACING" (test pixels) "8px";
  ss ← field e "PDF_SECTION_SPACING" (test pixels) "12px";
  sandbox ← field e "DISABLE_SANDBOX" flag "false";
  debug ← field e "DEBUG" flag "false";
  Some {| DEFAULT_OUTPUT_PATH := e !! "DEFAULT_OUTPUT_PATH";
          TEMP_DIR := e !! "TEMP_DIR";
          PDF_TIMEOUT :=
            if is_empty timeout then 60000%Z
            else default 60000%Z (IsoDate.number timeout);
          PDF_PAGE_SIZE := size;
          PDF_MARGIN_TOP := mt;
          PDF_MARGIN_RIGHT := mr;
          PDF_MARGIN_BOTTOM := mb;
          PDF_MARGIN_LEFT := ml;
          PDF_BASE_FONT_SIZE := base;
          PDF_LINE_HEIGHT := lh;
          PDF_H1_FONT_SIZE := h1;
          PDF_H2_FONT_SIZE := h2;
          PDF_H3_FONT_SIZE := h3;
          PDF_PARAGRAPH_SPACING := ps;
          PDF_SECTION_SPACING := ss;
          DISABLE_SANDBOX := str_eqb sandbox "true";
          DEBUG := str_eqb debug "true" |}.

(** [validateConfig]: the parsed environment, or the defaults alone when
    the environment does not parse *)
Definition validateConfig (e : gmap string string) : option Config :=
  match parseConfig e with
  | Some c => Some c
  | None => parseConfig ∅
  end.

(** a font size that the whitelist of [ConfigSchema] admits *)
Definition whitelisted_font_size (v : string) : bool := test pixels v.

End DocumentGenerator.

(** ** Inputs of the examples *)

Module Examples.
Import JS Model.

(** two roles at Acme, 2019 to 2021 and 2021 to now *)
Definition acme_engineer : Experience :=
  {| exp_jobTitle := "Engineer";
     exp_company := "Acme";
     exp_location := None;
     startDate := "2019";
     endDate := Some "2021";
     exp_description := "";
     exp_achievements := None |}.

Definition acme_senior : Experience :=
  {| exp_jobTitle := "Senior Engineer";
     exp_company := "Acme";
     exp_location := None;
     startDate := "2021";
     endDate := None;
     exp_description := "";
     exp_achievements := None |}.

Definition acme_consolidated : TailoredExperience :=
  {| jobTitle := "Senior Engineer (Previously: Engineer)";
     company := "Acme";
     te_location := None;
     duration := "Jan 2019 - Present";
     description := "";
     achievements :=
       ["Progressed through 2 roles: Engineer (Jan 2019 - Jan 2021) → Senior Engineer (Jan 2021 - Present)"] |}.

(** the posting of a senior agile coach *)
Definition agile_posting : JobRequirements :=
  {| jr_jobTitle := "Senior Agile Coach";
     jr_company := "Acme";
     jobDescription := "Coach our teams.";
     requirements := None;
     jr_preferredSkills := None;
     jr_location := None;
     jr_salaryRange := None |}.

(** a profile whose name carries markup, and a cover letter for it *)
Definition script_name : string := "<script>alert(1)</script>".

Definition script_info : PersonalInfo :=
  {| fullName := script_name;
     email := "eve@example.com";
     phone := None;
     location := None;
     linkedIn := None;
     github := None;
     website := None |}.

Definition script_letter : CoverLetter.CoverLetterData :=
  {| CoverLetter.cl_personalInfo := script_info;
     CoverLetter.recipient :=
       {| CoverLetter.companyName := "Acme";
          CoverLetter.rc_hiringManagerName := None;
          CoverLetter.department := None;
          CoverLetter.rc_jobTitle := "Engineer";
          CoverLetter.emailAddress := None |};
     CoverLetter.content :=
       {| CoverLetter.opening := "Dear Hiring Manager,";
          CoverLetter.body := ["I build things."];
          CoverLetter.closing := "Thank you." |};
     CoverLetter.signature := "Sincerely" |}.

(** a plain CV *)
Definition plain_cv : TailoredCV :=
  {| cv_personalInfo :=
       {| fullName := "Ada Lovelace";
          email := "ada@example.com";
          phone := None;
          location := None;
          linkedIn := None;
          github := None;
          website := None |};
     cv_summary := "Engineer.";
     cv_experience := [acme_consolidated];
     cv_education := [];
     cv_skills :=
       {| technical := ["Java"]; soft := None; languages := None;
          certifications := None |};
     cv_projects := None |}.

(** a font size in the environment that closes the rule and opens
    another, and a page size that is not on the list *)
Definition hostile_font_size : string := "12px; } body { display: none".

Definition hostile_world : DocumentGenerator.World :=
  {| DocumentGenerator.files := ∅;
     DocumentGenerator.dirs := ∅;
     DocumentGenerator.env := {[ "PDF_BASE_FONT_SIZE" := hostile_font_size ]};
     DocumentGenerator.now := 1700000000000;
     DocumentGenerator.tmpdir := "/tmp";
     DocumentGenerator.cwd := "/home/user";
     DocumentGenerator.conversions := [] |}.

Definition poster : DocumentGenerator.PDFOptions :=
  {| DocumentGenerator.pageSize := Some "Poster";
     DocumentGenerator.margins := None |}.

(** a converter that cannot start its browser, and one that writes the
    document *)
Definition failing_converter (r : DocumentGenerator.PdfRequest)
    (w : DocumentGenerator.World) : DocumentGenerator.PdfOutcome :=
  DocumentGenerator.Throws "Failed to launch the browser process".

Definition working_converter (r : DocumentGenerator.PdfRequest)
    (w : DocumentGenerator.World) : DocumentGenerator.PdfOutcome :=
  DocumentGenerator.Returns (Some (DocumentGenerator.dest r)) (Some "%PDF").

(** a markdown renderer that passes its input on *)
Definition echo_render (o : DocumentGenerator.MarkdownItOptions)
    (markdown : string) : string := markdown.

End Examples.

(** ** Further parts of the sources *)

(** *** The inputs on which the embedding is exact *)

(** The string primitives of [JS] are those of JavaScript on ASCII text:
    [trim] and [\s] know the six ASCII blanks, where JavaScript also takes
    U+00A0 and other blanks outside ASCII.  The pattern of [highlight] is
    the one that [new RegExp] builds where the word has no character with
    a meaning of its own in a pattern other than the dot; for other words
    [new RegExp] throws or builds another pattern.  Statements that turn
    on these primitives carry the conditions below. *)
Module Domain.
Import JS Model.

Definition is_ascii (c : ascii) : bool := (code c <? 128)%nat.

Definition ascii_text (s : string) : bool := sforall is_ascii s.

(** the characters with a meaning of their own in a pattern, the dot
    apart *)
Definition metachar (c : ascii) : bool :=
  existsb (ascii_eqb c)
    [backslash; "^"; "$"; "*"; "+"; "?"; "("; ")"; "["; "]"; "{"; "}";
     "|"]%char.

Definition plain_word (w : string) : bool :=
  sforall (fun c => is_ascii c && negb (metachar c)) w.

(** a requirement record whose key skills and keywords are plain words,
    as the ones of [parseJobRequirements] are *)
Definition plain_words (jobReq : ParsedJobRequirements) : bool :=
  forallb plain_word (keySkills jobReq)
  && forallb plain_word (keyWords jobReq).

(** experience entries with company names in ASCII *)
Definition ascii_companies (experiences : list Experience) : bool :=
  forallb (fun e => ascii_text (exp_company e)) experiences.

End Domain.

(** *** Further inputs of the examples *)

Module Samples.
Import JS Model.


(** a role at another company, 2015 to 2018 *)
Definition globex_analyst : Experience :=
  {| exp_jobTitle := "Analyst";
     exp_company := "Globex";
     exp_location := None;
     startDate := "2015";
     endDate := Some "2018";
     exp_description := "Wrote reports.";
     exp_achievements := Some ["Cut costs"] |}.


End Samples.

(** *** job-parser.ts: the text searched by parseJobRequirements *)

Module JobText.
Import JS Model JobParser.

(** the text that [parseJobRequirements] searches, in small letters *)
Definition lowered (jobReq : JobRequirements) : string :=
  toLowerCase
    (jr_jobTitle jobReq +:+ " " +:+ jobDescription jobReq +:+ " "
     +:+ join_or_empty (requirements jobReq) +:+ " "
     +:+ join_or_empty (jr_preferredSkills jobReq)).

End JobText.

(** *** config.ts: the checks of ConfigSchema *)

Module ConfigChecks.
Import JS Regex DocumentGenerator.

(** the style settings of a configuration pass the validators of
    [ConfigSchema] *)
Definition whitelisted (c : Config) : Prop :=
  valid_page_size (PDF_PAGE_SIZE c) = true /\
  Forall (fun v => test marginFormat v = true)
    [PDF_MARGIN_TOP c; PDF_MARGIN_RIGHT c; PDF_MARGIN_BOTTOM c;
     PDF_MARGIN_LEFT c] /\
  Forall (fun v => test pixels v = true)
    [PDF_BASE_FONT_SIZE c; PDF_H1_FONT_SIZE c; PDF_H2_FONT_SIZE c;
     PDF_H3_FONT_SIZE c; PDF_PARAGRAPH_SPACING c; PDF_SECTION_SPACING c] /\
  test plainNumber (PDF_LINE_HEIGHT c) = true.

(** the checked variables of [ConfigSchema], each with its check *)
Definition validators : list (string * (string -> bool)) :=
  [("PDF_TIMEOUT", test digits);
   ("PDF_PAGE_SIZE", valid_page_size);
   ("PDF_MARGIN_TOP", test marginFormat);
   ("PDF_MARGIN_RIGHT", test marginFormat);
   ("PDF_MARGIN_BOTTOM", test marginFormat);
   ("PDF_MARGIN_LEFT", test marginFormat);
   ("PDF_BASE_FONT_SIZE", test pixels);
   ("PDF_LINE_HEIGHT", test plainNumber);
   ("PDF_H1_FONT_SIZE", test pixels);
   ("PDF_H2_FONT_SIZE", test pixels);
   ("PDF_H3_FONT_SIZE", test pixels);
   ("PDF_PARAGRAPH_SPACING", test pixels);
   ("PDF_SECTION_SPACING", test pixels);
   ("DISABLE_SANDBOX", flag);
   ("DEBUG", flag)].

(** an environment with a page size that is not on the list, next to
    settings that are in order *)
Definition poster_env : gmap string string :=
  {[ "PDF_PAGE_SIZE" := "Poster";
     "PDF_BASE_FONT_SIZE" := "14px";
     "DEFAULT_OUTPUT_PATH" := "/srv/cv" ]}.

End ConfigChecks.

(** *** The calendar of the runtime *)

(** [getFullYear()] and [getMonth()] of a [Date], which read the time
    value in local time. *)
Class CalendarRuntime := {
  getFullYear : Z -> Z;
  getMonth : Z -> Z
}.

(** the calendar of a zone [tz] minutes ahead of UTC *)
Definition calendar_of (tz : Z) : CalendarRuntime :=
  {| getFullYear t :=
       (IsoDate.civil_from_days ((t + tz * 60000) / IsoDate.msPerDay)).1;
     getMonth t :=
       ((IsoDate.civil_from_days ((t + tz * 60000) / IsoDate.msPerDay)).2 - 1)%Z |}.

(** *** calculateTotalExperience: cover-letter-generator.ts,
    email-template-generator.ts *)

Module Years.
Import JS Model.

Section WithRuntime.
Context {date : DateRuntime} {calendar : CalendarRuntime}.
(** the time value of [new Date()] *)
Variable now : Z.

(** [exp.endDate ? new Date(exp.endDate) : new Date()] *)
Definition end_time (exp : Experience) : option Z :=
  match endDate exp with
  | Some e => if is_empty e then Some now else Date_parse e
  | None => Some now
  end.

(** what one role adds to [totalMonths] *)
Definition role_months (exp : Experience) : Z :=
  match Date_parse (startDate exp), end_time exp with
  | Some startDate, Some endDate =>
      let months :=
        ((getFullYear endDate - getFullYear startDate) * 12
         + (getMonth endDate - getMonth startDate))%Z in
      Z.max 0 months
  | _, _ => 0%Z
  end.

Definition totalMonths (experience : list Experience) : Z :=
  fold_left (fun totalMonths exp => (totalMonths + role_months exp)%Z)
    experience 0%Z.

(** [Math.round(x / 12)] of an integer [x]: halves go up *)
Definition round_twelfth (x : Z) : Z := ((x + 6) / 12)%Z.

Definition calculateTotalExperience (experience : list Experience) : Z :=
  match experience with
  | [] => 0%Z
  | _ => Z.max 1 (round_twelfth (totalMonths experience))
  end.

End WithRuntime.

End Years.

(** *** cover-letter-generator.ts: generateCoverLetter *)

Module CoverLetterGenerator.
Import JS Model CoverLetter Years.

(** the value of [Math.floor(Math.random() * 3)] *)
Inductive Choice : Type := First | Second | Third.

Definition choose {A} (c : Choice) (x y z : A) : A :=
  match c with First => x | Second => y | Third => z end.

Definition greeting (hiringManagerName : option string) : string :=
  if truthy hiringManagerName then "Dear " +:+ or_empty hiringManagerName
  else "Dear Hiring Manager".

Definition generateOpening (random : Choice) (jobTitle company : string)
    (hiringManagerName : option string) : string :=
  choose random
    (greeting hiringManagerName
     +:+ ",

I am writing to express my strong interest in the "
     +:+ jobTitle
     +:+ " position at "
     +:+ company
     +:+ ". With my proven track record and passion for excellence, I am excited about the opportunity to contribute to your team's success.")
    (greeting hiringManagerName
     +:+ ",

I was delighted to discover the "
     +:+ jobTitle
     +:+ " opening at "
     +:+ company
     +:+ ". Your company's reputation for innovation and excellence aligns perfectly with my career aspirations and professional values.")
    (greeting hiringManagerName
     +:+ ",

I am excited to submit my application for the "
     +:+ jobTitle
     +:+ " role at "
     +:+ company
     +:+ ". Having researched your organization extensively, I am impressed by your commitment to quality and would welcome the opportunity to contribute to your continued growth.").

Definition generateClosing (random : Choice) (company jobTitle : string)
  : string :=
  choose random
    ("I am enthusiastic about the possibility of joining "
     +:+ company
     +:+ " and contributing to your continued success. I would welcome the opportunity to discuss how my background and passion for excellence can benefit your team. Thank you for considering my application.")
    ("I am excited about the opportunity to bring my skills and enthusiasm to the "
     +:+ jobTitle
     +:+ " role at "
     +:+ company
     +:+ ". I look forward to discussing how I can contribute to your team's goals and would appreciate the chance to speak with you further about this position.")
    ("Thank you for taking the time to review my application. I am confident that my experience and dedication make me a strong candidate for the "
     +:+ jobTitle
     +:+ " position, and I would be thrilled to discuss how I can contribute to "
     +:+ company
     +:+ "'s continued growth and success.").

(** [keySkills.some(skill => text.toLowerCase().includes(skill.toLowerCase()))] *)
Definition mentions_skill (jobRequirements : ParsedJobRequirements)
    (text : string) : bool :=
  existsb (fun skill => includes (toLowerCase text) (toLowerCase skill))
    (keySkills jobRequirements).

Definition generateSkillsParagraph (userProfile : UserProfile)
    (jobRequirements : ParsedJobRequirements) : string :=
  let matchingSkills :=
    filter (fun skill =>
              existsb (fun reqSkill =>
                         includes (toLowerCase skill) (toLowerCase reqSkill)
                         || includes (toLowerCase reqSkill) (toLowerCase skill))
                (keySkills jobRequirements) = true)
      (technical (skills userProfile)) in
  let paragraph := "My technical expertise includes " in
  let paragraph :=
    match matchingSkills with
    | [] =>
        paragraph +:+ join ", " (take 5 (technical (skills userProfile)))
        +:+ ", providing a strong foundation for this role. "
    | _ =>
        paragraph +:+ join ", " (take 5 matchingSkills)
        +:+ ", which directly supports the requirements outlined in your job posting. "
    end in
  match soft (skills userProfile) with
  | Some (s :: rest) =>
      paragraph +:+ "Additionally, my strong "
      +:+ toLowerCase (join ", " (take 3 (s :: rest)))
      +:+ " skills enable me to collaborate effectively and drive results in dynamic environments."
  | _ => paragraph
  end.

Definition generateProjectsParagraph (userProfile : UserProfile)
    (jobRequirements : ParsedJobRequirements) : string :=
  let relevantProjects :=
    filter (fun project =>
              existsb (mentions_skill jobRequirements) (technologies project)
              = true)
      (default [] (projects userProfile)) in
  let paragraph := "I am particularly excited about this opportunity because " in
  match relevantProjects with
  | project :: _ =>
      paragraph +:+ "my recent work on " +:+ proj_name project
      +:+ " demonstrates my ability to "
      +:+ toLowerCase (proj_description project) +:+ ". "
      +:+ "This project utilized "
      +:+ join ", " (take 3 (technologies project))
      +:+ ", technologies that are directly relevant to your needs."
  | [] =>
      paragraph
      +:+ "your company's focus on innovation aligns perfectly with my passion for tackling complex challenges and delivering high-quality solutions. "
      +:+ "I am eager to bring my problem-solving abilities and technical expertise to contribute meaningfully to your team's objectives."
  end.

Definition generateSignature (personalInfo : PersonalInfo) : string :=
  let signature := "Sincerely," +:+ String LF "" +:+ fullName personalInfo in
  let contactDetails :=
    (if is_empty (email personalInfo) then [] else [email personalInfo])
    ++ (if truthy (phone personalInfo) then [or_empty (phone personalInfo)]
        else [])
    ++ (if truthy (linkedIn personalInfo)
        then [or_empty (linkedIn personalInfo)] else []) in
  match contactDetails with
  | [] => signature
  | _ => signature +:+ String LF "" +:+ join " | " contactDetails
  end.

Section WithRuntime.
Context {date : DateRuntime} {calendar : CalendarRuntime}.
Variable now : Z.

Definition generateExperienceParagraph (userProfile : UserProfile)
    (jobRequirements : ParsedJobRequirements) : string :=
  let totalYears := calculateTotalExperience now (experience userProfile) in
  let relevantExperience := take 2 (experience userProfile) in
  let paragraph :=
    "In my " +:+ pretty totalYears
    +:+ " years of professional experience, I have developed a comprehensive skill set that directly aligns with your requirements for this "
    +:+ pj_jobTitle jobRequirements +:+ " position. " in
  match relevantExperience with
  | mostRecentRole :: _ =>
      let relevantAchievements :=
        filter (fun achievement =>
                  mentions_skill jobRequirements achievement = true)
          (default [] (exp_achievements mostRecentRole)) in
      paragraph +:+ "Most recently, as " +:+ exp_jobTitle mostRecentRole
      +:+ " at " +:+ exp_company mostRecentRole
      +:+ ", I have successfully "
      +:+ match relevantAchievements with
          | [] =>
              "delivered impactful results and exceeded performance expectations"
          | _ => toLowerCase (join ", and " (take 2 relevantAchievements))
          end
      +:+ "."
  | [] => paragraph
  end.

Definition generateBodyParagraphs (userProfile : UserProfile)
    (jobRequirements : ParsedJobRequirements) : list string :=
  let paragraphs := [generateExperienceParagraph userProfile jobRequirements] in
  let paragraphs :=
    paragraphs ++ [generateSkillsParagraph userProfile jobRequirements] in
  match projects userProfile with
  | Some (_ :: _) =>
      paragraphs ++ [generateProjectsParagraph userProfile jobRequirements]
  | _ => paragraphs
  end.

(** [openingChoice] and [closingChoice] are the two draws of
    [Math.random]. *)
Definition generateCoverLetter (openingChoice closingChoice : Choice)
    (userProfile : UserProfile) (jobRequirements : ParsedJobRequirements)
    (hiringManagerName emailAddress : option string) : CoverLetterData :=
  let jobTitle := pj_jobTitle jobRequirements in
  let company := pj_company jobRequirements in
  {| cl_personalInfo := personalInfo userProfile;
     recipient :=
       {| companyName := company;
          rc_hiringManagerName := hiringManagerName;
          department := None;
          rc_jobTitle := jobTitle;
          emailAddress := emailAddress |};
     content :=
       {| opening :=
            generateOpening openingChoice jobTitle company hiringManagerName;
          body := generateBodyParagraphs userProfile jobRequirements;
          closing := generateClosing closingChoice company jobTitle |};
     signature := generateSignature (personalInfo userProfile) |}.

End WithRuntime.

(** [currentDate] is the date of the day as the runtime prints it. *)
Definition formatCoverLetterAsText (currentDate : string)
    (coverLetter : CoverLetterData) : string :=
  let nl := String LF "" in
  let info := cl_personalInfo coverLetter in
  let line (o : option string) :=
    if truthy o then or_empty o +:+ nl else "" in
  fullName info +:+ nl
  +:+ (if is_empty (email info) then "" else email info +:+ nl)
  +:+ line (phone info)
  +:+ line (location info)
  +:+ nl +:+ currentDate +:+ nl +:+ nl
  +:+ line (rc_hiringManagerName (recipient coverLetter))
  +:+ companyName (recipient coverLetter) +:+ nl
  +:+ line (emailAddress (recipient coverLetter))
  +:+ nl +:+ "Re: Application for " +:+ rc_jobTitle (recipient coverLetter)
  +:+ " Position" +:+ nl +:+ nl
  +:+ opening (content coverLetter) +:+ nl +:+ nl
  +:+ fold_left (fun text paragraph => text +:+ paragraph +:+ nl +:+ nl)
        (body (content coverLetter)) ""
  +:+ closing (content coverLetter) +:+ nl +:+ nl
  +:+ signature coverLetter.

End CoverLetterGenerator.

(** *** email-template-generator.ts *)

Module EmailTemplate.
Import JS Model Years.

Definition CR : ascii := chr 13.

(** [text.replace(/[\r\n]/g, '')]; the empty string stays empty *)
Definition sanitizeCRLF (text : string) : string :=
  sfilter (fun c => negb (ascii_eqb c CR || ascii_eqb c LF)) text.

Record Sender := {
  sender_name : string;
  sender_email : string
}.

Record Recipient := {
  recipient_email : string;
  recipient_name : option string;
  recipient_company : string
}.

Record EmailTemplateData := {
  sender : Sender;
  recipient : Recipient;
  subject : string;
  body : string;
  attachments : list string
}.

Inductive EmailTemplateType : Type :=
| APPLICATION
| FOLLOW_UP
| INQUIRY
| THANK_YOU.

Definition generateSubject (jobRequirements : ParsedJobRequirements)
    (templateType : EmailTemplateType) : string :=
  let jobTitle := pj_jobTitle jobRequirements in
  let company := pj_company jobRequirements in
  match templateType with
  | APPLICATION =>
      "Application for " +:+ jobTitle +:+ " Position at " +:+ company
  | FOLLOW_UP =>
      "Following up on " +:+ jobTitle +:+ " Application - " +:+ company
  | INQUIRY =>
      "Inquiry about " +:+ jobTitle +:+ " Opportunity at " +:+ company
  | THANK_YOU =>
      "Thank you for the " +:+ jobTitle +:+ " interview - " +:+ company
  end.

(** [phone ? sanitizeCRLF(phone) : ''] *)
Definition sanitized_phone (userProfile : UserProfile) : string :=
  match phone (personalInfo userProfile) with
  | Some p => sanitizeCRLF p
  | None => ""
  end.

Definition generateFollowUpEmailBody (userProfile : UserProfile)
    (jobRequirements : ParsedJobRequirements) (greeting : string) : string :=
  let sanitizedEmail := sanitizeCRLF (email (personalInfo userProfile)) in
  let sanitizedPhone := sanitized_phone userProfile in
  let sanitizedFullName := sanitizeCRLF (fullName (personalInfo userProfile)) in
    greeting
    +:+ ",

I hope you are doing well. I wanted to follow up on my application for the "
    +:+ pj_jobTitle jobRequirements
    +:+ " position at "
    +:+ pj_company jobRequirements
    +:+ ", which I submitted on [DATE].

I remain very interested in this opportunity and believe my skills and experience would be a valuable addition to your team. If you need any additional information or would like to schedule an interview, please don't hesitate to reach out.

I understand that you likely receive many applications, and I appreciate the time you take to review each one. I look forward to the possibility of discussing how I can contribute to "
    +:+ pj_company jobRequirements
    +:+ "'s success.

Thank you for your time and consideration.

Best regards,
"
    +:+ sanitizedFullName
    +:+ "
"
    +:+ sanitizedEmail
    +:+ "
"
    +:+ sanitizedPhone.

Definition generateInquiryEmailBody (userProfile : UserProfile)
    (jobRequirements : ParsedJobRequirements) (greeting : string) : string :=
  let sanitizedEmail := sanitizeCRLF (email (personalInfo userProfile)) in
  let sanitizedPhone := sanitized_phone userProfile in
  let sanitizedFullName := sanitizeCRLF (fullName (personalInfo userProfile)) in
    greeting
    +:+ ",

I hope this email finds you well. I am reaching out to inquire about the "
    +:+ pj_jobTitle jobRequirements
    +:+ " position at "
    +:+ pj_company jobRequirements
    +:+ ". I am very interested in this opportunity and would like to learn more about the role and your team.

Based on my research of "
    +:+ pj_company jobRequirements
    +:+ " and the position requirements, I believe my background would be a strong fit. I would appreciate the opportunity to discuss how my skills and experience align with your needs.

Would it be possible to schedule a brief conversation to learn more about this position? I am flexible with timing and can accommodate your schedule.

Thank you for your time, and I look forward to hearing from you.

Best regards,
"
    +:+ sanitizedFullName
    +:+ "
"
    +:+ sanitizedEmail
    +:+ "
"
    +:+ sanitizedPhone.

Definition generateThankYouEmailBody (userProfile : UserProfile)
    (jobRequirements : ParsedJobRequirements) (greeting : string) : string :=
  let sanitizedEmail := sanitizeCRLF (email (personalInfo userProfile)) in
  let sanitizedPhone := sanitized_phone userProfile in
  let sanitizedFullName := sanitizeCRLF (fullName (personalInfo userProfile)) in
    greeting
    +:+ ",

Thank you for taking the time to interview me for the "
    +:+ pj_jobTitle jobRequirements
    +:+ " position at "
    +:+ pj_company jobRequirements
    +:+ " today. I enjoyed our conversation and learning more about the role and your team's goals.

Our discussion reinforced my enthusiasm for this opportunity. I am particularly excited about [SPECIFIC ASPECT DISCUSSED] and how I can contribute to "
    +:+ pj_company jobRequirements
    +:+ "'s success in this area.

If you need any additional information or references, please don't hesitate to reach out. I look forward to the next steps in the process.

Thank you again for your time and consideration.

Best regards,
"
    +:+ sanitizedFullName
    +:+ "
"
    +:+ sanitizedEmail
    +:+ "
"
    +:+ sanitizedPhone.

Section WithRuntime.
Context {date : DateRuntime} {calendar : CalendarRuntime}.
Variable now : Z.

Definition generateApplicationEmailBody (userProfile : UserProfile)
    (jobRequirements : ParsedJobRequirements) (greeting : string) : string :=
  let matchingSkills :=
    take 4
      (filter (fun skill =>
                 existsb (fun reqSkill =>
                            includes (toLowerCase skill) (toLowerCase reqSkill)
                            || includes (toLowerCase reqSkill)
                                 (toLowerCase skill))
                   (keySkills jobRequirements) = true)
         (technical (skills userProfile))) in
  let totalExperience :=
    calculateTotalExperience now (experience userProfile) in
  let sanitizedEmail := sanitizeCRLF (email (personalInfo userProfile)) in
  let sanitizedPhone := sanitized_phone userProfile in
  let sanitizedFullName := sanitizeCRLF (fullName (personalInfo userProfile)) in
    greeting
    +:+ ",

I hope this email finds you well. I am writing to express my strong interest in the "
    +:+ pj_jobTitle jobRequirements
    +:+ " position at "
    +:+ pj_company jobRequirements
    +:+ ". After reviewing the job requirements, I am confident that my background and skills align perfectly with what you are seeking.

With "
    +:+ pretty totalExperience
    +:+ " years of professional experience, I bring expertise in "
    +:+ (match matchingSkills with
       | [] => join ", " (take 4 (technical (skills userProfile)))
       | _ => join ", " matchingSkills
       end)
    +:+ ". My proven track record of delivering high-quality results and my passion for excellence make me an ideal candidate for this role.

I have attached my CV and cover letter for your review. These documents provide detailed information about my experience, achievements, and how I can contribute to "
    +:+ pj_company jobRequirements
    +:+ "'s continued success.

I would welcome the opportunity to discuss how my skills and enthusiasm can benefit your team. Please feel free to contact me at "
    +:+ sanitizedEmail
    +:+ " or "
    +:+ (if is_empty sanitizedPhone then "via email" else sanitizedPhone)
    +:+ " to schedule a conversation.

Thank you for considering my application. I look forward to hearing from you soon.

Best regards,
"
    +:+ sanitizedFullName
    +:+ "
"
    +:+ sanitizedEmail
    +:+ "
"
    +:+ sanitizedPhone.

Definition generateEmailBody (userProfile : UserProfile)
    (jobRequirements : ParsedJobRequirements)
    (templateType : EmailTemplateType) (hiringManagerName : option string)
  : string :=
  let greeting :=
    match hiringManagerName with
    | Some n => if is_empty n then "Dear Hiring Manager" else "Dear " +:+ n
    | None => "Dear Hiring Manager"
    end in
  match templateType with
  | APPLICATION =>
      generateApplicationEmailBody userProfile jobRequirements greeting
  | FOLLOW_UP => generateFollowUpEmailBody userProfile jobRequirements greeting
  | INQUIRY => generateInquiryEmailBody userProfile jobRequirements greeting
  | THANK_YOU => generateThankYouEmailBody userProfile jobRequirements greeting
  end.

Definition generateEmailTemplate (userProfile : UserProfile)
    (jobRequirements : ParsedJobRequirements) (recipientEmail : string)
    (templateType : EmailTemplateType) (hiringManagerName : option string)
  : EmailTemplateData :=
  let subject := generateSubject jobRequirements templateType in
  let body :=
    generateEmailBody userProfile jobRequirements templateType
      hiringManagerName in
  {| sender :=
       {| sender_name := sanitizeCRLF (fullName (personalInfo userProfile));
          sender_email := sanitizeCRLF (email (personalInfo userProfile)) |};
     recipient :=
       {| recipient_email := sanitizeCRLF recipientEmail;
          recipient_name :=
            match hiringManagerName with
            | Some n => if is_empty n then None else Some (sanitizeCRLF n)
            | None => None
            end;
          recipient_company := sanitizeCRLF (pj_company jobRequirements) |};
     subject := sanitizeCRLF subject;
     body := body;
     attachments := ["CV.pdf"; "Cover_Letter.pdf"] |}.

End WithRuntime.

End EmailTemplate.

(** *** error-utils.ts *)

Module ErrorUtils.
Import JS.

(** what a [catch] receives: an [Error] with its message, or a value of
    another kind *)
Inductive Thrown : Type :=
| ErrorObject (message : string)
| OtherValue.

Definition generic : string :=
  "An unexpected error occurred. Please try again later.".

Definition extractSafeErrorDetails (error : Thrown) : string :=
  match error with
  | ErrorObject m =>
      let message := toLowerCase m in
      if includes message "validation" || includes message "invalid" then
        "Invalid input provided. Please check your data and try again."
      else if includes message "not found"
              || includes message "does not exist" then
        "Requested resource not found. Please verify your input."
      else if includes message "permission"
              || includes message "access denied" then
        "Permission denied. Please check your access rights."
      else if includes message "timeout" then
        "Operation timed out. Please try again."
      else if includes message "network"
              || includes message "connection" then
        "Network error occurred. Please check your connection and try again."
      else generic
  | OtherValue => generic
  end.

End ErrorUtils.

(** *** index.ts: getDefaultOutputPath *)

Module Server.
Import JS Path DocumentGenerator.

(** [process.env.NAME] where it is set and not empty *)
Definition env_value (w : World) (name : string) : option string :=
  match env w !! name with
  | Some v => if is_empty v then None else Some v
  | None => None
  end.

(** [path.sep] is [/], so that [envPath.replace(/\//g, path.sep)] is
    [envPath]. *)
Definition getDefaultOutputPath (w : World) : string :=
  match env_value w "DEFAULT_OUTPUT_PATH" with
  | Some envPath => resolve (cwd w) envPath
  | None =>
      match env_value w "USERPROFILE", env_value w "HOME" with
      | Some homeDir, _ | None, Some homeDir =>
          path_join [homeDir; "Documents"; "CVs"]
      | None, None => resolve (cwd w) "./generated-cvs"
      end
  end.

End Server.

(** *** document-generator.ts: the marker pattern of cleanAchievement *)

Module Markers.
Import JS Regex.

(** a character that is neither an asterisk nor a line terminator *)
Definition plain (c : ascii) : bool :=
  negb (ascii_eqb c "*") && negb (is_newline c).

(** a character that is not an asterisk *)
Definition no_star (c : ascii) : bool := negb (ascii_eqb c "*").

(** the continuation of the group: the capture is closed and the two
    asterisks follow *)
Definition closing (x0 : state) (y : state) : option state :=
  m (Seq (lit "*") (lit "*")) Some
    {| prev := prev y; pos := pos y; rest := rest y;
       cap := Some (stake (pos y - pos x0) (rest x0)) |}.

(** the text that [cleanAchievement] yields from a position on *)
Definition cleaned (p : option ascii) (i : nat) (s : string) : string :=
  fold_right String.append ""
    (scan DocumentGenerator.bold_marks (fun _ c => default "" c) (fun a => [String a ""])
       p i 0 s).

(** the character before the position that follows [w] *)
Fixpoint last_char (p : option ascii) (w : string) : option ascii :=
  match w with
  | EmptyString => p
  | String a w' => last_char (Some a) w'
  end.

End Markers.

(** * Properties *)

(** ** Strings *)

Module JSFacts.
Import JS.

Lemma sapp_nil_l (s : string) : "" +:+ s = s.
Proof. reflexivity. Qed.

Lemma sapp_cons (c : ascii) (s t : string) :
  String c s +:+ t = String c (s +:+ t).
Proof. reflexivity. Qed.

Lemma sapp_nil_r (s : string) : s +:+ "" = s.
Proof. induction s as [|c s IH]; [done|]. by rewrite sapp_cons, IH. Qed.

Lemma sapp_assoc (s t u : string) : (s +:+ t) +:+ u = s +:+ t +:+ u.
Proof. induction s as [|c s IH]; [done|]. by rewrite !sapp_cons, IH. Qed.

Lemma ascii_eqb_eq (a b : ascii) : ascii_eqb a b = true <-> a = b.
Proof. apply Ascii.eqb_eq. Qed.

Lemma ascii_eqb_refl (a : ascii) : ascii_eqb a a = true.
Proof. by apply ascii_eqb_eq. Qed.

Lemma str_eqb_eq (s t : string) : str_eqb s t = true <-> s = t.
Proof. apply String.eqb_eq. Qed.

Lemma str_eqb_refl (s : string) : str_eqb s s = true.
Proof. by apply str_eqb_eq. Qed.

Lemma str_eqb_neq (s t : string) : str_eqb s t = false <-> s <> t.
Proof. apply String.eqb_neq. Qed.

Lemma is_empty_true (s : string) : is_empty s = true <-> s = "".
Proof. by destruct s. Qed.

Lemma startsWith_app (s t : string) : startsWith (t +:+ s) t = true.
Proof.
  induction t as [|c t IH]; [reflexivity|].
  rewrite sapp_cons. simpl. by rewrite ascii_eqb_refl, IH.
Qed.

Lemma startsWith_spec (s t : string) :
  startsWith s t = true <-> exists r, s = t +:+ r.
Proof.
  split.
  - revert s. induction t as [|b t IH]; intros s H.
    + by exists s.
    + destruct s as [|a s]; [done|]. simpl in H.
      apply andb_true_iff in H as [Hab H].
      apply ascii_eqb_eq in Hab as ->.
      destruct (IH _ H) as [r ->]. by exists r.
  - intros [r ->]. apply startsWith_app.
Qed.

Lemma includes_unfold (s t : string) :
  includes s t =
  startsWith s t ||
  match s with EmptyString => false | String _ s' => includes s' t end.
Proof. by destruct s. Qed.

Lemma includes_spec (s t : string) :
  includes s t = true <-> exists p q, s = p +:+ t +:+ q.
Proof.
  split.
  - induction s as [|c s IH]; simpl; intros H.
    + rewrite orb_false_r in H. apply startsWith_spec in H as [r ->].
      by exists "", r.
    + apply orb_true_iff in H as [H|H].
      * apply startsWith_spec in H as [r ->]. by exists "", r.
      * destruct (IH H) as (p & q & ->). by exists (String c p), q.
  - intros (p & q & ->). induction p as [|c p IH].
    + rewrite sapp_nil_l, includes_unfold. by rewrite startsWith_app.
    + rewrite sapp_cons. simpl. rewrite IH. apply orb_true_r.
Qed.

Lemma includes_app_l (s u t : string) :
  includes s t = true -> includes (s +:+ u) t = true.
Proof.
  rewrite !includes_spec. intros (p & q & ->).
  exists p, (q +:+ u). by rewrite !sapp_assoc.
Qed.

Lemma includes_app_r (s u t : string) :
  includes u t = true -> includes (s +:+ u) t = true.
Proof.
  rewrite !includes_spec. intros (p & q & ->).
  exists (s +:+ p), q. by rewrite !sapp_assoc.
Qed.

Lemma smap_app (f : ascii -> ascii) (s t : string) :
  smap f (s +:+ t) = smap f s +:+ smap f t.
Proof. induction s as [|c s IH]; [done|]. rewrite !sapp_cons. simpl. by rewrite IH, sapp_cons. Qed.

Lemma toLowerCase_app (s t : string) :
  toLowerCase (s +:+ t) = toLowerCase s +:+ toLowerCase t.
Proof. apply smap_app. Qed.

(** After the single pass no [..] is left. *)
Lemma remove_dotdot_head (c : ascii) (r : string) :
  c <> "."%char ->
  remove_dotdot (String c r) = String c (remove_dotdot r).
Proof.
  intros Hc. simpl.
  destruct c as [[] [] [] [] [] [] [] []]; try reflexivity.
  destruct r as [|[[] [] [] [] [] [] [] []] r]; try reflexivity.
  by destruct Hc.
Qed.

Lemma remove_dotdot_dot (r : string) :
  remove_dotdot (String "." r) =
  match r with
  | String "." r' => remove_dotdot r'
  | _ => String "." (remove_dotdot r)
  end.
Proof. reflexivity. Qed.

Lemma remove_dotdot_clean_len (n : nat) (s : string) :
  String.length s <= n -> includes (remove_dotdot s) ".." = false.
Proof.
  revert s. induction n as [|n IH]; intros s Hlen.
  - destruct s; [done|simpl in Hlen; lia].
  - destruct s as [|c r]; [done|]. simpl in Hlen.
    destruct (decide (c = "."%char)) as [->|Hc].
    + rewrite remove_dotdot_dot. destruct r as [|d r']; [done|].
      simpl in Hlen.
      destruct (decide (d = "."%char)) as [->|Hd].
      * apply IH. lia.
      * assert (Hr : includes (remove_dotdot (String d r')) ".." = false)
          by (apply IH; simpl; lia).
        replace (match d with "."%char => remove_dotdot r' | _ =>
                   String "." (remove_dotdot (String d r')) end)
          with (String "." (remove_dotdot (String d r'))).
        2:{ by destruct d as [[] [] [] [] [] [] [] []]. }
        rewrite includes_unfold, Hr.
        rewrite remove_dotdot_head by done. simpl.
        assert (ascii_eqb d "." = false) as ->; [|done].
        apply not_true_iff_false. by rewrite ascii_eqb_eq.
    + rewrite remove_dotdot_head by done.
      rewrite includes_unfold, IH by lia. simpl.
      assert (ascii_eqb c "." = false) as ->; [|done].
      apply not_true_iff_false. by rewrite ascii_eqb_eq.
Qed.

Lemma remove_dotdot_clean (s : string) :
  includes (remove_dotdot s) ".." = false.
Proof. by apply (remove_dotdot_clean_len (String.length s)). Qed.

Lemma sforall_smap (p : ascii -> bool) (g : ascii -> ascii) (s : string) :
  sforall p (smap g s) = sforall (fun c => p (g c)) s.
Proof. induction s as [|c s IH]; [done|]. simpl. by rewrite IH. Qed.

Lemma sforall_sfilter (p q : ascii -> bool) (s : string) :
  (forall c, q c = true -> p c = true) -> sforall p (sfilter q s) = true.
Proof.
  intros Hpq. induction s as [|c s IH]; [done|]. simpl.
  destruct (q c) eqn:Hq; [|done]. simpl. by rewrite Hpq, IH.
Qed.

Lemma sforall_impl (p q : ascii -> bool) (s : string) :
  (forall c, p c = true -> q c = true) ->
  sforall p s = true -> sforall q s = true.
Proof.
  intros Hpq. induction s as [|c s IH]; [done|]. simpl.
  intros [Hc Hs]%andb_true_iff. by rewrite Hpq, IH.
Qed.

Lemma remove_dotdot_sforall (p : ascii -> bool) (s : string) :
  sforall p s = true -> sforall p (remove_dotdot s) = true.
Proof.
  assert (H : forall n s, String.length s <= n ->
            sforall p s = true -> sforall p (remove_dotdot s) = true).
  { clear s. induction n as [|n IH]; intros s Hlen Hs.
    - destruct s; [done|simpl in Hlen; lia].
    - destruct s as [|c r]; [done|]. simpl in Hlen, Hs.
      apply andb_true_iff in Hs as [Hc Hr].
      destruct (decide (c = "."%char)) as [->|Hne].
      + rewrite remove_dotdot_dot. destruct r as [|d r'].
        * simpl. by rewrite Hc.
        * simpl in Hlen, Hr. apply andb_true_iff in Hr as [Hd Hr'].
          destruct (decide (d = "."%char)) as [->|Hd'].
          -- apply IH; [lia|done].
          -- replace (match d with "."%char => remove_dotdot r' | _ =>
                   String "." (remove_dotdot (String d r')) end)
               with (String "." (remove_dotdot (String d r'))).
             2:{ by destruct d as [[] [] [] [] [] [] [] []]. }
             cbn [sforall]. rewrite Hc. cbn [andb].
             apply IH; [simpl; lia|]. simpl. by rewrite Hd, Hr'.
      + rewrite remove_dotdot_head by done. simpl. rewrite Hc. simpl.
        apply IH; [lia|done]. }
  by apply (H (String.length s)).
Qed.

End JSFacts.

(** ** The path model *)

Module PathFacts.
Import JS JSFacts Path.

Lemma split_slash_cons (s : string) : exists h t, split_slash s = h :: t.
Proof.
  induction s as [|c s (h & t & IH)]; simpl; [by eexists _, _|].
  destruct (ascii_eqb c "/"); [by eexists _, _|].
  rewrite IH. by eexists _, _.
Qed.

Lemma split_slash_no_slash (s : string) :
  Forall (fun c => no_slash c = true) (split_slash s).
Proof.
  induction s as [|c s IH]; simpl.
  - by constructor.
  - destruct (ascii_eqb c "/") eqn:Hc.
    + by constructor.
    + destruct (split_slash s) as [|h t]; constructor; try done.
      * unfold no_slash. simpl. by rewrite Hc.
      * inversion IH; subst. unfold no_slash in *. simpl. by rewrite Hc.
      * by inversion IH.
Qed.

Lemma split_slash_app (s t : string) :
  split_slash (s +:+ "/" +:+ t) = split_slash s ++ split_slash t.
Proof.
  induction s as [|c s IH].
  - reflexivity.
  - rewrite sapp_cons. simpl. rewrite IH.
    destruct (ascii_eqb c "/"); [done|].
    destruct (split_slash_cons s) as (h & r & ->). done.
Qed.

Lemma split_slash_one (c : string) :
  no_slash c = true -> split_slash c = [c].
Proof.
  induction c as [|a c IH]; [done|].
  unfold no_slash. simpl. intros [Ha Hc]%andb_true_iff.
  apply negb_true_iff in Ha. rewrite Ha.
  unfold no_slash in IH. by rewrite (IH Hc).
Qed.

Lemma join_cons (sep x y : string) (r : list string) :
  join sep (x :: y :: r) = x +:+ sep +:+ join sep (y :: r).
Proof. reflexivity. Qed.

Lemma split_slash_join (cs : list string) :
  cs <> [] -> Forall (fun c => no_slash c = true) cs ->
  split_slash (join "/" cs) = cs.
Proof.
  induction cs as [|c cs IH]; [done|]. intros _ Hall.
  inversion Hall as [|? ? Hc Hcs]; subst.
  destruct cs as [|d cs].
  - by apply split_slash_one.
  - rewrite join_cons, split_slash_app, split_slash_one by done.
    simpl. f_equal. by apply IH.
Qed.

Lemma norm_step_skip b acc c :
  c = "" \/ c = "." -> norm_step b acc c = acc.
Proof. by intros [-> | ->]. Qed.

Lemma norm_step_push b acc c :
  c <> "" -> c <> "." -> c <> ".." -> norm_step b acc c = c :: acc.
Proof.
  intros H1 H2 H3. unfold norm_step.
  apply str_eqb_neq in H1, H2, H3. by rewrite H1, H2, H3.
Qed.

Lemma norm_step_pop b top rest :
  top <> ".." -> norm_step b (top :: rest) ".." = rest.
Proof. intros H%str_eqb_neq. unfold norm_step. simpl. by rewrite H. Qed.

Lemma norm_step_above (acc : list string) :
  acc = [] \/ (exists rest, acc = ".." :: rest) ->
  norm_step true acc ".." = ".." :: acc.
Proof. by intros [-> | [rest ->]]. Qed.

Lemma norm_step_cases (c : string) :
  (c = "" \/ c = ".") \/ c = ".." \/ (c <> "" /\ c <> "." /\ c <> "..").
Proof.
  destruct (decide (c = "")); [by left; left|].
  destruct (decide (c = ".")); [by left; right|].
  destruct (decide (c = "..")); [by right; left|].
  by right; right.
Qed.

(** Without [allowAboveRoot] every kept segment is normal. *)
Lemma fold_norm_false_normal (cs acc : list string) :
  Forall (fun c => no_slash c = true) cs ->
  Forall (fun c => normal_comp c = true) acc ->
  Forall (fun c => normal_comp c = true)
    (fold_left (norm_step false) cs acc).
Proof.
  revert acc. induction cs as [|c cs IH]; intros acc Hcs Hacc; [done|].
  inversion Hcs as [|? ? Hc Hcs']; subst. simpl. apply IH; [done|].
  destruct (norm_step_cases c) as [H|[->|(H1 & H2 & H3)]].
  - by rewrite norm_step_skip.
  - unfold norm_step. simpl. destruct acc as [|top rest]; [done|].
    destruct (str_eqb top ".."); [done|]. by inversion Hacc.
  - rewrite norm_step_push by done. constructor; [|done].
    unfold normal_comp. apply str_eqb_neq in H1, H2, H3.
    by rewrite H1, H2, H3, Hc.
Qed.

Lemma resolve_comps_normal (cwd p : string) :
  Forall (fun c => normal_comp c = true) (resolve_comps cwd p).
Proof.
  unfold resolve_comps, normalizeString.
  apply Forall_rev, fold_norm_false_normal; [|done].
  apply split_slash_no_slash.
Qed.

Lemma normal_comp_inv (c : string) :
  normal_comp c = true ->
  c <> "" /\ c <> "." /\ c <> ".." /\ no_slash c = true.
Proof.
  unfold normal_comp. rewrite !andb_true_iff, !negb_true_iff.
  intros [[[H1 H2] H3] H4]. by apply str_eqb_neq in H1, H2, H3.
Qed.

(** Normal segments are pushed one after the other. *)
Lemma fold_norm_normal b (cs acc : list string) :
  Forall (fun c => normal_comp c = true) cs ->
  fold_left (norm_step b) cs acc = rev cs ++ acc.
Proof.
  revert acc. induction cs as [|c cs IH]; intros acc Hcs; [done|].
  inversion Hcs as [|? ? Hc Hcs']; subst. simpl.
  apply normal_comp_inv in Hc as (H1 & H2 & H3 & _).
  rewrite norm_step_push, IH by done. by rewrite <- List.app_assoc.
Qed.

Lemma fold_norm_skip_last b (cs acc : list string) :
  fold_left (norm_step b) (cs ++ [""]) acc = fold_left (norm_step b) cs acc.
Proof. by rewrite fold_left_app. Qed.

(** [path.resolve] is the identity on an already resolved path. *)
Lemma resolve_comps_render (cwd : string) (cs : list string) :
  Forall (fun c => normal_comp c = true) cs ->
  resolve_comps cwd (render_abs cs) = cs.
Proof.
  intros Hcs. unfold resolve_comps, render_abs, isAbsolute.
  rewrite startsWith_app. rewrite sapp_cons, sapp_nil_l. simpl.
  unfold normalizeString. simpl.
  destruct cs as [|c cs]; [done|].
  rewrite split_slash_join; [|done|].
  - rewrite fold_norm_normal by done. by rewrite app_nil_r, rev_involutive.
  - eapply Forall_impl; [exact Hcs|]. intros x Hx.
    by apply normal_comp_inv in Hx as (_ & _ & _ & ?).
Qed.

Lemma kept_dotdot : kept "..".
Proof. by split. Qed.

Lemma norm_step_kept b (acc : list string) (c : string) :
  Forall kept acc -> Forall kept (norm_step b acc c).
Proof.
  intros Hacc.
  destruct (norm_step_cases c) as [H|[->|(H1 & H2 & H3)]].
  - by rewrite norm_step_skip.
  - unfold norm_step. simpl. destruct acc as [|top rest].
    + destruct b; [|done]. constructor; [apply kept_dotdot|done].
    + destruct (str_eqb top "..").
      * destruct b; [|done]. constructor; [apply kept_dotdot|done].
      * by inversion Hacc.
  - rewrite norm_step_push by done. by constructor.
Qed.

Lemma fold_norm_kept b (cs acc : list string) :
  Forall kept acc -> Forall kept (fold_left (norm_step b) cs acc).
Proof.
  revert acc. induction cs as [|c cs IH]; intros acc Hacc; [done|].
  simpl. by apply IH, norm_step_kept.
Qed.

Lemma norm_step_no_slash b (acc : list string) (c : string) :
  no_slash c = true ->
  Forall (fun c => no_slash c = true) acc ->
  Forall (fun c => no_slash c = true) (norm_step b acc c).
Proof.
  intros Hc Hacc. unfold norm_step.
  destruct (_ || _); [done|].
  destruct (str_eqb c "..") eqn:Hdd; [|by constructor].
  destruct acc as [|top rest].
  - destruct b; [|done]. by constructor.
  - destruct (str_eqb top "..").
    + destruct b; [|done]. by constructor.
    + by inversion Hacc.
Qed.

Lemma fold_norm_no_slash b (cs acc : list string) :
  Forall (fun c => no_slash c = true) cs ->
  Forall (fun c => no_slash c = true) acc ->
  Forall (fun c => no_slash c = true) (fold_left (norm_step b) cs acc).
Proof.
  revert acc. induction cs as [|c cs IH]; intros acc Hcs Hacc; [done|].
  inversion Hcs; subst. simpl. by apply IH, norm_step_no_slash.
Qed.

(** Resolving a path that was normalized first gives what resolving the
    path itself gives: the [..] segments that relative normalization keeps
    are consumed by the absolute one in the same way. *)
Lemma abs_after_rel (xs R0 S : list string) :
  Forall kept R0 ->
  fold_left (norm_step false) (rev (fold_left (norm_step true) xs R0)) S =
  fold_left (norm_step false) xs (fold_left (norm_step false) (rev R0) S).
Proof.
  revert R0. induction xs as [|c xs IH]; intros R0 HR0; [done|].
  cbn [fold_left].
  assert (Heq :
            fold_left (norm_step false) (rev (norm_step true R0 c)) S =
            norm_step false (fold_left (norm_step false) (rev R0) S) c).
  { destruct (norm_step_cases c) as [H|[->|(H1 & H2 & H3)]].
    - by rewrite !norm_step_skip.
    - destruct R0 as [|top rest].
      { by rewrite norm_step_above by by left. }
      destruct (decide (top = "..")) as [->|Htop].
      + rewrite norm_step_above by (right; by eexists).
        cbn [rev]. by rewrite !fold_left_app.
      + inversion HR0 as [|? ? (Ht1 & Ht2) Hrest]; subst.
        rewrite norm_step_pop by done.
        cbn [rev]. rewrite fold_left_app. cbn [fold_left].
        rewrite (norm_step_push false _ top) by done.
        by rewrite norm_step_pop.
    - rewrite (norm_step_push true) by done.
      cbn [rev]. by rewrite fold_left_app. }
  rewrite IH by by apply norm_step_kept. by rewrite Heq.
Qed.

Lemma join_first (c : string) (r : list string) :
  exists tl, join "/" (c :: r) = c +:+ tl.
Proof.
  destruct r as [|d r]; [exists ""|eexists]; simpl; [|done].
  by rewrite sapp_nil_r.
Qed.

Lemma join_nonempty (c : string) (r : list string) :
  c <> "" -> is_empty (join "/" (c :: r)) = false.
Proof.
  intros Hc. destruct (join_first c r) as [tl ->]. by destruct c.
Qed.

Lemma join_empty_inv (cs : list string) :
  Forall kept cs -> is_empty (join "/" cs) = true -> cs = [].
Proof.
  destruct cs as [|c r]; [done|]. intros Hk He.
  inversion Hk as [|? ? [Hc _] _]; subst.
  by rewrite join_nonempty in He.
Qed.

Lemma join_not_abs (c : string) (r : list string) (post : string) :
  c <> "" -> no_slash c = true ->
  isAbsolute (join "/" (c :: r) +:+ post) = false.
Proof.
  intros Hc Hs. destruct (join_first c r) as [tl ->].
  destruct c as [|a c]; [done|].
  unfold no_slash in Hs. simpl in Hs. apply andb_true_iff in Hs as [Ha _].
  unfold isAbsolute. rewrite !sapp_cons. simpl.
  apply negb_true_iff in Ha. by rewrite Ha.
Qed.

Lemma split_slash_post (body : string) (trailing : bool) :
  exists tl, (tl = [] \/ tl = [""]) /\
    split_slash (body +:+ (if trailing then "/" else "")) =
    split_slash body ++ tl.
Proof.
  destruct trailing.
  - exists [""]. split; [by right|].
    change [""] with (split_slash ""). rewrite <- split_slash_app.
    by rewrite sapp_nil_r.
  - exists []. split; [by left|]. by rewrite sapp_nil_r, app_nil_r.
Qed.

Lemma fold_norm_tl b (cs tl acc : list string) :
  tl = [] \/ tl = [""] ->
  fold_left (norm_step b) (cs ++ tl) acc = fold_left (norm_step b) cs acc.
Proof.
  intros [-> | ->]; [by rewrite app_nil_r|apply fold_norm_skip_last].
Qed.

Lemma resolve_comps_rel (cwd p : string) :
  isAbsolute p = false ->
  resolve_comps cwd p =
  rev (fold_left (norm_step false) (split_slash p)
         (fold_left (norm_step false) (split_slash cwd) [])).
Proof.
  intros Hp. unfold resolve_comps, normalizeString. rewrite Hp.
  by rewrite split_slash_app, fold_left_app.
Qed.

(** [path.resolve(path.normalize(p))] is [path.resolve(p)]. *)
Lemma resolve_normalize (cwd X : string) :
  X <> "" -> resolve_comps cwd (normalize X) = resolve_comps cwd X.
Proof.
  intros HX. unfold normalize.
  destruct (is_empty X) eqn:HeX; [by apply is_empty_true in HeX|].
  destruct (isAbsolute X) eqn:Habs; cbn [negb].
  - pose proof (resolve_comps_normal cwd X) as Hn.
    assert (HN : resolve_comps cwd X = normalizeString false (split_slash X))
      by (unfold resolve_comps; by rewrite Habs).
    rewrite <- HN. destruct (resolve_comps cwd X) as [|c r] eqn:HNe; [done|].
    inversion Hn as [|? ? Hc _]; subst.
    apply normal_comp_inv in Hc as (Hc1 & _).
    rewrite join_nonempty by done.
    destruct (split_slash_post (join "/" (c :: r)) (endsWithSlash X))
      as (tl & Htl & Hsp).
    unfold resolve_comps, isAbsolute. rewrite startsWith_app.
    rewrite sapp_cons, sapp_nil_l. cbn [split_slash]. rewrite ascii_eqb_refl.
    rewrite Hsp, split_slash_join; [|done|].
    + unfold normalizeString. cbn [fold_left].
      rewrite (norm_step_skip false [] "") by by left.
      rewrite fold_norm_tl, fold_norm_normal by done.
      by rewrite app_nil_r, rev_involutive.
    + eapply Forall_impl; [exact Hn|]. intros x Hx.
      by apply normal_comp_inv in Hx as (_ & _ & _ & ?).
  - set (S := fold_left (norm_step false) (split_slash cwd) []).
    set (RR := fold_left (norm_step true) (split_slash X) []).
    assert (HRR : Forall kept RR) by by apply fold_norm_kept.
    assert (HRs : Forall (fun c => no_slash c = true) RR).
    { apply fold_norm_no_slash; [apply split_slash_no_slash|done]. }
    assert (Habsrel :
      fold_left (norm_step false) (rev RR) S =
      fold_left (norm_step false) (split_slash X) S).
    { unfold RR. by rewrite abs_after_rel. }
    rewrite (resolve_comps_rel cwd X) by done. fold S.
    unfold normalizeString. fold RR.
    destruct (is_empty (join "/" (rev RR))) eqn:Hbody.
    + apply join_empty_inv in Hbody; [|by apply Forall_rev].
      rewrite Hbody in Habsrel. cbn [fold_left] in Habsrel.
      rewrite <- Habsrel.
      destruct (endsWithSlash X);
        rewrite resolve_comps_rel by done; by fold S.
    + destruct (rev RR) as [|c r] eqn:Hrev; [done|].
      assert (Hk : Forall kept (c :: r)) by (rewrite <- Hrev; by apply Forall_rev).
      assert (Hs : Forall (fun c => no_slash c = true) (c :: r))
        by (rewrite <- Hrev; by apply Forall_rev).
      inversion Hk as [|? ? [Hc _] _]; subst.
      inversion Hs as [|? ? Hcs _]; subst.
      rewrite sapp_nil_l.
      rewrite resolve_comps_rel by by apply join_not_abs.
      fold S.
      destruct (split_slash_post (join "/" (c :: r)) (endsWithSlash X))
        as (tl & Htl & ->).
      rewrite split_slash_join by done.
      by rewrite fold_norm_tl, Habsrel.
Qed.

Lemma strip_common_spec (xs ys f t : list string) :
  strip_common xs ys = (f, t) ->
  exists c, xs = c ++ f /\ ys = c ++ t.
Proof.
  revert ys. induction xs as [|x xs IH]; intros ys H.
  - exists []. simpl in H. by destruct ys; inversion H.
  - destruct ys as [|y ys]; simpl in H.
    + exists []. by inversion H.
    + destruct (str_eqb x y) eqn:Hxy.
      * apply str_eqb_eq in Hxy as ->.
        destruct (IH _ H) as (c & -> & ->). by exists (y :: c).
      * exists []. by inversion H.
Qed.

Lemma strip_common_prefix (xs r : list string) :
  strip_common xs (xs ++ r) = ([], r).
Proof.
  induction xs as [|x xs IH]; [by destruct r|].
  simpl. by rewrite str_eqb_refl.
Qed.

Lemma join_dotdot_first (l : list string) :
  startsWith (join "/" (".." :: l)) ".." = true.
Proof.
  destruct (join_first ".." l) as [tl ->]. apply startsWith_app.
Qed.

Lemma sanitize_segment_clean (seg : string) :
  includes (sanitize_segment seg) ".." = false /\
  sforall (fun c => negb (ascii_eqb c NUL)) (sanitize_segment seg) = true.
Proof.
  unfold sanitize_segment. split; [apply remove_dotdot_clean|].
  apply remove_dotdot_sforall. unfold remove_nul. by apply sforall_sfilter.
Qed.

(** What [sanitizeFileName] does guarantee: a returned name is not empty,
    does not start with a dot, and holds no separator, no other hostile
    character and no NUL. *)
Lemma sanitizeFileName_clean (fileName r : string) :
  sanitizeFileName fileName = OK r ->
  r <> "" /\ startsWith r "." = false /\
  sforall (fun c => negb (hostile c) && negb (ascii_eqb c NUL)) r = true.
Proof.
  unfold sanitizeFileName. destruct (is_empty fileName); [done|].
  set (x := remove_nul (remove_dotdot (basename fileName))).
  assert (Hx : sforall (fun c => negb (hostile c) && negb (ascii_eqb c NUL))
                 (replace_hostile x) = true).
  { unfold replace_hostile. rewrite sforall_smap. unfold x, remove_nul.
    apply sforall_sfilter. intros c Hc.
    destruct (hostile c) eqn:Hh; [done|]. by rewrite Hh, Hc. }
  destruct (_ || _) eqn:He; [done|].
  apply orb_false_iff in He as [He _].
  destruct (startsWith (replace_hostile x) ".") eqn:Hdot;
    intros [= <-].
  - split; [done|]. split; [done|]. rewrite sapp_cons, sapp_nil_l.
    cbn [sforall]. by rewrite Hx.
  - split; [|done]. intros Hr. by rewrite Hr in He.
Qed.

(** [safeJoinPath] on the segments of the two resolved paths. *)
Lemma safeJoinPath_unfold (cwd basePath : string) (segments : list string) :
  safeJoinPath cwd basePath segments =
  let T := resolve_comps cwd
             (path_join (basePath :: map sanitize_segment segments)) in
  let rel :=
    join "/" (repeat ".." (length (strip_common (resolve_comps cwd basePath) T).1)
              ++ (strip_common (resolve_comps cwd basePath) T).2) in
  if startsWith rel ".." || isAbsolute rel then
    Err ("Resulting path would escape base directory: " +:+ basePath)
  else OK (render_abs T).
Proof.
  unfold safeJoinPath, relative, resolve.
  rewrite !resolve_comps_render by apply resolve_comps_normal.
  by destruct (strip_common _ _).
Qed.

End PathFacts.





(** ** Summary and skills *)

Module TailorFacts.
Import JS JSFacts Model CvGenerator.

Lemma includes_refl (s : string) : includes s s = true.
Proof. apply includes_spec. exists "", "". by rewrite sapp_nil_r. Qed.

Lemma append_skill_has (t skill : string) :
  includes (toLowerCase (append_skill t skill)) (toLowerCase skill) = true.
Proof.
  unfold append_skill.
  destruct (includes (toLowerCase t) (toLowerCase skill)) eqn:H; [done|].
  cbn [negb]. rewrite !toLowerCase_app.
  apply includes_app_r, includes_app_r, includes_app_l, includes_refl.
Qed.

Lemma append_skill_mono (t skill x : string) :
  includes (toLowerCase t) x = true ->
  includes (toLowerCase (append_skill t skill)) x = true.
Proof.
  intros H. unfold append_skill. destruct (negb _); [|done].
  rewrite toLowerCase_app. by apply includes_app_l.
Qed.

Lemma append_skills_mono (skills : list string) (t x : string) :
  includes (toLowerCase t) x = true ->
  includes (toLowerCase (append_skills t skills)) x = true.
Proof.
  revert t. induction skills as [|sk skills IH]; intros t H; [done|].
  apply IH. by apply append_skill_mono.
Qed.

Lemma append_skills_has (skills : list string) (t skill : string) :
  skill ∈ skills ->
  includes (toLowerCase (append_skills t skills)) (toLowerCase skill) = true.
Proof.
  revert t. induction skills as [|sk skills IH]; intros t Hin.
  - by apply elem_of_nil in Hin.
  - apply elem_of_cons in Hin as [->|Hin].
    + apply (append_skills_mono skills (append_skill t sk)), append_skill_has.
    + by apply (IH (append_skill t sk)).
Qed.


Lemma sdrop_app (p r : string) : sdrop (String.length p) (p +:+ r) = r.
Proof. induction p as [|c p IH]; [by destruct r|]. by rewrite sapp_cons. Qed.

(** [replace] changes the first occurrence and nothing else. *)
Lemma replace_first_present (s pat repl : string) :
  includes s pat = true ->
  exists p q, s = p +:+ pat +:+ q /\
              replace_first s pat repl = p +:+ repl +:+ q.
Proof.
  assert (Hhead : forall s, startsWith s pat = true ->
            exists q, s = "" +:+ pat +:+ q /\
                      repl +:+ sdrop (String.length pat) s = "" +:+ repl +:+ q).
  { intros s0 [r Hr]%startsWith_spec. exists r. split; [done|].
    by rewrite Hr, sdrop_app. }
  induction s as [|c s IH]; intros H; rewrite includes_unfold in H.
  - rewrite orb_false_r in H. simpl. rewrite H.
    destruct (Hhead _ H) as (q & Hq1 & Hq2). by exists "", q.
  - simpl. destruct (startsWith (String c s) pat) eqn:Hs.
    + destruct (Hhead _ Hs) as (q & Hq1 & Hq2). by exists "", q.
    + cbn [orb] in H. destruct (IH H) as (p & q & -> & ->).
      by exists (String c p), q.
Qed.

Lemma is_prioritized_contains (requiredSkills : list string) (skill : string) :
  is_prioritized requiredSkills skill =
  contains_requirement requiredSkills skill.
Proof.
  unfold is_prioritized, contains_requirement.
  destruct (existsb (fun req => includes _ _) requiredSkills) eqn:H;
    [apply orb_true_r|]. rewrite orb_false_r.
  apply not_true_iff_false. intros Hex.
  apply existsb_exists in Hex as (r & Hr & Heq).
  apply in_map_iff in Hr as (req & <- & Hreq).
  apply str_eqb_eq in Heq.
  assert (existsb (fun req => includes (toLowerCase skill) (toLowerCase req))
            requiredSkills = true); [|congruence].
  apply existsb_exists. exists req. split; [done|].
  rewrite Heq. apply includes_refl.
Qed.

Lemma prioritize_fold (requiredSkills userSkills pr ot : list string) :
  fold_left (prioritize_step requiredSkills) userSkills (pr, ot) =
  (pr ++ filter (fun s => contains_requirement requiredSkills s = true) userSkills,
   ot ++ filter (fun s => contains_requirement requiredSkills s <> true) userSkills).
Proof.
  revert pr ot. induction userSkills as [|s l IH]; intros pr ot.
  - by rewrite !app_nil_r.
  - cbn [fold_left]. unfold prioritize_step at 2.
    rewrite is_prioritized_contains. cbn [fst snd].
    rewrite !filter_cons.
    destruct (contains_requirement requiredSkills s) eqn:Hs.
    + rewrite IH. rewrite decide_True by done.
      rewrite decide_False by (intros H; by apply H).
      by rewrite <- List.app_assoc.
    + rewrite IH. rewrite decide_False by done.
      rewrite decide_True by done. by rewrite <- List.app_assoc.
Qed.

End TailorFacts.

(** ** The matcher *)

Module RegexFacts.
Import JS JSFacts Regex.

Lemma consumes_nil (x : state) : consumes x "" x.
Proof. unfold consumes. simpl. by rewrite Nat.add_0_r. Qed.

Lemma consumes_cons (x x1 x' : state) (a : ascii) (w : string) :
  consumes x (String a "") x1 -> consumes x1 w x' ->
  consumes x (String a w) x'.
Proof.
  intros (H1 & H2 & H3) (H4 & H5 & H6). unfold consumes.
  rewrite H1, H4, H5, H2, H6, H3. simpl. split; [done|]. split; [lia|done].
Qed.

Lemma consumes_app (x x1 x' : state) (v w : string) :
  consumes x v x1 -> consumes x1 w x' -> consumes x (v +:+ w) x'.
Proof.
  intros (H1 & H2 & H3) (H4 & H5 & H6). unfold consumes.
  rewrite H1, H4, H5, H2, H6, H3, sapp_assoc. split; [done|]. split; [|done].
  assert (Hlen : forall a b, String.length (a +:+ b) =
                             String.length a + String.length b).
  { clear. intros a b. induction a as [|c a IH]; [done|].
    rewrite sapp_cons. simpl. by rewrite IH. }
  rewrite Hlen. lia.
Qed.

Lemma m_chr (c : ascii -> bool) (k : state -> option state) (x y : state) :
  m (Chr c) k x = Some y ->
  exists a x', consumes x (String a "") x' /\ c a = true /\ k x' = Some y.
Proof.
  simpl. destruct (rest x) as [|a s'] eqn:Hr; [done|].
  destruct (c a) eqn:Hc; [|done]. intros Hk.
  eexists a, _. split; [|done]. unfold consumes. simpl.
  split; [done|]. split; [lia|done].
Qed.

Lemma star_loop_chr (c : ascii -> bool) (k : state -> option state)
    (fuel : nat) (x y : state) :
  star_loop (m (Chr c)) k fuel x = Some y ->
  exists w x', consumes x w x' /\ sforall c w = true /\ k x' = Some y.
Proof.
  revert x. induction fuel as [|f IH]; intros x H.
  - exists "", x. split; [apply consumes_nil|done].
  - cbn [star_loop] in H.
    destruct (m (Chr c) _ x) as [y'|] eqn:Hstep.
    + inversion H; subst y'.
      apply m_chr in Hstep as (a & x1 & Hcons & Hc & Hcont).
      destruct (pos x <? pos x1)%nat; [|done].
      destruct (IH _ Hcont) as (w & x' & Hw & Hs & Hk).
      exists (String a w), x'. split; [by eapply consumes_cons|].
      split; [|done]. simpl. by rewrite Hc.
    + exists "", x. split; [apply consumes_nil|done].
Qed.

Lemma m_star_chr (c : ascii -> bool) (k : state -> option state)
    (x y : state) :
  m (Star (Chr c)) k x = Some y ->
  exists w x', consumes x w x' /\ sforall c w = true /\ k x' = Some y.
Proof. apply star_loop_chr. Qed.

Lemma m_plus_chr (c : ascii -> bool) (k : state -> option state)
    (x y : state) :
  m (Plus (Chr c)) k x = Some y ->
  exists w x', consumes x w x' /\ w <> "" /\ sforall c w = true /\
               k x' = Some y.
Proof.
  unfold Plus. change (m (Seq (Chr c) (Star (Chr c))) k x)
    with (m (Chr c) (m (Star (Chr c)) k) x).
  intros (a & x1 & H1 & Hc & H)%m_chr.
  apply m_star_chr in H as (w & x' & Hw & Hs & Hk).
  exists (String a w), x'. split; [by eapply consumes_cons|].
  split; [done|]. split; [|done]. simpl. by rewrite Hc.
Qed.

Lemma m_seq (a b : re) (k : state -> option state) (x : state) :
  m (Seq a b) k x = m a (m b k) x.
Proof. reflexivity. Qed.

Lemma search_bos (r : re) (p : option ascii) (i : nat) (s : string) :
  search (Seq Bos r) p (S i) s = None.
Proof.
  revert p i. induction s as [|a s IH]; intros p i; simpl;
    unfold match_at; simpl; [done|apply IH].
Qed.

End RegexFacts.

(** ** Hiring-manager names and durations *)

Module ExtractFacts.
Import JS JSFacts Regex RegexFacts Model JobParser CvGenerator.

Lemma proper_name_two_words (name : string) :
  test proper_name name = true -> two_capitalized_words name.
Proof.
  unfold test, exec. destruct (search _ _ _ _) as [[[i whole] c]|] eqn:Hs;
    [|done]. intros _.
  change proper_name with
    (Seq Bos (Seq (Chr is_upper) (Seq (Plus (Chr is_lower))
       (Seq (Plus space) (Seq (Chr is_upper)
          (Seq (Plus (Chr is_lower)) Eos)))))) in Hs.
  assert (Hm : exists y, m (Seq (Chr is_upper) (Seq (Plus (Chr is_lower))
       (Seq (Plus space) (Seq (Chr is_upper)
          (Seq (Plus (Chr is_lower)) Eos))))) Some
          {| prev := None; pos := 0; rest := name; cap := None |} = Some y).
  { destruct name as [|a name']; simpl in Hs; unfold match_at in Hs.
    - simpl in Hs. done.
    - cbn [m] in Hs. rewrite Nat.eqb_refl in Hs.
      match type of Hs with
      | match (match ?t with _ => _ end) with _ => _ end = _ =>
          destruct t as [y|] eqn:Hy
      end.
      + by exists y.
      + by rewrite search_bos in Hs. }
  destruct Hm as [y Hm]. rewrite m_seq in Hm.
  apply m_chr in Hm as (c1 & x1 & Hc1 & Hu1 & Hm). rewrite m_seq in Hm.
  apply m_plus_chr in Hm as (w1 & x2 & Hw1 & Hn1 & Hl1 & Hm).
  rewrite m_seq in Hm.
  apply m_plus_chr in Hm as (sp & x3 & Hsp & Hnsp & Hlsp & Hm).
  rewrite m_seq in Hm.
  apply m_chr in Hm as (c2 & x4 & Hc2 & Hu2 & Hm). rewrite m_seq in Hm.
  apply m_plus_chr in Hm as (w2 & x5 & Hw2 & Hn2 & Hl2 & Hm).
  cbn [m] in Hm. destruct (is_empty (rest x5)) eqn:He; [|done].
  apply is_empty_true in He.
  destruct Hc1 as [Hr1 _], Hw1 as [Hr2 _], Hsp as [Hr3 _], Hc2 as [Hr4 _],
           Hw2 as [Hr5 _].
  simpl in Hr1. rewrite He, sapp_nil_r in Hr5.
  exists (String c1 w1), sp, (String c2 w2).
  split; [|split; [|split; [done|split; [done|]]]].
  - rewrite Hr1, Hr2, Hr3, Hr4, Hr5. by rewrite !sapp_cons, sapp_nil_l.
  - simpl. rewrite Hu1, Hl1. by destruct w1.
  - simpl. rewrite Hu2, Hl2. by destruct w2.
Qed.

Lemma first_accepted_head (ps : list re) (d : string) :
  first_accepted ps d = head (omap (fun p => accepted p d) ps).
Proof.
  induction ps as [|p ps IH]; [done|].
  change (omap (fun p => accepted p d) (p :: ps)) with
    (match accepted p d with
     | Some y => y :: omap (fun p => accepted p d) ps
     | None => omap (fun p => accepted p d) ps
     end).
  cbn [first_accepted]. unfold accepted at 1.
  destruct (exec p d) as [[whole [c|]]|]; [|by rewrite IH..].
  destruct (is_empty c); cbn [negb andb]; [by rewrite IH|].
  destruct (test proper_name (trim c)); [done|by rewrite IH].
Qed.

Lemma accepted_two_words (p : re) (d name : string) :
  accepted p d = Some name -> two_capitalized_words name.
Proof.
  unfold accepted. destruct (exec p d) as [[whole [c|]]|]; [|done..].
  destruct (_ && _) eqn:H; [|done]. intros [= <-].
  apply andb_true_iff in H as [_ H]. by apply proper_name_two_words.
Qed.

(** [2020-01] is 1 January 2020, 00:00 UTC; from UTC eastwards that
    instant lies in January 2020 of the local calendar. *)
Lemma format_jan_2020 (tz : Z) :
  (0 <= tz < 1440)%Z -> IsoDate.format tz 1577836800000 = "Jan 2020".
Proof.
  intros Htz. unfold IsoDate.format.
  assert (H : ((1577836800000 + tz * 60000) / IsoDate.msPerDay = 18262)%Z).
  { unfold IsoDate.msPerDay. symmetry.
    apply (Z.div_unique _ _ _ (tz * 60000)); lia. }
  rewrite H. reflexivity.
Qed.

End ExtractFacts.

(** ** Experience consolidation *)

Module ExperienceFacts.
Import JS JSFacts Model CvGenerator.



Section Sorting.
Context {A : Type} (cmp : A -> A -> option Z).

Lemma insert_sorted_perm (x : A) (l : list A) :
  insert_sorted cmp x l ≡ₚ x :: l.
Proof.
  induction l as [|y l IH]; [done|]. simpl.
  destruct (before cmp y x); [|done].
  rewrite IH. apply perm_swap.
Qed.

Lemma sort_perm (l : list A) : sort cmp l ≡ₚ l.
Proof.
  induction l as [|x l IH]; [done|]. unfold sort in *. simpl.
  by rewrite insert_sorted_perm, IH.
Qed.

Lemma sort_length (l : list A) : length (sort cmp l) = length l.
Proof. by rewrite sort_perm. Qed.

(** When the comparator is the difference of a key on the elements at
    hand, the result is ordered by falling key. *)
Context (key : A -> Z) (P : A -> Prop).
Hypothesis cmp_key :
  forall a b, P a -> P b -> cmp a b = Some (key b - key a)%Z.

Lemma insert_sorted_sorted (x : A) (l : list A) :
  P x -> Forall P l ->
  StronglySorted (fun a b => (key b <= key a)%Z) l ->
  StronglySorted (fun a b => (key b <= key a)%Z) (insert_sorted cmp x l).
Proof.
  intros Hx HP Hs. induction l as [|y l IH]; simpl.
  - by repeat constructor.
  - inversion HP as [|? ? Hy HPl]; subst.
    inversion Hs as [|? ? Hsl Hyl]; subst.
    unfold before. rewrite (cmp_key y x) by done.
    destruct (key x - key y <? 0)%Z eqn:Hlt.
    + apply Z.ltb_lt in Hlt. constructor; [by apply IH|].
      rewrite insert_sorted_perm. constructor; [lia|done].
    + apply Z.ltb_ge in Hlt. constructor; [done|].
      constructor; [lia|]. eapply Forall_impl; [exact Hyl|].
      intros z Hz. simpl in Hz. lia.
Qed.

Lemma sort_sorted (l : list A) :
  Forall P l ->
  StronglySorted (fun a b => (key b <= key a)%Z) (sort cmp l).
Proof.
  induction l as [|x l IH]; intros HP; [constructor|].
  inversion HP; subst. unfold sort in *. simpl.
  apply insert_sorted_sorted; [done| |by apply IH].
  change (Forall P (sort cmp l)). by rewrite sort_perm.
Qed.

End Sorting.



Section WithDate.
Context {date : DateRuntime}.




(** *** Grouping *)

Lemma lookup_group_push (k k' : string) (e : Experience)
    (gs : list (string * list Experience)) :
  lookup_group k' (group_push k e gs) =
  if str_eqb k k' then Some (default [] (lookup_group k gs) ++ [e])
  else lookup_group k' gs.
Proof.
  induction gs as [|[k0 g0] gs IH]; simpl.
  - done.
  - destruct (str_eqb k0 k) eqn:H0.
    + apply str_eqb_eq in H0 as ->. simpl.
      by destruct (str_eqb k k').
    + simpl. rewrite IH. destruct (str_eqb k0 k') eqn:H1; [|done].
      apply str_eqb_eq in H1 as ->.
      destruct (str_eqb k k') eqn:H2; [|done].
      apply str_eqb_eq in H2 as ->. by rewrite str_eqb_refl in H0.
Qed.

Lemma group_push_keys (k : string) (e : Experience)
    (gs : list (string * list Experience)) :
  (group_push k e gs).*1 =
  if lookup_group k gs is Some _ then gs.*1 else gs.*1 ++ [k].
Proof.
  induction gs as [|[k0 g0] gs IH]; [done|].
  cbn [group_push lookup_group].
  destruct (str_eqb k0 k) eqn:H0; [done|].
  rewrite !fmap_cons, IH. by destruct (lookup_group k gs).
Qed.

Lemma lookup_group_None (k : string) (gs : list (string * list Experience)) :
  lookup_group k gs = None <-> k ∉ gs.*1.
Proof.
  induction gs as [|[k0 g0] gs IH]; simpl.
  - split; [intros _; apply not_elem_of_nil|done].
  - rewrite not_elem_of_cons. destruct (str_eqb k0 k) eqn:H0.
    + apply str_eqb_eq in H0 as ->. split; [done|]. by intros [? _].
    + apply str_eqb_neq in H0. rewrite IH. split; [|by intros [_ ?]].
      intros H. split; [|done]. by intros ->.
Qed.

Lemma lookup_group_elem (k : string) (g : list Experience)
    (gs : list (string * list Experience)) :
  NoDup gs.*1 ->
  (k, g) ∈ gs <-> lookup_group k gs = Some g.
Proof.
  induction gs as [|[k0 g0] gs IH]; simpl; intros Hnd.
  - split; [by intros ?%elem_of_nil|done].
  - apply NoDup_cons in Hnd as [Hk0 Hnd]. rewrite elem_of_cons.
    destruct (str_eqb k0 k) eqn:H0.
    + apply str_eqb_eq in H0 as ->. split.
      * intros [[= ->]|Hin]; [done|]. destruct Hk0.
        apply list_elem_of_fmap. by exists (k, g).
      * intros [= ->]. by left.
    + apply str_eqb_neq in H0. rewrite <- IH by done. split.
      * intros [[= -> ->]|Hin]; [done|done].
      * intros Hin. by right.
Qed.

Lemma group_by_company_snoc (exps : list Experience) (e : Experience) :
  group_by_company (exps ++ [e]) =
  group_push (key e) e (group_by_company exps).
Proof. unfold group_by_company. by rewrite fold_left_app. Qed.

Lemma group_by_company_lookup (exps : list Experience) (k : string) :
  lookup_group k (group_by_company exps) =
  match filter (fun e => key e = k) exps with
  | [] => None
  | g => Some g
  end.
Proof.
  induction exps as [|e exps IH] using rev_ind; [done|].
  rewrite group_by_company_snoc, lookup_group_push, filter_app.
  rewrite filter_cons, filter_nil.
  destruct (str_eqb (key e) k) eqn:Hk.
  - apply str_eqb_eq in Hk. rewrite decide_True by done.
    rewrite <- Hk in IH. rewrite IH. subst k.
    destruct (filter _ exps); done.
  - apply str_eqb_neq in Hk. rewrite decide_False by done.
    by rewrite app_nil_r.
Qed.

Lemma group_by_company_NoDup (exps : list Experience) :
  NoDup (group_by_company exps).*1.
Proof.
  induction exps as [|e exps IH] using rev_ind; [constructor|].
  rewrite group_by_company_snoc, group_push_keys.
  destruct (lookup_group _ _) eqn:Hl; [done|].
  apply NoDup_app. split; [done|]. split; [|apply NoDup_singleton].
  intros x Hx ->%list_elem_of_singleton.
  by apply lookup_group_None in Hl.
Qed.

Lemma group_by_company_spec (exps : list Experience) (k : string)
    (g : list Experience) :
  (k, g) ∈ group_by_company exps <->
  g <> [] /\ g = filter (fun e => key e = k) exps.
Proof.
  rewrite lookup_group_elem by apply group_by_company_NoDup.
  rewrite group_by_company_lookup.
  destruct (filter _ exps) as [|x f]; split.
  - done.
  - by intros [? ->].
  - by intros [= <-].
  - by intros [_ ->].
Qed.

End WithDate.


End ExperienceFacts.

(** ** Rendering *)

Module RenderFacts.
Import JS JSFacts Model Path CoverLetter DocumentGenerator.

Lemma includes_trans (a b c : string) :
  includes a b = true -> includes b c = true -> includes a c = true.
Proof.
  rewrite !includes_spec. intros (p & q & ->) (p' & q' & ->).
  exists (p +:+ p'), (q' +:+ q). by rewrite !sapp_assoc.
Qed.

(** [t] is one of the pieces that a text is put together from *)
Ltac find_piece :=
  first [ apply includes_app_l; apply TailorFacts.includes_refl
        | apply includes_app_r; find_piece ].

Lemma cover_letter_holds_name (currentDate : string)
    (coverLetter : CoverLetterData) :
  includes (formatCoverLetterAsHTML currentDate coverLetter)
    (fullName (cl_personalInfo coverLetter)) = true.
Proof. unfold formatCoverLetterAsHTML. find_piece. Qed.

Lemma escape_char_no_lt (c : ascii) :
  sforall (fun a => negb (ascii_eqb a "<")) (escape_char c) = true.
Proof.
  unfold escape_char.
  destruct (ascii_eqb c dquote); [done|].
  destruct (ascii_eqb c "&"); [done|].
  destruct (ascii_eqb c "'"); [done|].
  destruct (ascii_eqb c "<") eqn:Hlt; [done|].
  destruct (ascii_eqb c ">"); [done|].
  simpl. by rewrite Hlt.
Qed.

Lemma sforall_app (p : ascii -> bool) (s t : string) :
  sforall p (s +:+ t) = sforall p s && sforall p t.
Proof.
  induction s as [|c s IH]; [done|]. rewrite sapp_cons. simpl.
  by rewrite IH, andb_assoc.
Qed.

(** [escapeHtml] leaves no [<] *)
Lemma escapeHtml_no_lt (s : string) :
  sforall (fun a => negb (ascii_eqb a "<")) (escapeHtml s) = true.
Proof.
  induction s as [|c s IH]; [done|]. simpl.
  by rewrite sforall_app, escape_char_no_lt, IH.
Qed.

(** In the CV page the name reaches the title escaped, and the body is
    what markdown-it renders with [html] switched off. *)
Lemma formatCVAsHTML_shape (render : MarkdownItOptions -> string -> string)
    (cvData : TailoredCV) (page : string) :
  formatCVAsHTML render cvData = OK page ->
  exists markdown,
    formatCVAsMarkdown cvData = OK markdown /\
    page = pageHead +:+ escapeHtml (fullName (cv_personalInfo cvData))
           +:+ pageMiddle
           +:+ render {| html := false; linkify := true; typographer := true |}
                 markdown
           +:+ pageTail.
Proof.
  unfold formatCVAsHTML. destruct (formatCVAsMarkdown cvData) as [md|e];
    [|done]. cbn [bind]. intros [= <-]. by exists md.
Qed.

Section WithLibraries.
Variable render : MarkdownItOptions -> string -> string.
Variable mdToPdf : PdfRequest -> World -> PdfOutcome.

Lemma convert_throws (markdown filePath msg : string)
    (pdfOptions : option PDFOptions) (w : World) :
  mdToPdf (pdfRequest markdown filePath pdfOptions
             (writeFile (tempCssPath w) (styleSheet w) w))
    (at_conversion markdown filePath pdfOptions w) = Throws msg ->
  convert mdToPdf markdown filePath pdfOptions w =
    (Err ("PDF generation failed: " +:+ msg),
     at_conversion markdown filePath pdfOptions w) /\
  files (at_conversion markdown filePath pdfOptions w) !! tempCssPath w
    = Some (styleSheet w).
Proof.
  intros H. unfold convert. unfold at_conversion in H. rewrite H.
  split; [done|]. unfold at_conversion. simpl. apply lookup_insert_eq.
Qed.

Lemma convert_returns (markdown filePath : string)
    (filename output : option string)
    (pdfOptions : option PDFOptions) (w : World) :
  mdToPdf (pdfRequest markdown filePath pdfOptions
             (writeFile (tempCssPath w) (styleSheet w) w))
    (at_conversion markdown filePath pdfOptions w) = Returns filename output ->
  files (convert mdToPdf markdown filePath pdfOptions w).2 !! tempCssPath w
    = None.
Proof.
  intros H. unfold convert. unfold at_conversion in H. rewrite H.
  assert (Hdel : forall w', tempCssPath w' = tempCssPath w ->
            files (unlink (tempCssPath w') w') !! tempCssPath w = None).
  { intros w' ->. simpl. apply lookup_delete_eq. }
  destruct output as [bytes|];
    repeat match goal with
           | |- context [if ?b then _ else _] => destruct b
           end; cbn [snd]; by apply Hdel.
Qed.

Lemma generateDocument_pdf (cvData : TailoredCV)
    (outputPath fileName dir baseName markdown filePath : string)
    (pdfOptions : option PDFOptions) (w w1 : World) :
  prepare outputPath fileName w = (OK (dir, baseName), w1) ->
  formatCVAsMarkdown cvData = OK markdown ->
  safeJoinPath (cwd w1) dir [baseName +:+ ".pdf"] = OK filePath ->
  generateDocument render mdToPdf cvData outputPath fileName PDF pdfOptions w
  = convert mdToPdf markdown filePath pdfOptions w1.
Proof.
  intros Hp Hm Hj. unfold generateDocument. by rewrite Hp, Hm, Hj.
Qed.

End WithLibraries.

Lemma getenv_set (w : World) (name fallback v : string) :
  env w !! name = Some v -> v <> "" -> getenv w name fallback = v.
Proof. intros H Hv. unfold getenv. rewrite H. by destruct v. Qed.

(** every style value of the environment is part of the stylesheet text
    as it stands *)
Lemma styleSheet_holds_font_size (w : World) :
  includes (styleSheet w) (getenv w "PDF_BASE_FONT_SIZE" "12px") = true.
Proof. unfold styleSheet, cssContent. find_piece. Qed.

End RenderFacts.

(** ** The inputs of tailoring *)

Module DomainFacts.
Import JS JSFacts Regex RegexFacts Model JobParser CvGenerator TailorFacts.
Import Domain.













End DomainFacts.

(** * The claims of the specification *)

Section PathGuardClaims.
Import JS JSFacts Path PathFacts.

(** C2 (as amended). [safeJoinPath] first strips NUL and [..] from every
    segment, then joins and resolves, and then checks the resolved path
    against the resolved base: a returned path always extends the segments
    of the base, and a path that does not is refused with an error.  For a
    non-empty base, [safeJoinPath(base, "../outside")] is not refused: the
    [..] is stripped and the call returns the entry [outside] directly
    under the resolved base. *)
Theorem safeJoinPath_contained (cwd basePath : string) (segments : list string) :
  let sanitized := map sanitize_segment segments in
  let target := resolve_comps cwd (path_join (basePath :: sanitized)) in
  Forall (fun seg => includes seg ".." = false /\
             sforall (fun c => negb (ascii_eqb c NUL)) seg = true) sanitized /\
  (forall p, safeJoinPath cwd basePath segments = OK p ->
     p = render_abs target /\ resolve_comps cwd basePath `prefix_of` target) /\
  (~ resolve_comps cwd basePath `prefix_of` target ->
     safeJoinPath cwd basePath segments =
     Err ("Resulting path would escape base directory: " +:+ basePath)) /\
  (basePath <> "" ->
     safeJoinPath cwd basePath ["../outside"] =
     OK (render_abs (resolve_comps cwd basePath ++ ["outside"]))).
Proof.
  intros sanitized target.
  assert (Hsplit : forall segs,
    let T := resolve_comps cwd (path_join (basePath :: map sanitize_segment segs)) in
    (forall p, safeJoinPath cwd basePath segs = OK p ->
       p = render_abs T /\ resolve_comps cwd basePath `prefix_of` T) /\
    (~ resolve_comps cwd basePath `prefix_of` T ->
       safeJoinPath cwd basePath segs =
       Err ("Resulting path would escape base directory: " +:+ basePath))).
  { intros segs T. rewrite safeJoinPath_unfold. fold T. cbv zeta.
    destruct (strip_common (resolve_comps cwd basePath) T) as [f' t'] eqn:Hsc.
    apply strip_common_spec in Hsc as (c & Hf & Ht). cbn [fst snd].
    destruct f' as [|x f'].
    - rewrite app_nil_r in Hf. subst c. split.
      + intros p Hp. split; [|by exists t'].
        destruct (_ || _); by inversion Hp.
      + intros Hn. destruct Hn. by exists t'.
    - cbn [length repeat app]. rewrite join_dotdot_first. cbn [orb].
      split; [done|]. done. }
  split; [|split; [|split]].
  - unfold sanitized. apply Forall_map, Forall_forall. intros seg _.
    apply sanitize_segment_clean.
  - apply (Hsplit segments).
  - apply (Hsplit segments).
  - intros Hbase.
    assert (HT : resolve_comps cwd (path_join [basePath; "/outside"]) =
                 resolve_comps cwd basePath ++ ["outside"]).
    { unfold path_join.
      assert (Hf : filter (fun a => negb (is_empty a) = true)
                     [basePath; "/outside"] = [basePath; "/outside"]).
      { destruct basePath; [done|]. reflexivity. }
      rewrite Hf. cbn [join].
      destruct (is_empty (basePath +:+ "/" +:+ "/outside")) eqn:He.
      { destruct basePath; [done|]. by rewrite sapp_cons in He. }
      rewrite resolve_normalize.
      2:{ intros Heq. by rewrite Heq in He. }
      unfold resolve_comps.
      assert (Habs : isAbsolute (basePath +:+ "/" +:+ "/outside") =
                     isAbsolute basePath).
      { destruct basePath; [done|]. by rewrite sapp_cons. }
      rewrite Habs. unfold normalizeString.
      destruct (isAbsolute basePath).
      - rewrite split_slash_app, fold_left_app. by cbn.
      - replace (cwd +:+ "/" +:+ basePath +:+ "/" +:+ "/outside")
          with ((cwd +:+ "/" +:+ basePath) +:+ "/" +:+ "/outside")
          by (by rewrite !sapp_assoc).
        rewrite (split_slash_app (cwd +:+ "/" +:+ basePath)), fold_left_app.
        by cbn. }
    rewrite safeJoinPath_unfold.
    change (map sanitize_segment ["../outside"]) with ["/outside"].
    cbv zeta. rewrite HT, strip_common_prefix. reflexivity.
Qed.

(** The particular case of C2 as the specification states it
    ([joinSafely(base, "../outside")] raises for every base) fails. *)
Lemma safeJoinPath_outside_not_refused :
  safeJoinPath "/home/user" "/srv/cv" ["../outside"] = OK "/srv/cv/outside" /\
  ~ (forall cwd base : string,
       exists msg, safeJoinPath cwd base ["../outside"] = Err msg).
Proof.
  split; [by vm_compute|].
  intros H. destruct (H "/home/user" "/srv/cv") as [msg Hmsg].
  by vm_compute in Hmsg.
Qed.

(** The relative base [out] under [/home/user]. *)
Lemma safeJoinPath_contained_witness :
  "out" <> "" /\
  safeJoinPath "/home/user" "out" ["../outside"] =
  OK (render_abs (resolve_comps "/home/user" "out" ++ ["outside"])).
Proof.
  split; [discriminate|].
  apply (safeJoinPath_contained "/home/user" "out" []). discriminate.
Defined.

(** C3 (failing input). [sanitizeFileName] removes [..] before it removes
    NUL bytes, so a NUL between two dots leaves a [..] in the name it
    returns. *)
Theorem sanitizeFileName_dotdot_after_nul :
  sanitizeFileName (String "." (String NUL ".")) = OK "_.." /\
  includes "_.." ".." = true /\
  ~ (forall fileName name, sanitizeFileName fileName = OK name ->
       includes name ".." = false).
Proof.
  split; [reflexivity|]. split; [reflexivity|]. intros H.
  by specialize (H (String "." (String NUL ".")) "_.." eq_refl).
Qed.

End PathGuardClaims.

Section TailorClaims.
Import JS JSFacts Regex Model JobParser CvGenerator TailorFacts Examples.
Import ExperienceFacts Domain DomainFacts Samples.







(** C7 (as amended). Duration formatting parses both dates with the Date
    of the runtime and renders them by month and year.  A start that is not
    a date gives the marker [Invalid start date]; an end that is missing,
    blank, [present] or not a date gives [<start> - Present]; otherwise the
    result is [<start> - <end>].  The separator is a hyphen between two
    spaces.  For the start [2020-01] and no end the result is
    [Jan 2020 - Present] when local time is UTC or ahead of it, and the
    start [not-a-date] gives the marker. *)
Theorem formatDuration_cases :
  (forall (date : DateRuntime) (startDate : string) (endDate : option string),
     (Date_parse startDate = None ->
      formatDuration startDate endDate = "Invalid start date") /\
     (forall start, Date_parse startDate = Some start ->
        (end_open endDate ->
         formatDuration startDate endDate = monthYear start +:+ " - Present")
        /\
        (forall e end_, endDate = Some e -> trim e <> "" ->
           toLowerCase e <> "present" -> Date_parse e = Some end_ ->
           formatDuration startDate endDate =
           monthYear start +:+ " - " +:+ monthYear end_))) /\
  (forall tz, (0 <= tz < 1440)%Z ->
     @formatDuration (IsoDate.runtime tz) "2020-01" None
     = "Jan 2020 - Present") /\
  (forall tz,
     @formatDuration (IsoDate.runtime tz) "not-a-date" None
     = "Invalid start date").
Proof.
  split; [|split].
  - intros date startDate endDate. unfold formatDuration. split.
    + by intros ->.
    + intros start ->. split.
      * intros [->|(e & -> & He)]; [done|].
        destruct (is_empty e) eqn:He0; [done|]. cbn [orb].
        destruct He as [He|[He|He]].
        -- by rewrite He.
        -- rewrite He. by rewrite orb_true_r.
        -- rewrite He. by destruct (_ || _).
      * intros e end_ -> Ht Hp He.
        assert (is_empty e = false) as ->.
        { destruct e; [|done]. by destruct Ht. }
        assert (is_empty (trim e) = false) as ->.
        { apply not_true_iff_false. by rewrite is_empty_true. }
        apply str_eqb_neq in Hp. rewrite Hp. by rewrite He.
  - intros tz Htz. unfold formatDuration.
    change (IsoDate.format tz 1577836800000 +:+ " - Present"
            = "Jan 2020 - Present").
    by rewrite ExtractFacts.format_jan_2020.
  - intros tz. reflexivity.
Qed.

(** C7 as the specification states it fails: the result is written with a
    hyphen, not with a dash.  West of UTC the same start falls into the
    month before. *)
Lemma formatDuration_hyphen :
  @formatDuration (IsoDate.runtime 0) "2020-01" None = "Jan 2020 - Present" /\
  @formatDuration (IsoDate.runtime 0) "2020-01" None <> "Jan 2020 – Present" /\
  @formatDuration (IsoDate.runtime (-300)) "2020-01" None
  = "Dec 2019 - Present".
Proof. split; [by vm_compute|]. split; [by vm_compute|by vm_compute]. Qed.

(** One hour east of UTC. *)
Lemma formatDuration_cases_witness :
  (0 <= 60 < 1440)%Z /\
  @formatDuration (IsoDate.runtime 60) "2020-01" None = "Jan 2020 - Present".
Proof.
  split; [lia|].
  destruct formatDuration_cases as (_ & H & _). apply H. lia.
Defined.

(** C9 (as amended). Hiring-manager extraction tries the six phrase
    patterns in order on the job description only.  The result is the
    candidate of the first pattern whose candidate is accepted: a pattern
    that matches with a rejected candidate is passed over and the later
    patterns are still tried.  An accepted name is exactly two capitalized
    words.  [Contact John Smith for details] gives [John Smith], and
    [Contact JOHN for details] gives no name. *)
Theorem extractHiringManagerName_first_accepted :
  (forall d, extractHiringManagerName d =
             head (omap (fun p => accepted p d) patterns)) /\
  (forall d name, extractHiringManagerName d = Some name ->
                  two_capitalized_words name) /\
  (forall jr, hiringManagerName (parseJobRequirements jr) =
              extractHiringManagerName (jobDescription jr)) /\
  extractHiringManagerName "Contact John Smith for details"
  = Some "John Smith" /\
  extractHiringManagerName "Contact JOHN for details" = None.
Proof.
  split; [|split; [|split; [|split]]].
  - intros d. apply ExtractFacts.first_accepted_head.
  - intros d name. unfold extractHiringManagerName.
    rewrite ExtractFacts.first_accepted_head.
    generalize patterns. intros ps. induction ps as [|p ps IH]; [done|].
    change (omap (fun p => accepted p d) (p :: ps)) with
      (match accepted p d with
       | Some y => y :: omap (fun p => accepted p d) ps
       | None => omap (fun p => accepted p d) ps
       end).
    destruct (accepted p d) as [y|] eqn:Hp; [|done].
    intros [= <-]. by eapply ExtractFacts.accepted_two_words.
  - done.
  - by vm_compute.
  - by vm_compute.
Qed.

(** C9 as the specification states it, with the first pattern that matches
    deciding, fails: the first pattern matches [Contact our team], its
    candidate [our team] is rejected, and the third pattern still yields
    the name. *)
Lemma extractHiringManagerName_falls_through :
  Regex.exec (seq [str_i "contact"; Plus space; Group two_words_i])
    "Contact our team. Hiring manager: John Smith"
  = Some ("Contact our team", Some "our team") /\
  extractHiringManagerName "Contact our team. Hiring manager: John Smith"
  = Some "John Smith" /\
  first_match_wins patterns "Contact our team. Hiring manager: John Smith"
  = None /\
  ~ (forall d, extractHiringManagerName d = first_match_wins patterns d).
Proof.
  split; [by vm_compute|]. split; [by vm_compute|]. split; [by vm_compute|].
  intros H.
  specialize (H "Contact our team. Hiring manager: John Smith").
  by vm_compute in H.
Qed.

(** The name of the first example is two capitalized words. *)
Lemma extractHiringManagerName_first_accepted_witness :
  extractHiringManagerName "Contact John Smith for details"
  = Some "John Smith" /\
  two_capitalized_words "John Smith".
Proof.
  split; [reflexivity|].
  destruct extractHiringManagerName_first_accepted as (_ & H & _).
  apply (H "Contact John Smith for details"). reflexivity.
Defined.




End TailorClaims.

Section RenderClaims.
Import JS JSFacts Model Path CoverLetter DocumentGenerator RenderFacts Examples.

(** C1 (failing input). The cover-letter page embeds the name as it is:
    whatever the name contains, the page contains.  For a profile named
    [<script>alert(1)</script>] the page holds that element in its title
    and in its heading. *)
Theorem formatCoverLetterAsHTML_embeds_markup :
  (forall currentDate coverLetter marker,
     includes (fullName (cl_personalInfo coverLetter)) marker = true ->
     includes (formatCoverLetterAsHTML currentDate coverLetter) marker = true)
  /\
  includes (formatCoverLetterAsHTML "January 1, 2025" script_letter)
    "<h1><script>alert(1)</script></h1>" = true.
Proof.
  split; [|by vm_compute].
  intros currentDate coverLetter marker H.
  eapply includes_trans; [apply cover_letter_holds_name|exact H].
Qed.

(** The opening tag of the name is in the page. *)
Lemma formatCoverLetterAsHTML_embeds_markup_witness :
  includes (fullName (cl_personalInfo script_letter)) "<script>" = true /\
  includes (formatCoverLetterAsHTML "January 1, 2025" script_letter)
    "<script>" = true.
Proof.
  split; [reflexivity|].
  apply (proj1 formatCoverLetterAsHTML_embeds_markup). reflexivity.
Defined.

(** C4 (failing input). The temporary stylesheet is written to
    [cv-style-<Date.now()>.css] in the temporary directory, a name that the
    clock determines: two requests in the same millisecond write the same
    file.  When the conversion returns, the file is removed; when the
    conversion throws, the error is passed on and the file is still
    there. *)
Theorem temporary_stylesheet_left_behind :
  (forall w, tempCssPath w =
     path_join [tmpdir w; "cv-style-" +:+ pretty (now w) +:+ ".css"]) /\
  (forall w w', tmpdir w = tmpdir w' -> now w = now w' ->
     tempCssPath w = tempCssPath w') /\
  (forall render mdToPdf cvData outputPath fileName dir baseName markdown
          filePath pdfOptions w w1,
     prepare outputPath fileName w = (OK (dir, baseName), w1) ->
     formatCVAsMarkdown cvData = OK markdown ->
     safeJoinPath (cwd w1) dir [baseName +:+ ".pdf"] = OK filePath ->
     let run := generateDocument render mdToPdf cvData outputPath fileName
                  PDF pdfOptions w in
     let outcome := mdToPdf (pdfRequest markdown filePath pdfOptions
                               (writeFile (tempCssPath w1) (styleSheet w1) w1))
                      (at_conversion markdown filePath pdfOptions w1) in
     (forall filename output, outcome = Returns filename output ->
        files run.2 !! tempCssPath w1 = None) /\
     (forall msg, outcome = Throws msg ->
        run.1 = Err ("PDF generation failed: " +:+ msg) /\
        files run.2 !! tempCssPath w1 = Some (styleSheet w1))) /\
  (let run := generateDocument echo_render failing_converter plain_cv
                "out" "cv" PDF None hostile_world in
   run.1 = Err "PDF generation failed: Failed to launch the browser process"
   /\ is_Some (files run.2 !! "/tmp/cv-style-1700000000000.css")).
Proof.
  split; [done|]. split.
  { intros w w' Ht Hn. unfold tempCssPath. by rewrite Ht, Hn. }
  split.
  - intros render mdToPdf cvData outputPath fileName dir baseName markdown
      filePath pdfOptions w w1 Hp Hm Hj run outcome.
    unfold run. rewrite (generateDocument_pdf _ _ _ _ _ _ _ _ _ _ _ _ Hp Hm Hj).
    split.
    + intros filename output Ho. by eapply convert_returns.
    + intros msg Ho. destruct (convert_throws mdToPdf _ _ _ _ _ Ho) as [-> H].
      done.
  - cbv zeta. split; [by vm_compute|]. eexists. by vm_compute.
Qed.

(** A conversion that throws, and the stylesheet that it leaves. *)
Lemma temporary_stylesheet_left_behind_witness :
  let run := generateDocument echo_render failing_converter plain_cv
               "out" "cv" PDF None hostile_world in
  run.1 = Err "PDF generation failed: Failed to launch the browser process" /\
  files run.2 !! "/tmp/cv-style-1700000000000.css"
  = Some (styleSheet hostile_world).
Proof.
  destruct temporary_stylesheet_left_behind as (_ & _ & H & _).
  assert (Hp : prepare "out" "cv" hostile_world =
               (OK ("/home/user/out", "cv"), (prepare "out" "cv" hostile_world).2))
    by (by vm_compute).
  assert (Hm : formatCVAsMarkdown plain_cv =
               OK (match formatCVAsMarkdown plain_cv with
                   | OK m => m | Err _ => "" end))
    by (by vm_compute).
  assert (Hj : safeJoinPath (cwd (prepare "out" "cv" hostile_world).2)
                 "/home/user/out" ["cv" +:+ ".pdf"] = OK "/home/user/out/cv.pdf")
    by (by vm_compute).
  destruct (H echo_render failing_converter plain_cv "out" "cv" _ _ _ _ None
              hostile_world _ Hp Hm Hj) as [_ Ht].
  exact (Ht "Failed to launch the browser process" eq_refl).
Defined.

(** C5 (failing input). The style values are taken from the environment
    and from the options as they are.  Whatever [PDF_BASE_FONT_SIZE] holds
    is part of the stylesheet text, and whatever page size the options name
    is the format the converter is called with.  A font size that closes
    the rule and a page size that is not on the list, both refused by the
    whitelist of the configuration schema, reach the stylesheet and the
    converter. *)
Theorem style_values_reach_stylesheet :
  (forall w v, env w !! "PDF_BASE_FONT_SIZE" = Some v -> v <> "" ->
     includes (styleSheet w) v = true) /\
  (forall markdown filePath o p w, pageSize o = Some p -> p <> "" ->
     pr_format (pdfRequest markdown filePath (Some o) w) = p) /\
  whitelisted_font_size hostile_font_size = false /\
  valid_page_size "Poster" = false /\
  (let run := generateDocument echo_render working_converter plain_cv
                "out" "cv" PDF (Some poster) hostile_world in
   run.1 = OK "/home/user/out/cv.pdf" /\
   map pr_format (conversions run.2) = ["Poster"] /\
   includes (styleSheet hostile_world)
     "font-size: 12px; } body { display: none;" = true).
Proof.
  split; [|split; [|split; [|split]]].
  - intros w v Hv Hne.
    rewrite <- (getenv_set w "PDF_BASE_FONT_SIZE" "12px" v Hv Hne).
    apply styleSheet_holds_font_size.
  - intros markdown filePath o p w Hp Hne. cbn. rewrite Hp. cbn.
    by destruct p.
  - by vm_compute.
  - by vm_compute.
  - split; [by vm_compute|]. split; by vm_compute.
Qed.

(** The font size of the environment, in the stylesheet. *)
Lemma style_values_reach_stylesheet_witness :
  env hostile_world !! "PDF_BASE_FONT_SIZE" = Some hostile_font_size /\
  hostile_font_size <> "" /\
  includes (styleSheet hostile_world) hostile_font_size = true.
Proof.
  assert (H1 : env hostile_world !! "PDF_BASE_FONT_SIZE"
               = Some hostile_font_size) by reflexivity.
  assert (H2 : hostile_font_size <> "") by discriminate.
  split; [exact H1|]. split; [exact H2|].
  exact (proj1 style_values_reach_stylesheet hostile_world _ H1 H2).
Defined.

End RenderClaims.

(** * Further properties of the code *)

(** ** PathGuard: what the guards of path-utils.ts let through *)

Module PathGuardFacts.
Import JS JSFacts Path PathFacts.

Lemma remove_dotdot_id (s : string) :
  includes s ".." = false -> remove_dotdot s = s.
Proof.
  induction s as [|c r IH]; [done|]. intros H.
  rewrite includes_unfold in H. apply orb_false_iff in H as [Hs Hr].
  destruct (decide (c = "."%char)) as [->|Hc].
  - rewrite remove_dotdot_dot. destruct r as [|d r']; [done|].
    destruct (decide (d = "."%char)) as [->|Hd]; [done|].
    destruct d as [[] [] [] [] [] [] [] []]; try (by rewrite (IH Hr)).
    done.
  - rewrite remove_dotdot_head by done. by rewrite IH.
Qed.

Lemma sfilter_id (p : ascii -> bool) (s : string) :
  sforall p s = true -> sfilter p s = s.
Proof.
  induction s as [|c r IH]; [done|]. cbn. intros H.
  apply andb_true_iff in H as [-> Hr]. by rewrite IH.
Qed.

Lemma smap_id (f : ascii -> ascii) (p : ascii -> bool) (s : string) :
  (forall c, p c = true -> f c = c) -> sforall p s = true -> smap f s = s.
Proof.
  intros Hf. induction s as [|c r IH]; [done|]. cbn. intros H.
  apply andb_true_iff in H as [Hc Hr]. by rewrite Hf, IH.
Qed.

Lemma basename_plain (s : string) :
  s <> "" -> no_slash s = true -> basename s = s.
Proof.
  intros Hs Hn. unfold basename. rewrite split_slash_one by done.
  destruct s; [done|]. reflexivity.
Qed.

Lemma trim_nonempty (s : string) : trim s <> "" -> s <> "".
Proof. intros H ->. by apply H. Qed.

End PathGuardFacts.

Section PathGuardExtras.
Import JS JSFacts Path PathFacts PathGuardFacts Domain.

(** X1. Whatever the input, a name that [sanitizeFileName] returns is not
    empty, does not start with a dot, holds no path separator, none of
    the characters that the code replaces by an underscore (angle
    brackets, colon, double quote, bar, question mark, star, backslash)
    and no NUL; the empty string is refused. *)
Theorem sanitizeFileName_result (fileName r : string) :
  sanitizeFileName fileName = OK r ->
  fileName <> "" /\ r <> "" /\ startsWith r "." = false /\
  no_slash r = true /\
  sforall (fun c => negb (hostile c)) r = true /\
  sforall (fun c => negb (ascii_eqb c NUL)) r = true.
Proof.
  intros H. pose proof (sanitizeFileName_clean _ _ H) as (Hr & Hdot & Hall).
  split.
  { intros ->. by cbn in H. }
  split; [done|]. split; [done|]. split; [|split].
  - eapply sforall_impl; [|exact Hall]. intros c Hc.
    apply andb_true_iff in Hc as [Hh _]. unfold hostile in Hh.
    destruct (ascii_eqb c "/") eqn:Hsl; [|done].
    apply ascii_eqb_eq in Hsl as ->. done.
  - eapply sforall_impl; [|exact Hall]. intros c Hc.
    by apply andb_true_iff in Hc as [Hh _].
  - eapply sforall_impl; [|exact Hall]. intros c Hc.
    by apply andb_true_iff in Hc as [_ Hn].
Qed.

Lemma sanitizeFileName_result_witness :
  sanitizeFileName "../../etc/pass:wd" = OK "pass_wd" /\
  "../../etc/pass:wd" <> "" /\ "pass_wd" <> "" /\
  startsWith "pass_wd" "." = false /\
  no_slash "pass_wd" = true /\
  sforall (fun c => negb (hostile c)) "pass_wd" = true /\
  sforall (fun c => negb (ascii_eqb c NUL)) "pass_wd" = true.
Proof.
  split; [reflexivity|].
  apply (sanitizeFileName_result "../../etc/pass:wd" "pass_wd"). reflexivity.
Defined.

(** X2. [sanitizeFileName] changes nothing in an ASCII name that is
    already safe: a name of ASCII characters without separator, hostile
    character, NUL and [..], that is not blank and does not start with a
    dot, is returned as it is.  (Outside ASCII a name can be blank for
    [trim] without being so here, as a name of no-break spaces is.) *)
Theorem sanitizeFileName_keeps_safe_name (fileName : string) :
  ascii_text fileName = true ->
  sforall (fun c => negb (hostile c) && negb (ascii_eqb c NUL)) fileName = true ->
  includes fileName ".." = false ->
  trim fileName <> "" ->
  startsWith fileName "." = false ->
  sanitizeFileName fileName = OK fileName.
Proof.
  intros _ Hall Hdd Htrim Hdot.
  pose proof (trim_nonempty _ Htrim) as Hne.
  assert (Hslash : no_slash fileName = true).
  { eapply sforall_impl; [|exact Hall]. intros c Hc.
    apply andb_true_iff in Hc as [Hh _]. unfold hostile in Hh.
    destruct (ascii_eqb c "/") eqn:Hsl; [|done].
    apply ascii_eqb_eq in Hsl as ->. done. }
  unfold sanitizeFileName.
  destruct (is_empty fileName) eqn:He; [by apply is_empty_true in He|].
  rewrite basename_plain, remove_dotdot_id by done.
  unfold remove_nul. rewrite sfilter_id.
  2:{ eapply sforall_impl; [|exact Hall]. intros c Hc.
      by apply andb_true_iff in Hc as [_ Hn]. }
  unfold replace_hostile.
  rewrite (smap_id _ (fun c => negb (hostile c))).
  2:{ intros c Hc. by destruct (hostile c). }
  2:{ eapply sforall_impl; [|exact Hall]. intros c Hc.
      by apply andb_true_iff in Hc as [Hh _]. }
  rewrite He, Hdot. cbn [orb].
  destruct (is_empty (trim fileName)) eqn:Ht; [|done].
  by apply is_empty_true in Ht.
Qed.

Lemma sanitizeFileName_keeps_safe_name_witness :
  sanitizeFileName "Ada Lovelace CV.pdf" = OK "Ada Lovelace CV.pdf".
Proof.
  apply (sanitizeFileName_keeps_safe_name "Ada Lovelace CV.pdf");
    [reflexivity | reflexivity | reflexivity | discriminate | reflexivity].
Defined.

End PathGuardExtras.

Module JoinFacts.
Import JS JSFacts Path PathFacts.

Lemma startsWith_cons (a b : ascii) (s t : string) :
  startsWith (String a s) (String b t) = ascii_eqb a b && startsWith s t.
Proof. reflexivity. Qed.

(** A segment other than [..] is dropped or pushed, whatever the stack. *)
Lemma fold_norm_no_dotdot b (cs acc : list string) :
  Forall (fun c => c <> "..") cs ->
  fold_left (norm_step b) cs acc = fold_left (norm_step b) cs [] ++ acc.
Proof.
  revert acc. induction cs as [|c cs IH]; intros acc H; [done|].
  inversion H as [|? ? Hc Hcs]; subst. cbn [fold_left].
  destruct (norm_step_cases c) as [Hskip | [Hdd | (H1 & H2 & H3)]].
  - rewrite !norm_step_skip by done. by apply IH.
  - done.
  - rewrite !norm_step_push by done.
    rewrite (IH [c]), (IH (c :: acc)) by done. by rewrite <- app_assoc.
Qed.

Lemma norm_step_Forall (P : string -> Prop) b (acc : list string) (c : string) :
  P c -> Forall P acc -> Forall P (norm_step b acc c).
Proof.
  intros Hc Hacc.
  destruct (norm_step_cases c) as [Hskip | [-> | (H1 & H2 & H3)]].
  - by rewrite norm_step_skip.
  - unfold norm_step. cbn [str_eqb String.eqb Ascii.eqb Bool.eqb orb].
    destruct acc as [|top rest].
    + destruct b; by repeat constructor.
    + inversion Hacc; subst.
      destruct (str_eqb top ".."); destruct b; by repeat constructor.
  - rewrite norm_step_push by done. by constructor.
Qed.

Lemma fold_norm_Forall (P : string -> Prop) b (cs acc : list string) :
  Forall P cs -> Forall P acc -> Forall P (fold_left (norm_step b) cs acc).
Proof.
  revert acc. induction cs as [|c cs IH]; intros acc Hcs Hacc; [done|].
  inversion Hcs; subst. cbn [fold_left]. apply IH; [done|].
  by apply norm_step_Forall.
Qed.

Lemma split_slash_head_dot (r h : string) (t : list string) :
  split_slash r = h :: t -> startsWith h "." = startsWith r ".".
Proof.
  destruct r as [|a r']; cbn [split_slash].
  - by intros [= <- <-].
  - destruct (ascii_eqb a "/") eqn:Ha.
    + intros [= <- <-]. apply ascii_eqb_eq in Ha as ->. reflexivity.
    + destruct (split_slash r') as [|h' t']; intros [= <- <-]; reflexivity.
Qed.

Lemma split_slash_no_dotdot (s : string) :
  includes s ".." = false ->
  Forall (fun c => includes c ".." = false) (split_slash s).
Proof.
  induction s as [|a r IH]; intros H.
  - by repeat constructor.
  - rewrite includes_unfold in H. apply orb_false_iff in H as [Hs Hr].
    specialize (IH Hr). cbn [split_slash].
    destruct (ascii_eqb a "/") eqn:Ha; [by constructor|].
    destruct (split_slash r) as [|h t] eqn:Hsp.
    + constructor; [|done]. rewrite includes_unfold.
      rewrite startsWith_cons. cbn. by rewrite andb_false_r.
    + inversion IH; subst. constructor; [|done].
      rewrite includes_unfold. apply orb_false_iff. split; [|done].
      rewrite startsWith_cons in *.
      by rewrite (split_slash_head_dot _ _ _ Hsp).
Qed.

Lemma flat_split_no_dotdot (xs : list string) :
  Forall (fun s => includes s ".." = false) xs ->
  Forall (fun c => includes c ".." = false) (flat_map split_slash xs).
Proof.
  induction 1 as [|x xs Hx _ IH]; [done|]. cbn [flat_map].
  apply Forall_app. split; [by apply split_slash_no_dotdot|done].
Qed.

Lemma split_slash_join_flat (x : string) (xs : list string) :
  split_slash (join "/" (x :: xs)) = flat_map split_slash (x :: xs).
Proof.
  revert x. induction xs as [|y r IH]; intros x.
  - cbn [join flat_map]. by rewrite app_nil_r.
  - rewrite join_cons, split_slash_app, IH. reflexivity.
Qed.

(** Empty arguments, which [path.join] leaves out, would be dropped by
    the normalization anyway. *)
Lemma fold_norm_drop_empty b (xs : list string) (acc : list string) :
  fold_left (norm_step b)
    (flat_map split_slash (filter (fun a => negb (is_empty a) = true) xs)) acc
  = fold_left (norm_step b) (flat_map split_slash xs) acc.
Proof.
  revert acc. induction xs as [|x xs IH]; intros acc; [done|].
  destruct x as [|a x'].
  - rewrite filter_cons_False by (cbn; done).
    cbn [flat_map split_slash app fold_left].
    rewrite norm_step_skip by by left. apply IH.
  - rewrite filter_cons_True by done.
    cbn [flat_map]. rewrite !fold_left_app. apply IH.
Qed.

Lemma resolve_comps_join (cwd base : string) (F : list string) :
  base <> "" ->
  Forall (fun c => c <> "..") (flat_map split_slash F) ->
  resolve_comps cwd (join "/" (base :: F)) =
  resolve_comps cwd base ++ normalizeString false (flat_map split_slash F).
Proof.
  intros Hb HF. destruct F as [|y r].
  - cbn [join flat_map].
    change (normalizeString false []) with (@nil string).
    by rewrite app_nil_r.
  - rewrite join_cons. unfold resolve_comps.
    assert (Habs : isAbsolute (base +:+ "/" +:+ join "/" (y :: r)) =
                   isAbsolute base).
    { destruct base; [done|]. by rewrite sapp_cons. }
    rewrite Habs. unfold normalizeString.
    rewrite <- split_slash_join_flat in HF |- *.
    destruct (isAbsolute base).
    + rewrite split_slash_app, fold_left_app.
      rewrite fold_norm_no_dotdot by done. by rewrite rev_app_distr.
    + replace (cwd +:+ "/" +:+ base +:+ "/" +:+ join "/" (y :: r))
        with ((cwd +:+ "/" +:+ base) +:+ "/" +:+ join "/" (y :: r))
        by (by rewrite !sapp_assoc).
      rewrite (split_slash_app (cwd +:+ "/" +:+ base)), fold_left_app.
      rewrite fold_norm_no_dotdot by done. by rewrite rev_app_distr.
Qed.

Lemma no_dotdot_neq (c : string) : includes c ".." = false -> c <> "..".
Proof. intros H ->. done. Qed.

(** A relative path made of proper segments without [..] neither starts
    with [..] nor is absolute. *)
Lemma relative_inside (N : list string) :
  Forall (fun c => normal_comp c = true) N ->
  Forall (fun c => includes c ".." = false) N ->
  startsWith (join "/" N) ".." || isAbsolute (join "/" N) = false.
Proof.
  intros Hn Hd. destruct N as [|c r]; [done|].
  inversion Hn as [|? ? Hc _]; subst. inversion Hd as [|? ? Hcd _]; subst.
  apply normal_comp_inv in Hc as (Hc1 & Hc2 & _ & Hsl).
  destruct (join_first c r) as [tl ->].
  destruct c as [|a c']; [done|]. rewrite sapp_cons.
  cbn [no_slash sforall] in Hsl. apply andb_true_iff in Hsl as [Ha _].
  apply orb_false_iff. split.
  - rewrite startsWith_cons.
    destruct (ascii_eqb a ".") eqn:Hdot; [|done]. cbn [andb].
    apply ascii_eqb_eq in Hdot as ->.
    destruct c' as [|b c'']; [done|]. rewrite sapp_cons, startsWith_cons.
    rewrite includes_unfold in Hcd. apply orb_false_iff in Hcd as [Hcd _].
    rewrite !startsWith_cons in Hcd. cbn [andb] in Hcd.
    destruct (ascii_eqb b "."); [|done]. by destruct c''.
  - unfold isAbsolute. rewrite startsWith_cons.
    by destruct (ascii_eqb a "/").
Qed.

End JoinFacts.

Section JoinExtras.
Import JS JSFacts Path PathFacts JoinFacts.

(** The join of a non-empty base with sanitized segments stays under the
    base. *)
Lemma safeJoinPath_inside (cwd basePath : string) (segments : list string) :
  basePath <> "" ->
  safeJoinPath cwd basePath segments =
  OK (render_abs
        (resolve_comps cwd basePath ++
         normalizeString false
           (flat_map split_slash (map sanitize_segment segments)))).
Proof.
  intros Hb. set (sanitized := map sanitize_segment segments).
  set (F := filter (fun a => negb (is_empty a) = true) sanitized).
  assert (Hsan : Forall (fun s => includes s ".." = false) sanitized).
  { apply Forall_map, Forall_forall. intros seg _.
    apply sanitize_segment_clean. }
  assert (HF : Forall (fun s => includes s ".." = false) F).
  { apply Forall_forall. intros x Hx.
    apply list_elem_of_filter in Hx as [_ Hx].
    by eapply Forall_forall in Hsan. }
  assert (Hcomps : Forall (fun c => includes c ".." = false)
                     (flat_map split_slash sanitized))
    by by apply flat_split_no_dotdot.
  assert (HN : normalizeString false (flat_map split_slash F) =
               normalizeString false (flat_map split_slash sanitized)).
  { unfold normalizeString, F. by rewrite fold_norm_drop_empty. }
  assert (HT : resolve_comps cwd (path_join (basePath :: sanitized)) =
               resolve_comps cwd basePath ++
               normalizeString false (flat_map split_slash sanitized)).
  { unfold path_join. rewrite filter_cons_True by by destruct basePath.
    fold F. rewrite join_nonempty by done.
    rewrite resolve_normalize.
    2:{ intros Heq. pose proof (join_nonempty basePath F Hb) as Hj.
        by rewrite Heq in Hj. }
    rewrite resolve_comps_join, HN; [done|done|].
    eapply Forall_impl; [by apply flat_split_no_dotdot|].
    intros c. apply no_dotdot_neq. }
  rewrite safeJoinPath_unfold. fold sanitized. cbv zeta.
  rewrite HT, strip_common_prefix. cbn [fst snd length repeat app].
  rewrite relative_inside; [done| |].
  - unfold normalizeString. apply Forall_rev.
    apply fold_norm_false_normal; [|done].
    apply Forall_flat_map, Forall_forall. intros s _.
    apply split_slash_no_slash.
  - unfold normalizeString. apply Forall_rev.
    by apply fold_norm_Forall.
Qed.

(** X3. With a base that is not the empty string [safeJoinPath] never
    raises: once NUL and [..] are stripped from the segments nothing is
    left that could climb, so the containment check cannot fire.  The
    path returned is the resolved base followed by the segments' proper
    components (empty ones and [.] dropped).  The check does fire for the
    empty base, which [path.join] leaves out: an absolute segment then
    decides where the path goes. *)
Theorem safeJoinPath_never_refuses (cwd basePath : string)
    (segments : list string) :
  (basePath <> "" ->
   safeJoinPath cwd basePath segments =
   OK (render_abs
         (resolve_comps cwd basePath ++
          normalizeString false
            (flat_map split_slash (map sanitize_segment segments))))) /\
  safeJoinPath "/home/user" "" ["/etc"] =
    Err "Resulting path would escape base directory: ".
Proof.
  split.
  - apply safeJoinPath_inside.
  - reflexivity.
Qed.

Lemma safeJoinPath_never_refuses_witness :
  "/srv/cv" <> "" /\
  safeJoinPath "/home/user" "/srv/cv" ["../../etc"; "cv.md"] =
  OK "/srv/cv/etc/cv.md".
Proof.
  split; [discriminate|].
  apply (safeJoinPath_never_refuses "/home/user" "/srv/cv"
           ["../../etc"; "cv.md"]).
  discriminate.
Defined.

End JoinExtras.

Module ValidateFacts.
Import JS JSFacts Path PathFacts JoinFacts.

(** [validateAndNormalizePath] with an allowed base, on the segments of
    the two resolved paths. *)
Lemma validate_unfold (cwd outputPath allowed : string) :
  outputPath <> "" -> allowed <> "" ->
  validateAndNormalizePath cwd outputPath (Some allowed) =
  let T := resolve_comps cwd (remove_nul outputPath) in
  let sc := strip_common (resolve_comps cwd allowed) T in
  let rel := join "/" (repeat ".." (length sc.1) ++ sc.2) in
  if startsWith rel ".." || isAbsolute rel then
    Err ("Path " +:+ outputPath +:+ " is outside allowed directory "
         +:+ allowed)
  else OK (render_abs T).
Proof.
  intros Ho Ha. unfold validateAndNormalizePath, relative, resolve.
  destruct (is_empty outputPath) eqn:Heo; [by apply is_empty_true in Heo|].
  destruct (is_empty allowed) eqn:Hea; [by apply is_empty_true in Hea|].
  rewrite !resolve_comps_render by apply resolve_comps_normal.
  cbv zeta. by destruct (strip_common _ _).
Qed.

Lemma sforall_sapp (p : ascii -> bool) (s t : string) :
  sforall p (s +:+ t) = sforall p s && sforall p t.
Proof.
  induction s as [|c r IH]; [by rewrite sapp_nil_l|].
  rewrite sapp_cons. cbn [sforall]. by rewrite IH, andb_assoc.
Qed.

Lemma last_prefixes {A} (l : list A) :
  l ∈ DocumentGenerator.prefixes l.
Proof.
  induction l as [|x r IH]; cbn [DocumentGenerator.prefixes].
  - apply elem_of_cons. by left.
  - apply elem_of_cons. right. apply list_elem_of_fmap. by exists r.
Qed.

End ValidateFacts.

Section ValidateExtras.
Import JS JSFacts Path PathFacts JoinFacts ValidateFacts PathGuardFacts.
Import DocumentGenerator.

(** X4. With an allowed base, [validateAndNormalizePath] returns only
    paths under it: the segments of the resolved base are a prefix of the
    segments of the returned path, which is the resolved input without its
    NUL bytes; an input whose segments leave the base is refused. *)
Theorem validateAndNormalizePath_contained (cwd outputPath allowed : string) :
  outputPath <> "" -> allowed <> "" ->
  let target := resolve_comps cwd (remove_nul outputPath) in
  (forall p, validateAndNormalizePath cwd outputPath (Some allowed) = OK p ->
     p = render_abs target /\ resolve_comps cwd allowed `prefix_of` target) /\
  (~ resolve_comps cwd allowed `prefix_of` target ->
     validateAndNormalizePath cwd outputPath (Some allowed) =
     Err ("Path " +:+ outputPath +:+ " is outside allowed directory "
          +:+ allowed)).
Proof.
  intros Ho Ha target. rewrite validate_unfold by done. fold target.
  cbv zeta.
  destruct (strip_common (resolve_comps cwd allowed) target) as [f' t'] eqn:Hsc.
  apply strip_common_spec in Hsc as (c & Hf & Ht). cbn [fst snd].
  destruct f' as [|x f'].
  - rewrite app_nil_r in Hf. subst c. split.
    + intros p Hp. split; [|by exists t'].
      destruct (_ || _); by inversion Hp.
    + intros Hn. destruct Hn. by exists t'.
  - cbn [length repeat app]. rewrite join_dotdot_first. cbn [orb].
    split; [done|]. done.
Qed.

Lemma validateAndNormalizePath_contained_witness :
  "cv/../../elsewhere" <> "" /\ "/srv" <> "" /\
  (forall p, validateAndNormalizePath "/srv" "cv/../../elsewhere" (Some "/srv")
             = OK p ->
     p = "/elsewhere" /\ ["srv"] `prefix_of` ["elsewhere"]) /\
  (~ ["srv"] `prefix_of` ["elsewhere"] ->
     validateAndNormalizePath "/srv" "cv/../../elsewhere" (Some "/srv") =
     Err "Path cv/../../elsewhere is outside allowed directory /srv").
Proof.
  split; [discriminate|]. split; [discriminate|].
  apply (validateAndNormalizePath_contained "/srv" "cv/../../elsewhere" "/srv");
    discriminate.
Defined.

(** X5. The containment test of [validateAndNormalizePath] looks at the
    first two characters of the relative path, so it also refuses paths
    that are inside the base: an entry of the base whose name begins with
    two dots (as in [..cache]) resolves to a child of the base and is
    refused as being outside. *)
Theorem validateAndNormalizePath_refuses_dotted_child
    (cwd allowed name : string) :
  allowed <> "" -> name <> "" ->
  sforall (fun c => negb (ascii_eqb c NUL)) allowed = true ->
  sforall is_word name = true ->
  let outputPath := allowed +:+ "/" +:+ ".." +:+ name in
  resolve_comps cwd (remove_nul outputPath) =
    resolve_comps cwd allowed ++ [".." +:+ name] /\
  validateAndNormalizePath cwd outputPath (Some allowed) =
    Err ("Path " +:+ outputPath +:+ " is outside allowed directory "
         +:+ allowed).
Proof.
  intros Ha Hn Hnul Hword outputPath.
  set (x := ".." +:+ name).
  assert (Hx : sforall (fun c => negb (ascii_eqb c "/")
                                 && negb (ascii_eqb c ".")
                                 && negb (ascii_eqb c NUL)) name = true).
  { eapply sforall_impl; [|exact Hword]. intros c Hc.
    destruct (ascii_eqb c "/") eqn:H1;
      [apply ascii_eqb_eq in H1 as ->; done|].
    destruct (ascii_eqb c ".") eqn:H2;
      [apply ascii_eqb_eq in H2 as ->; done|].
    destruct (ascii_eqb c NUL) eqn:H3;
      [apply ascii_eqb_eq in H3 as ->; done|]. done. }
  assert (Hxs : no_slash x = true).
  { unfold x, no_slash. rewrite sforall_sapp. cbn [sforall andb].
    eapply sforall_impl; [|exact Hx]. intros c Hc.
    by apply andb_true_iff in Hc as [Hc%andb_true_iff _]; destruct Hc. }
  assert (Hxn : x <> "" /\ x <> "." /\ x <> "..").
  { unfold x. destruct name as [|a n']; [done|].
    rewrite !sapp_cons, sapp_nil_l. done. }
  destruct Hxn as (Hx1 & Hx2 & Hx3).
  assert (Hclean : remove_nul outputPath = outputPath).
  { unfold remove_nul. apply sfilter_id. unfold outputPath.
    rewrite !sforall_sapp, Hnul. cbn [sforall andb].
    eapply sforall_impl; [|exact Hx]. intros c Hc.
    by apply andb_true_iff in Hc as [_ Hc]. }
  assert (HT : resolve_comps cwd outputPath =
               resolve_comps cwd allowed ++ [x]).
  { change outputPath with (join "/" [allowed; x]).
    rewrite resolve_comps_join; [|done|].
    - cbn [flat_map]. rewrite app_nil_r, split_slash_one by done.
      unfold normalizeString. cbn [fold_left].
      by rewrite norm_step_push.
    - cbn [flat_map]. rewrite app_nil_r, split_slash_one by done.
      by repeat constructor. }
  rewrite Hclean. split; [exact HT|].
  rewrite validate_unfold; [|by destruct allowed|done].
  cbv zeta. rewrite Hclean, HT, strip_common_prefix.
  cbn [fst snd length repeat app join].
  unfold x at 1. by rewrite startsWith_app.
Qed.

Lemma validateAndNormalizePath_refuses_dotted_child_witness :
  "/srv/cv" <> "" /\ "cache" <> "" /\
  sforall (fun c => negb (ascii_eqb c NUL)) "/srv/cv" = true /\
  sforall is_word "cache" = true /\
  resolve_comps "/home/user" (remove_nul "/srv/cv/..cache") =
    ["srv"; "cv"; "..cache"] /\
  validateAndNormalizePath "/home/user" "/srv/cv/..cache" (Some "/srv/cv") =
    Err "Path /srv/cv/..cache is outside allowed directory /srv/cv".
Proof.
  split; [discriminate|]. split; [discriminate|].
  split; [reflexivity|]. split; [reflexivity|].
  apply (validateAndNormalizePath_refuses_dotted_child
           "/home/user" "/srv/cv" "cache");
    [discriminate | discriminate | reflexivity | reflexivity].
Defined.

(** X6. A path that [validateAndNormalizePath] returns is absolute and
    already in normal form: resolving it again, from whatever directory,
    gives the same path. *)
Theorem validateAndNormalizePath_resolved (cwd cwd' outputPath p : string)
    (allowedBasePath : option string) :
  validateAndNormalizePath cwd outputPath allowedBasePath = OK p ->
  isAbsolute p = true /\ resolve cwd' p = p.
Proof.
  unfold validateAndNormalizePath.
  destruct (is_empty outputPath); [done|]. cbv zeta.
  match goal with |- (if ?b then _ else _) = _ -> _ => destruct b end;
    [done|].
  intros [= <-]. split; [reflexivity|].
  unfold resolve.
  by rewrite resolve_comps_render by apply resolve_comps_normal.
Qed.

Lemma validateAndNormalizePath_resolved_witness :
  validateAndNormalizePath "/home/user" "out/./cv/../letters" None
    = OK "/home/user/out/letters" /\
  isAbsolute "/home/user/out/letters" = true /\
  resolve "/tmp" "/home/user/out/letters" = "/home/user/out/letters".
Proof.
  split; [reflexivity|].
  apply (validateAndNormalizePath_resolved "/home/user" "/tmp"
           "out/./cv/../letters" "/home/user/out/letters" None).
  reflexivity.
Defined.

(** X7. [ensureDirectoryExists] never touches a file and never removes a
    directory; a path that is a file (and not a directory) is refused, and
    after a success on a resolved path the path is a directory. *)
Theorem ensureDirectoryExists_effect (dirPath : string) (w : World) :
  let out := ensureDirectoryExists dirPath w in
  files out.2 = files w /\ dirs w ⊆ dirs out.2 /\
  (dirPath ∉ dirs w -> is_Some (files w !! dirPath) ->
     out = (Err ("Path exists but is not a directory: " +:+ dirPath), w)) /\
  (out.1 = OK tt -> resolve "/" dirPath = dirPath -> dirPath ∈ dirs out.2).
Proof.
  unfold ensureDirectoryExists.
  destruct (bool_decide (dirPath ∈ dirs w)) eqn:Hd.
  { apply bool_decide_eq_true in Hd. cbn. by repeat split. }
  apply bool_decide_eq_false in Hd.
  destruct (bool_decide (is_Some (files w !! dirPath))) eqn:Hf.
  { cbn. by repeat split. }
  apply bool_decide_eq_false in Hf. cbn.
  split; [done|]. split; [set_solver|]. split; [done|].
  intros _ Hres. apply elem_of_union. right. apply elem_of_list_to_set.
  unfold with_ancestors. apply list_elem_of_fmap.
  exists (resolve_comps "/" dirPath). split; [by rewrite <- Hres at 1|].
  apply last_prefixes.
Qed.

End ValidateExtras.

Section DirectoryExtras.
Import JS Path DocumentGenerator.

Lemma ensureDirectoryExists_effect_witness :
  "/srv/out" ∈ dirs (ensureDirectoryExists "/srv/out" Examples.hostile_world).2.
Proof.
  pose proof (ensureDirectoryExists_effect "/srv/out" Examples.hostile_world)
    as (_ & _ & _ & H).
  apply H; reflexivity.
Defined.

End DirectoryExtras.

(** ** RequirementExtractor: what parseJobRequirements recognizes *)

Module ParseFacts.
Import JS JSFacts Regex Model JobParser JobText.

Lemma existsb_str_eqb (x : string) (l : list string) :
  existsb (str_eqb x) l = true <-> x ∈ l.
Proof.
  rewrite existsb_exists. split.
  - intros (y & Hy & Heq). apply str_eqb_eq in Heq as ->.
    by apply list_elem_of_In.
  - intros Hx. exists x. split; [by apply list_elem_of_In|apply str_eqb_refl].
Qed.

(** the vocabulary is written in small letters *)
Lemma techSkills_lower (skill : string) :
  skill ∈ techSkills -> toLowerCase skill = skill.
Proof.
  intros H. apply existsb_str_eqb in H.
  unfold techSkills in H. cbn [existsb] in H.
  repeat (apply orb_true_iff in H as [H|H];
          [apply str_eqb_eq in H as ->; reflexivity|]).
  done.
Qed.

Lemma techSkills_NoDup : NoDup techSkills.
Proof. apply (bool_decide_unpack _). by vm_compute. Qed.

Lemma keySkills_parse (jobReq : JobRequirements) :
  keySkills (parseJobRequirements jobReq) =
  filter (fun skill => includes (lowered jobReq) (toLowerCase skill) = true)
    techSkills.
Proof. reflexivity. Qed.

Lemma experienceLevel_parse (jobReq : JobRequirements) :
  experienceLevel (parseJobRequirements jobReq) =
  if includes (lowered jobReq) "senior" || includes (lowered jobReq) "lead"
  then "senior"
  else if includes (lowered jobReq) "junior" || includes (lowered jobReq) "entry"
       then "junior" else "mid".
Proof. reflexivity. Qed.

(** what the title or the description holds, the searched text holds *)
Lemma lowered_holds (jobReq : JobRequirements) (t : string) :
  includes (toLowerCase (jr_jobTitle jobReq)) t = true \/
  includes (toLowerCase (jobDescription jobReq)) t = true ->
  includes (lowered jobReq) t = true.
Proof.
  unfold lowered. rewrite !toLowerCase_app. intros [H|H].
  - by apply includes_app_l.
  - apply includes_app_r, includes_app_r. by apply includes_app_l.
Qed.

Lemma dedup_acc (xs acc : list string) :
  NoDup acc ->
  let r := fold_left
             (fun acc x => if existsb (str_eqb x) acc then acc else acc ++ [x])
             xs acc in
  NoDup r /\ forall x, x ∈ r -> x ∈ acc \/ x ∈ xs.
Proof.
  revert acc. induction xs as [|y xs IH]; intros acc Hacc; cbn [fold_left].
  - split; [done|]. intros x Hx. by left.
  - destruct (existsb (str_eqb y) acc) eqn:Hy.
    + destruct (IH acc Hacc) as [Hn Hin]. split; [done|].
      intros x Hx. destruct (Hin x Hx) as [?|?]; [by left|].
      right. by apply elem_of_cons; right.
    + assert (Hy' : y ∉ acc).
      { intros Hin. apply existsb_str_eqb in Hin. by rewrite Hin in Hy. }
      destruct (IH (acc ++ [y])) as [Hn Hin].
      { apply NoDup_app. split; [done|]. split; [|apply NoDup_singleton].
        intros x Hx Hx'. apply list_elem_of_singleton in Hx' as ->. done. }
      split; [done|]. intros x Hx.
      destruct (Hin x Hx) as [Ha|?].
      * apply elem_of_app in Ha as [?|Ha]; [by left|].
        apply list_elem_of_singleton in Ha as ->. right.
        apply elem_of_cons. by left.
      * right. by apply elem_of_cons; right.
Qed.

Lemma dedup_NoDup (xs : list string) : NoDup (dedup xs).
Proof. apply (dedup_acc xs []). constructor. Qed.

Lemma dedup_elem (xs : list string) (x : string) : x ∈ dedup xs -> x ∈ xs.
Proof.
  intros Hx. destruct (dedup_acc xs [] (NoDup_nil_2)) as [_ Hin].
  destruct (Hin x Hx) as [H|H]; [by apply elem_of_nil in H|done].
Qed.

End ParseFacts.

Section ParseExtras.
Import JS JSFacts Regex Model JobParser JobText ParseFacts.

(** X8. The key skills that [parseJobRequirements] reports are entries of
    its fixed vocabulary, in the order of the vocabulary and without
    repetition.  A vocabulary word is reported as soon as the title or
    the description holds it as a substring, in any letter case; the test
    knows no word boundaries, so with a reported skill every vocabulary
    word contained in it is reported too (with [javascript] also
    [java]). *)
Theorem parseJobRequirements_keySkills (jobReq : JobRequirements) :
  let parsed := parseJobRequirements jobReq in
  keySkills parsed `sublist_of` techSkills /\
  NoDup (keySkills parsed) /\
  (forall skill, skill ∈ techSkills ->
     includes (toLowerCase (jr_jobTitle jobReq)) skill = true \/
     includes (toLowerCase (jobDescription jobReq)) skill = true ->
     skill ∈ keySkills parsed) /\
  (forall a b, a ∈ techSkills -> b ∈ keySkills parsed ->
     includes b a = true -> a ∈ keySkills parsed).
Proof.
  intros parsed. unfold parsed. rewrite keySkills_parse.
  split; [apply sublist_filter|].
  split; [apply NoDup_filter, techSkills_NoDup|]. split.
  - intros skill Hin Hhas. apply list_elem_of_filter. split; [|done].
    rewrite techSkills_lower by done. by apply lowered_holds.
  - intros a b Ha Hb Hab. apply list_elem_of_filter in Hb as [Hb Hbin].
    apply list_elem_of_filter. split; [|done].
    rewrite techSkills_lower in Hb |- * by done.
    by apply (RenderFacts.includes_trans _ b).
Qed.

Lemma parseJobRequirements_keySkills_witness :
  "java" ∈ keySkills (parseJobRequirements
    {| jr_jobTitle := "JavaScript Developer"; jr_company := "Acme";
       jobDescription := "Build web pages."; requirements := None;
       jr_preferredSkills := None; jr_location := None;
       jr_salaryRange := None |}).
Proof.
  pose proof (parseJobRequirements_keySkills
    {| jr_jobTitle := "JavaScript Developer"; jr_company := "Acme";
       jobDescription := "Build web pages."; requirements := None;
       jr_preferredSkills := None; jr_location := None;
       jr_salaryRange := None |}) as (_ & _ & H & _).
  apply H; [|by left]. apply existsb_str_eqb. reflexivity.
Defined.

(** X9. The experience level that [parseJobRequirements] reports is
    [senior], [junior] or [mid].  [senior] has priority and is found by
    substring: a title or description that holds [senior] or [lead] in any
    letter case (as in [leading] or [misleading]) gives [senior], also
    when the text speaks of a junior position. *)
Theorem parseJobRequirements_level (jobReq : JobRequirements) :
  let parsed := parseJobRequirements jobReq in
  experienceLevel parsed ∈ ["senior"; "junior"; "mid"] /\
  (forall marker, marker ∈ ["senior"; "lead"] ->
     includes (toLowerCase (jr_jobTitle jobReq)) marker = true \/
     includes (toLowerCase (jobDescription jobReq)) marker = true ->
     experienceLevel parsed = "senior") /\
  (experienceLevel parsed = "junior" ->
     includes (lowered jobReq) "lead" = false /\
     includes (lowered jobReq) "senior" = false).
Proof.
  intros parsed. unfold parsed. rewrite experienceLevel_parse.
  split; [|split].
  - destruct (_ || _); [by apply elem_of_cons; left|].
    destruct (_ || _); apply elem_of_cons; right; apply elem_of_cons;
      [by left|right]. by apply elem_of_cons; left.
  - intros marker Hm Hhas. apply lowered_holds in Hhas.
    apply elem_of_cons in Hm as [->|Hm].
    + by rewrite Hhas.
    + apply list_elem_of_singleton in Hm as ->.
      by rewrite Hhas, orb_true_r.
  - destruct (includes (lowered jobReq) "senior"); [done|].
    destruct (includes (lowered jobReq) "lead"); [done|]. done.
Qed.

Lemma parseJobRequirements_level_witness :
  experienceLevel (parseJobRequirements
    {| jr_jobTitle := "Junior Developer"; jr_company := "Acme";
       jobDescription := "No misleading titles here."; requirements := None;
       jr_preferredSkills := None; jr_location := None;
       jr_salaryRange := None |}) = "senior".
Proof.
  pose proof (parseJobRequirements_level
    {| jr_jobTitle := "Junior Developer"; jr_company := "Acme";
       jobDescription := "No misleading titles here."; requirements := None;
       jr_preferredSkills := None; jr_location := None;
       jr_salaryRange := None |}) as (_ & H & _).
  apply (H "lead"); [|by right].
  apply elem_of_cons. right. apply elem_of_cons. by left.
Defined.

(** X10. [parseJobRequirements] reports at most twenty keywords, no
    keyword twice, each longer than three characters and none of them one
    of the common words. *)
Theorem parseJobRequirements_keyWords (jobReq : JobRequirements) :
  let kw := keyWords (parseJobRequirements jobReq) in
  length kw <= 20 /\ NoDup kw /\
  Forall (fun w => 3 < String.length w /\ w ∉ commonWords) kw.
Proof.
  intros kw. unfold kw. cbn [parseJobRequirements keyWords].
  split; [apply firstn_le_length|]. split.
  - eapply sublist_NoDup; [apply dedup_NoDup|apply sublist_take].
  - apply Forall_forall. intros w Hw.
    eapply elem_of_sublist in Hw; [|apply sublist_take].
    apply dedup_elem in Hw. apply list_elem_of_filter in Hw as [[Hlen Hc] _].
    split; [by apply Nat.ltb_lt in Hlen|].
    intros Hin. apply existsb_str_eqb in Hin. by rewrite Hin in Hc.
Qed.

End ParseExtras.

(** ** ProfileTailor: what tailoring keeps *)

Module KeepFacts.
Import JS JSFacts Model CvGenerator TailorFacts ExperienceFacts.

Lemma filter_none {A} (P : A -> Prop) `{!forall x, Decision (P x)}
    (l : list A) :
  (forall x, ~ P x) -> filter P l = [].
Proof.
  intros Hno. induction l as [|x l IH]; [done|].
  by rewrite filter_cons_False.
Qed.

Lemma prioritizeSkills_filters (userSkills requiredSkills : list string) :
  prioritizeSkills userSkills requiredSkills =
  filter (fun s => contains_requirement requiredSkills s = true) userSkills
  ++ filter (fun s => ~ contains_requirement requiredSkills s = true)
       userSkills.
Proof. unfold prioritizeSkills. by rewrite prioritize_fold. Qed.

Section WithDate.
Context {date : DateRuntime}.

Lemma tailor_group_one (jobReq : ParsedJobRequirements) (k : string)
    (g : list Experience) :
  g <> [] -> exists entry, tailor_group jobReq (k, g) = [entry].
Proof.
  intros Hg. unfold tailor_group. cbn [snd fst].
  pose proof (sort_length by_start_desc g) as Hl.
  destruct (sort by_start_desc g) as [|e [|e' r]].
  - destruct g; [done|]. cbn in Hl. lia.
  - by eexists.
  - by eexists.
Qed.

Lemma tailored_length (jobReq : ParsedJobRequirements)
    (gs : list (string * list Experience)) :
  Forall (fun kg => kg.2 <> []) gs ->
  length (concat (map (tailor_group jobReq) gs)) = length gs.
Proof.
  induction 1 as [|[k g] gs Hg _ IH]; [done|].
  cbn [map concat]. rewrite length_app, IH.
  destruct (tailor_group_one jobReq k g Hg) as [entry ->]. done.
Qed.




End WithDate.

End KeepFacts.

Section KeepExtras.
Import JS JSFacts Model CvGenerator TailorFacts ExperienceFacts KeepFacts.
Import Domain.
Context {date : DateRuntime}.

(** X11. [prioritizeSkills] loses and invents nothing: its result is a
    rearrangement of the skills it was given; and it is idempotent:
    prioritizing a prioritized list changes nothing. *)
Theorem prioritizeSkills_rearranges (userSkills requiredSkills : list string) :
  prioritizeSkills userSkills requiredSkills ≡ₚ userSkills /\
  prioritizeSkills (prioritizeSkills userSkills requiredSkills) requiredSkills
  = prioritizeSkills userSkills requiredSkills.
Proof.
  set (P := fun s => contains_requirement requiredSkills s = true).
  split.
  - rewrite prioritizeSkills_filters. apply filter_app_complement.
  - rewrite (prioritizeSkills_filters (prioritizeSkills _ _)).
    rewrite prioritizeSkills_filters. fold P.
    rewrite !filter_app.
    rewrite (list_filter_filter_l P P) by done.
    rewrite (list_filter_filter_l (fun s => ~ P s) (fun s => ~ P s)) by done.
    rewrite (list_filter_filter P (fun s => ~ P s)).
    rewrite (list_filter_filter (fun s => ~ P s) P).
    rewrite (filter_none (fun s => P s /\ ~ P s)) by (intros x [? ?]; done).
    rewrite (filter_none (fun s => ~ P s /\ P s)) by (intros x [? ?]; done).
    by rewrite app_nil_r.
Qed.


(** X13. For a requirement record of plain words and company names in
    ASCII, [groupAndTailorExperience] returns one entry for each distinct
    trimmed company name of the input, and returns the entries ordered by
    the largest four-digit number of their duration text, largest first
    (an entry without such a number counting as 0). *)
Theorem groupAndTailorExperience_entries (experiences : list Experience)
    (jobRequirements : ParsedJobRequirements) :
  plain_words jobRequirements = true ->
  ascii_companies experiences = true ->
  let out := groupAndTailorExperience experiences jobRequirements in
  let companies := (group_by_company experiences).*1 in
  length out = length companies /\
  NoDup companies /\
  (forall k, k ∈ companies <->
     exists e, e ∈ experiences /\ trim (exp_company e) = k) /\
  StronglySorted
    (fun a b => (extractYear (duration b) <= extractYear (duration a))%Z) out.
Proof.
  intros _ _ out companies. split; [|split; [|split]].
  - unfold out, groupAndTailorExperience. cbv zeta.
    rewrite sort_length, tailored_length;
      [unfold companies; by rewrite length_fmap|].
    apply Forall_forall. intros [k g] Hin.
    by apply group_by_company_spec in Hin as [Hg _].
  - apply group_by_company_NoDup.
  - intros k. unfold companies. rewrite list_elem_of_fmap. split.
    + intros ([k' g] & -> & Hin). cbn [fst].
      apply group_by_company_spec in Hin as [Hg Heq].
      destruct g as [|e g]; [done|]. exists e.
      assert (He : e ∈ filter (fun e => key e = k') experiences)
        by (rewrite <- Heq; by apply elem_of_cons; left).
      apply list_elem_of_filter in He as [He1 He2]. done.
    + intros (e & He & Hk).
      exists (k, filter (fun e => key e = k) experiences). split; [done|].
      apply group_by_company_spec. split; [|done].
      intros Hnil.
      pose proof (filter_nil_not_elem_of _ _ e Hnil) as Hno.
      by apply Hno.
  - unfold out, groupAndTailorExperience. cbv zeta.
    apply (sort_sorted by_year_desc (fun e => extractYear (duration e))
             (fun _ => True)); [done|].
    by apply Forall_forall.
Qed.


End KeepExtras.

Section KeepWitnesses.
Import JS Model JobParser CvGenerator Domain Examples Samples.


(** two roles at Acme and one at Globex: two entries *)
Lemma groupAndTailorExperience_entries_witness :
  plain_words (parseJobRequirements agile_posting) = true /\
  ascii_companies [acme_engineer; globex_analyst; acme_senior] = true /\
  (group_by_company [acme_engineer; globex_analyst; acme_senior]).*1
  = ["Acme"; "Globex"] /\
  let out := @groupAndTailorExperience (IsoDate.runtime 0)
               [acme_engineer; globex_analyst; acme_senior]
               (parseJobRequirements agile_posting) in
  let companies :=
    (group_by_company [acme_engineer; globex_analyst; acme_senior]).*1 in
  length out = length companies /\
  NoDup companies /\
  (forall k, k ∈ companies <->
     exists e, e ∈ [acme_engineer; globex_analyst; acme_senior] /\
               trim (exp_company e) = k) /\
  StronglySorted
    (fun a b => (extractYear (duration b) <= extractYear (duration a))%Z) out.
Proof.
  assert (Hplain : plain_words (parseJobRequirements agile_posting) = true)
    by reflexivity.
  assert (Hascii :
            ascii_companies [acme_engineer; globex_analyst; acme_senior] = true)
    by reflexivity.
  split; [exact Hplain|]. split; [exact Hascii|]. split; [reflexivity|].
  exact (@groupAndTailorExperience_entries (IsoDate.runtime 0)
           [acme_engineer; globex_analyst; acme_senior]
           (parseJobRequirements agile_posting) Hplain Hascii).
Defined.


End KeepWitnesses.

(** ** DocumentRenderer: what generateDocument writes, and when *)

Module DocumentFacts.
Import JS JSFacts Model Path PathFacts DocumentGenerator.

Lemma each_filter {A} (f : A -> string) (P : A -> Prop)
    `{!forall x, Decision (P x)} (xs : list A) :
  (forall x, ~ P x -> f x = "") -> each f (filter P xs) = each f xs.
Proof.
  intros Hf. unfold each. generalize "". induction xs as [|x xs IH];
    intros acc; [done|].
  rewrite filter_cons. destruct (decide (P x)) as [Hp|Hp]; cbn [fold_left].
  - apply IH.
  - rewrite (Hf x Hp), sapp_nil_r. apply IH.
Qed.

Lemma formatCVAsMarkdown_total (cvData : TailoredCV) :
  fullName (cv_personalInfo cvData) <> "" ->
  exists markdown, formatCVAsMarkdown cvData = OK markdown.
Proof.
  intros Hn. unfold formatCVAsMarkdown. cbv zeta.
  destruct (is_empty _) eqn:He; [by apply is_empty_true in He|].
  by eexists.
Qed.

Lemma validate_plain (cwd outputPath : string) :
  outputPath <> "" ->
  validateAndNormalizePath cwd outputPath None =
  OK (resolve cwd (remove_nul outputPath)).
Proof.
  intros Ho. unfold validateAndNormalizePath.
  by destruct outputPath.
Qed.

Lemma ensure_keeps (dirPath : string) (w : World) :
  let w1 := (ensureDirectoryExists dirPath w).2 in
  files w1 = files w /\ cwd w1 = cwd w /\ conversions w1 = conversions w /\
  env w1 = env w.
Proof.
  unfold ensureDirectoryExists.
  destruct (bool_decide _); [done|]. by destruct (bool_decide _).
Qed.

Lemma ensure_makes (cwd0 p : string) (w : World) :
  let dir := resolve cwd0 p in
  dir ∈ dirs w \/ files w !! dir = None ->
  (ensureDirectoryExists dir w).1 = OK tt /\
  dir ∈ dirs (ensureDirectoryExists dir w).2.
Proof.
  intros dir Hd. unfold ensureDirectoryExists.
  destruct (bool_decide (dir ∈ dirs w)) eqn:Hin.
  { apply bool_decide_eq_true in Hin. done. }
  apply bool_decide_eq_false in Hin. destruct Hd as [?|Hf]; [done|].
  rewrite bool_decide_eq_false_2 by (rewrite Hf; by intros [? ?]).
  split; [done|]. cbn. apply elem_of_union. right.
  apply elem_of_list_to_set. unfold with_ancestors.
  apply list_elem_of_fmap. exists (resolve_comps "/" dir).
  split; [|apply ValidateFacts.last_prefixes].
  unfold dir, resolve.
  by rewrite resolve_comps_render by apply resolve_comps_normal.
Qed.

Lemma safeJoinPath_ok_prefix (cwd base p : string) (segs : list string) :
  safeJoinPath cwd base segs = OK p ->
  resolve_comps cwd base `prefix_of` resolve_comps cwd p.
Proof.
  rewrite safeJoinPath_unfold. cbv zeta.
  destruct (strip_common _ _) as [f' t'] eqn:Hsc.
  apply strip_common_spec in Hsc as (c & Hf & Ht). cbn [fst snd].
  destruct f' as [|x f'].
  - rewrite app_nil_r in Hf. subst c.
    destruct (_ || _); [done|]. intros [= <-].
    rewrite resolve_comps_render by apply resolve_comps_normal.
    by exists t'.
  - cbn [length repeat app]. by rewrite join_dotdot_first.
Qed.

Lemma resolve_nonempty (cwd p : string) : resolve cwd p <> "".
Proof. unfold resolve, render_abs. by rewrite sapp_cons. Qed.

Lemma validate_ok (cwd outputPath dir : string) :
  validateAndNormalizePath cwd outputPath None = OK dir ->
  outputPath <> "" /\ dir = resolve cwd (remove_nul outputPath).
Proof.
  intros H. destruct outputPath as [|a o]; [done|]. split; [done|].
  rewrite validate_plain in H by done. by injection H.
Qed.

Lemma ensure_ok (cwd0 p : string) (w w1 : World) :
  ensureDirectoryExists (resolve cwd0 p) w = (OK tt, w1) ->
  resolve cwd0 p ∈ dirs w1.
Proof.
  intros H.
  assert (Hd : resolve cwd0 p ∈ dirs w \/ files w !! resolve cwd0 p = None).
  { unfold ensureDirectoryExists in H.
    destruct (bool_decide (resolve cwd0 p ∈ dirs w)) eqn:Hin.
    - left. by apply bool_decide_eq_true in Hin.
    - destruct (bool_decide (is_Some (files w !! resolve cwd0 p))) eqn:Hf;
        [done|].
      right. apply bool_decide_eq_false in Hf. by apply eq_None_not_Some. }
  destruct (ensure_makes cwd0 p w Hd) as [_ Hin]. by rewrite H in Hin.
Qed.

Section Steps.
Variable render : MarkdownItOptions -> string -> string.
Variable mdToPdf : PdfRequest -> World -> PdfOutcome.

(** the steps of a markdown request that returns a path *)
Lemma markdown_steps (cvData : TailoredCV) (outputPath fileName p : string)
    (pdfOptions : option PDFOptions) (w : World) :
  (generateDocument render mdToPdf cvData outputPath fileName MARKDOWN
     pdfOptions w).1 = OK p ->
  let dir := resolve (cwd w) (remove_nul outputPath) in
  exists name markdown w1,
    outputPath <> "" /\
    ensureDirectoryExists dir w = (OK tt, w1) /\
    sanitizeFileName fileName = OK name /\
    formatCVAsMarkdown cvData = OK markdown /\
    safeJoinPath (cwd w1) dir
      [Regex.replace_first extension "" name +:+ ".md"] = OK p /\
    (generateDocument render mdToPdf cvData outputPath fileName MARKDOWN
       pdfOptions w).2 = writeFile p markdown w1.
Proof.
  intros H dir. unfold generateDocument, prepare in *.
  destruct (validateAndNormalizePath (cwd w) outputPath None) as [d|e] eqn:Hv;
    [|done].
  apply validate_ok in Hv as [Ho ->]. fold dir in H |- *.
  destruct (ensureDirectoryExists dir w) as [[[]|e] w1]; [|done].
  destruct (sanitizeFileName fileName) as [name|e]; [|done].
  destruct (formatCVAsMarkdown cvData) as [markdown|e]; [|done].
  destruct (safeJoinPath _ _ _) as [q|e] eqn:Hj; [|done].
  cbn [fst snd] in *. injection H as ->.
  by exists name, markdown, w1.
Qed.

End Steps.

End DocumentFacts.

Section DocumentExtras.
Import JS JSFacts Model Path PathFacts DocumentGenerator DocumentFacts.
Variable render : MarkdownItOptions -> string -> string.
Variable mdToPdf : PdfRequest -> World -> PdfOutcome.

(** X15. [formatCVAsMarkdown] fails exactly when the full name is empty.
    Experience entries without title or company and education entries
    without degree or institution leave no trace: the markdown is the one
    of the CV without these entries. *)
Theorem formatCVAsMarkdown_drops_incomplete (cvData : TailoredCV) :
  (formatCVAsMarkdown cvData =
     Err "Invalid CV data: Missing personalInfo.fullName"
   <-> fullName (cv_personalInfo cvData) = "") /\
  formatCVAsMarkdown cvData =
  formatCVAsMarkdown
    {| cv_personalInfo := cv_personalInfo cvData;
       cv_summary := cv_summary cvData;
       cv_experience :=
         filter (fun e => is_empty (jobTitle e) || is_empty (company e) = false)
           (cv_experience cvData);
       cv_education :=
         filter (fun e => is_empty (degree e) || is_empty (institution e) = false)
           (cv_education cvData);
       cv_skills := cv_skills cvData;
       cv_projects := cv_projects cvData |}.
Proof.
  unfold formatCVAsMarkdown.
  cbn [cv_personalInfo cv_summary cv_experience cv_education cv_skills
       cv_projects]. cbv zeta.
  destruct (is_empty (fullName (cv_personalInfo cvData))) eqn:He.
  - apply is_empty_true in He. by split.
  - split.
    + split; [done|]. intros Hn. by rewrite Hn in He.
    + rewrite (each_filter experience_md), (each_filter education_md); [done| |].
      * intros e Hne. unfold education_md.
        by destruct (is_empty (degree e) || is_empty (institution e)).
      * intros e Hne. unfold experience_md.
        by destruct (is_empty (jobTitle e) || is_empty (company e)).
Qed.

(** X16. A markdown request that returns a path has passed the checks
    (the output path is not empty, the file name survives
    [sanitizeFileName], the CV has a name), and then: the path lies under
    the resolved output directory, that file holds the markdown of the
    CV, the directory exists, no other file is touched and no PDF
    conversion is started.  Whether a request returns depends on the file
    system too ([fs.stat], [fs.mkdir] and [fs.writeFile] can throw), so
    this is stated of the requests that do. *)
Theorem generateDocument_markdown (cvData : TailoredCV)
    (outputPath fileName p : string) (pdfOptions : option PDFOptions)
    (w : World) :
  (generateDocument render mdToPdf cvData outputPath fileName MARKDOWN
     pdfOptions w).1 = OK p ->
  let w' := (generateDocument render mdToPdf cvData outputPath fileName
               MARKDOWN pdfOptions w).2 in
  exists name markdown,
    outputPath <> "" /\
    sanitizeFileName fileName = OK name /\
    formatCVAsMarkdown cvData = OK markdown /\
    files w' = <[p := markdown]> (files w) /\
    resolve (cwd w) (remove_nul outputPath) ∈ dirs w' /\
    resolve_comps (cwd w) (remove_nul outputPath)
      `prefix_of` resolve_comps (cwd w) p /\
    conversions w' = conversions w.
Proof.
  intros H w'.
  destruct (markdown_steps render mdToPdf _ _ _ _ _ _ H)
    as (name & markdown & w1 & Ho & Hens & Hname & Hmd & Hj & Hw).
  set (dir := resolve (cwd w) (remove_nul outputPath)) in *.
  pose proof (ensure_keeps dir w) as (Hfiles & Hcwd & Hconv & _).
  pose proof (ensure_ok _ _ _ _ Hens) as Hin.
  rewrite Hens in Hfiles, Hcwd, Hconv. cbn [snd] in Hfiles, Hcwd, Hconv.
  exists name, markdown. unfold w'. rewrite Hw.
  split; [done|]. split; [done|]. split; [done|].
  split; [cbn; by rewrite Hfiles|]. split; [done|]. split; [|done].
  apply safeJoinPath_ok_prefix in Hj. rewrite Hcwd in Hj.
  unfold dir, resolve in Hj.
  by rewrite resolve_comps_render in Hj by apply resolve_comps_normal.
Qed.

End DocumentExtras.

Section DocumentEffects.
Import JS JSFacts Model Path PathFacts DocumentGenerator DocumentFacts.
Variable render : MarkdownItOptions -> string -> string.
Variable mdToPdf : PdfRequest -> World -> PdfOutcome.

(** X18. The output directory is made before the file name and the
    format are looked at: a request, of whatever format, that fails with
    the error of [sanitizeFileName] for its file name has by then made
    sure of the directory, and has written no file and started no
    conversion.  (A request whose directory cannot be made fails with
    the error of the file system and is not spoken of.) *)
Theorem generateDocument_directory_first (cvData : TailoredCV)
    (outputPath fileName e : string) (format : OutputFormat)
    (pdfOptions : option PDFOptions) (w : World) :
  sanitizeFileName fileName = Err e ->
  (generateDocument render mdToPdf cvData outputPath fileName format
     pdfOptions w).1 = Err e ->
  let w' := (generateDocument render mdToPdf cvData outputPath fileName
               format pdfOptions w).2 in
  outputPath <> "" /\
  resolve (cwd w) (remove_nul outputPath) ∈ dirs w' /\
  files w' = files w /\ conversions w' = conversions w.
Proof.
  intros Hname H w'. unfold w'. clear w'.
  assert (He : e = "Invalid filename provided" \/
               e = "Filename is invalid after sanitization").
  { unfold sanitizeFileName in Hname.
    destruct (is_empty fileName); [left; by injection Hname|].
    destruct (_ || _); [right; by injection Hname|].
    by destruct (startsWith _ _). }
  unfold generateDocument, prepare in *.
  destruct (validateAndNormalizePath (cwd w) outputPath None) as [d|e'] eqn:Hv.
  2:{ unfold validateAndNormalizePath in Hv.
      destruct (is_empty outputPath); [|done].
      injection Hv as <-. cbn [fst] in H. injection H as <-.
      by destruct He. }
  apply validate_ok in Hv as [Ho ->].
  set (dir := resolve (cwd w) (remove_nul outputPath)) in *.
  pose proof (ensure_keeps dir w) as (Hfiles & _ & Hconv & _).
  destruct (ensureDirectoryExists dir w) as [[[]|e'] w1] eqn:Hens.
  - rewrite Hname. cbn [snd] in *.
    split; [done|]. split; [|done]. by apply (ensure_ok _ _ _ _ Hens).
  - unfold ensureDirectoryExists in Hens.
    destruct (bool_decide (dir ∈ dirs w)); [done|].
    destruct (bool_decide (is_Some (files w !! dir))); [|done].
    injection Hens as <- _. cbn [fst] in H. injection H as <-.
    by destruct He.
Qed.

End DocumentEffects.

Section DocumentWitnesses.
Import JS Model Path DocumentGenerator Examples.

Lemma generateDocument_markdown_witness :
  (generateDocument echo_render working_converter plain_cv "out" "cv.txt"
     MARKDOWN None hostile_world).1 = OK "/home/user/out/cv.md" /\
  let w' := (generateDocument echo_render working_converter plain_cv "out"
               "cv.txt" MARKDOWN None hostile_world).2 in
  exists name markdown,
    "out" <> "" /\
    sanitizeFileName "cv.txt" = OK name /\
    formatCVAsMarkdown plain_cv = OK markdown /\
    files w' = <[ "/home/user/out/cv.md" := markdown]> (files hostile_world) /\
    resolve (cwd hostile_world) (remove_nul "out") ∈ dirs w' /\
    resolve_comps (cwd hostile_world) (remove_nul "out")
      `prefix_of` resolve_comps (cwd hostile_world) "/home/user/out/cv.md" /\
    conversions w' = conversions hostile_world.
Proof.
  assert (H : (generateDocument echo_render working_converter plain_cv "out"
                 "cv.txt" MARKDOWN None hostile_world).1
              = OK "/home/user/out/cv.md") by reflexivity.
  split; [exact H|].
  exact (generateDocument_markdown echo_render working_converter plain_cv
           "out" "cv.txt" "/home/user/out/cv.md" None hostile_world H).
Defined.

Lemma generateDocument_directory_first_witness :
  sanitizeFileName "/" = Err "Filename is invalid after sanitization" /\
  (generateDocument echo_render working_converter plain_cv "out" "/" PDF None
     hostile_world).1 = Err "Filename is invalid after sanitization" /\
  let w' := (generateDocument echo_render working_converter plain_cv "out"
               "/" PDF None hostile_world).2 in
  "out" <> "" /\
  resolve (cwd hostile_world) (remove_nul "out") ∈ dirs w' /\
  files w' = files hostile_world /\
  conversions w' = conversions hostile_world.
Proof.
  assert (Hname : sanitizeFileName "/"
                  = Err "Filename is invalid after sanitization")
    by reflexivity.
  assert (H : (generateDocument echo_render working_converter plain_cv "out"
                 "/" PDF None hostile_world).1
              = Err "Filename is invalid after sanitization") by reflexivity.
  split; [exact Hname|]. split; [exact H|].
  exact (generateDocument_directory_first echo_render working_converter
           plain_cv "out" "/" "Filename is invalid after sanitization" PDF
           None hostile_world Hname H).
Defined.

End DocumentWitnesses.

(** ** config.ts: the validated configuration *)

Module ConfigFacts.
Import JS JSFacts Regex DocumentGenerator ConfigChecks.

Lemma field_valid (e : gmap string string) (name fallback v : string)
    (valid : string -> bool) :
  valid fallback = true ->
  field e name valid fallback = Some v -> valid v = true.
Proof.
  intros Hfb. unfold field. destruct (e !! name) as [x|].
  - destruct (valid x) eqn:Hx; [|done]. by intros [= <-].
  - by intros [= <-].
Qed.

Lemma field_invalid (e : gmap string string) (name fallback v : string)
    (valid : string -> bool) :
  e !! name = Some v -> valid v = false ->
  field e name valid fallback = None.
Proof. intros He Hv. unfold field. by rewrite He, Hv. Qed.

Lemma parseConfig_whitelisted (e : gmap string string) (c : Config) :
  parseConfig e = Some c -> whitelisted c.
Proof.
  unfold parseConfig.
  destruct (field e "PDF_TIMEOUT" _ _) as [timeout|] eqn:H0; [|done].
  destruct (field e "PDF_PAGE_SIZE" _ _) as [size|] eqn:H1; [|done].
  destruct (field e "PDF_MARGIN_TOP" _ _) as [mt|] eqn:H2; [|done].
  destruct (field e "PDF_MARGIN_RIGHT" _ _) as [mr|] eqn:H3; [|done].
  destruct (field e "PDF_MARGIN_BOTTOM" _ _) as [mb|] eqn:H4; [|done].
  destruct (field e "PDF_MARGIN_LEFT" _ _) as [ml|] eqn:H5; [|done].
  destruct (field e "PDF_BASE_FONT_SIZE" _ _) as [base|] eqn:H6; [|done].
  destruct (field e "PDF_LINE_HEIGHT" _ _) as [lh|] eqn:H7; [|done].
  destruct (field e "PDF_H1_FONT_SIZE" _ _) as [h1|] eqn:H8; [|done].
  destruct (field e "PDF_H2_FONT_SIZE" _ _) as [h2|] eqn:H9; [|done].
  destruct (field e "PDF_H3_FONT_SIZE" _ _) as [h3|] eqn:H10; [|done].
  destruct (field e "PDF_PARAGRAPH_SPACING" _ _) as [ps|] eqn:H11; [|done].
  destruct (field e "PDF_SECTION_SPACING" _ _) as [ss|] eqn:H12; [|done].
  destruct (field e "DISABLE_SANDBOX" _ _) as [sandbox|] eqn:H13; [|done].
  destruct (field e "DEBUG" _ _) as [debug|] eqn:H14; [|done].
  cbn. intros [= <-]. unfold whitelisted. cbn.
  apply field_valid in H1, H2, H3, H4, H5, H6, H7, H8, H9, H10, H11, H12;
    try reflexivity.
  repeat split; repeat constructor; done.
Qed.

Lemma parseConfig_defaults : is_Some (parseConfig ∅).
Proof. eexists. by vm_compute. Qed.

End ConfigFacts.

Section ConfigExtras.
Import JS JSFacts Regex DocumentGenerator ConfigChecks ConfigFacts.

(** X19. [validateConfig] always yields a configuration, whatever the
    environment holds, and every style setting of it passes the check of
    [ConfigSchema]: the page size is on the list, the margins are lengths
    with a unit, the font sizes and spacings are pixel values, the line
    height is a number. *)
Theorem validateConfig_whitelisted (e : gmap string string) :
  exists c, validateConfig e = Some c /\ whitelisted c.
Proof.
  unfold validateConfig. destruct (parseConfig e) as [c|] eqn:Hp.
  - exists c. split; [done|]. by apply (parseConfig_whitelisted e).
  - destruct parseConfig_defaults as [c Hc]. exists c.
    split; [done|]. by apply (parseConfig_whitelisted ∅).
Qed.

(** X20. One variable that fails its check costs all the others: the
    configuration is then the one of the empty environment, so that the
    valid settings of the environment are replaced by the defaults and
    [DEFAULT_OUTPUT_PATH] and [TEMP_DIR] are forgotten. *)
Theorem validateConfig_all_or_nothing (e : gmap string string)
    (name v : string) (valid : string -> bool) :
  (name, valid) ∈ validators ->
  e !! name = Some v -> valid v = false ->
  validateConfig e = parseConfig ∅ /\
  DEFAULT_OUTPUT_PATH <$> validateConfig e = Some None /\
  TEMP_DIR <$> validateConfig e = Some None /\
  PDF_BASE_FONT_SIZE <$> validateConfig e = Some "12px".
Proof.
  intros Hin He Hv.
  assert (Hnone : parseConfig e = None).
  { unfold validators in Hin.
    repeat (apply elem_of_cons in Hin as [[= -> ->]|Hin];
      [unfold parseConfig; rewrite (field_invalid e _ _ v _ He Hv);
       repeat (match goal with
               | |- mbind _ None = _ => reflexivity
               | |- mbind _ (field e ?n ?va ?fb) = _ =>
                   destruct (field e n va fb);
                   cbn [mbind option_bind]; [|reflexivity]
               end); reflexivity|]).
    by apply elem_of_nil in Hin. }
  assert (Hval : validateConfig e = parseConfig ∅)
    by (unfold validateConfig; by rewrite Hnone).
  rewrite Hval. split; [done|]. by vm_compute.
Qed.

Lemma validateConfig_all_or_nothing_witness :
  validateConfig poster_env = parseConfig ∅ /\
  DEFAULT_OUTPUT_PATH <$> validateConfig poster_env = Some None /\
  TEMP_DIR <$> validateConfig poster_env = Some None /\
  PDF_BASE_FONT_SIZE <$> validateConfig poster_env = Some "12px".
Proof.
  apply (validateConfig_all_or_nothing poster_env "PDF_PAGE_SIZE" "Poster"
           valid_page_size);
    [| reflexivity | reflexivity].
  apply elem_of_cons. right. apply elem_of_cons. by left.
Defined.

End ConfigExtras.

(** ** Correspondence: e-mail templates, cover letters, years of experience *)

Module CorrespondenceFacts.
Import JS JSFacts Model Years EmailTemplate.

Lemma sanitizeCRLF_single_line (text : string) :
  sforall (fun c => negb (ascii_eqb c CR || ascii_eqb c LF))
    (sanitizeCRLF text) = true.
Proof. unfold sanitizeCRLF. by apply sforall_sfilter. Qed.

Lemma startsWith_app_cons (g r : string) (c : ascii) :
  startsWith (g +:+ String c r) (g +:+ String c "") = true.
Proof.
  induction g as [|a g IH].
  - rewrite !sapp_nil_l. cbn. by rewrite ascii_eqb_refl.
  - rewrite !sapp_cons. cbn [startsWith]. by rewrite ascii_eqb_refl, IH.
Qed.

Lemma lower_char_idem (c : ascii) : lower_char (lower_char c) = lower_char c.
Proof. destruct c as [[] [] [] [] [] [] [] []]; reflexivity. Qed.

Lemma toLowerCase_idem (s : string) :
  toLowerCase (toLowerCase s) = toLowerCase s.
Proof.
  induction s as [|c r IH]; [done|]. cbn.
  rewrite lower_char_idem. f_equal. exact IH.
Qed.

Section WithRuntime.
Context {date : DateRuntime} {calendar : CalendarRuntime}.
Variable now : Z.

Lemma role_months_nonneg (exp : Experience) : (0 <= role_months now exp)%Z.
Proof.
  unfold role_months. destruct (Date_parse _); [|done].
  destruct (end_time now exp); [|done]. cbv zeta. lia.
Qed.

Lemma totalMonths_acc (experience : list Experience) (acc : Z) :
  fold_left (fun total exp => (total + role_months now exp)%Z) experience acc
  = (acc + totalMonths now experience)%Z.
Proof.
  unfold totalMonths. revert acc.
  induction experience as [|e l IH]; intros acc; cbn [fold_left]; [lia|].
  rewrite (IH (acc + _)%Z), (IH (0 + _)%Z). lia.
Qed.

Lemma totalMonths_app (a b : list Experience) :
  totalMonths now (a ++ b) = (totalMonths now a + totalMonths now b)%Z.
Proof.
  unfold totalMonths at 1. rewrite fold_left_app.
  fold (totalMonths now a). apply totalMonths_acc.
Qed.

Lemma totalMonths_nonneg (experience : list Experience) :
  (0 <= totalMonths now experience)%Z.
Proof.
  induction experience as [|e l IH] using rev_ind; [done|].
  rewrite totalMonths_app. unfold totalMonths at 2. cbn [fold_left].
  pose proof (role_months_nonneg e). lia.
Qed.

Lemma totalMonths_unreadable (experience : list Experience) :
  Forall (fun e => Date_parse (startDate e) = None) experience ->
  totalMonths now experience = 0%Z.
Proof.
  induction 1 as [|e l He _ IH]; [done|].
  change (e :: l) with ([e] ++ l). rewrite totalMonths_app, IH.
  unfold totalMonths, role_months. cbn [fold_left]. by rewrite He.
Qed.

End WithRuntime.

End CorrespondenceFacts.

Section CorrespondenceExtras.
Import JS JSFacts Model Years EmailTemplate CorrespondenceFacts.
Context {date : DateRuntime} {calendar : CalendarRuntime}.
Variable now : Z.

(** X21. Every header field of a generated e-mail template is a single
    line: the sender's name and address, the recipient's address, name and
    company and the subject hold no carriage return and no line feed,
    whatever the profile, the posting and the arguments hold.  The body is
    not treated: it begins with the greeting, which carries the hiring
    manager's name as it was given. *)
Theorem generateEmailTemplate_single_line_headers (userProfile : UserProfile)
    (jobRequirements : ParsedJobRequirements) (recipientEmail : string)
    (templateType : EmailTemplateType) (hiringManagerName : option string) :
  let template :=
    generateEmailTemplate now userProfile jobRequirements recipientEmail
      templateType hiringManagerName in
  Forall (fun field =>
            sforall (fun c => negb (ascii_eqb c CR || ascii_eqb c LF)) field
            = true)
    [sender_name (sender template); sender_email (sender template);
     recipient_email (recipient template);
     default "" (recipient_name (recipient template));
     recipient_company (recipient template); subject template] /\
  (forall name, hiringManagerName = Some name -> name <> "" ->
     startsWith (body template) ("Dear " +:+ name +:+ ",") = true).
Proof.
  intros template. split.
  - unfold template, generateEmailTemplate. cbn [sender recipient subject
      sender_name sender_email recipient_email recipient_name
      recipient_company].
    repeat (apply Forall_cons; split; [try apply sanitizeCRLF_single_line|]);
      [|done].
    destruct hiringManagerName as [n|]; [|done].
    destruct (is_empty n); [done|]. apply sanitizeCRLF_single_line.
  - intros name -> Hname. unfold template, generateEmailTemplate.
    cbn [body]. unfold generateEmailBody.
    destruct (is_empty name) eqn:He; [by apply is_empty_true in He|].
    destruct templateType;
      unfold generateApplicationEmailBody, generateFollowUpEmailBody,
        generateInquiryEmailBody, generateThankYouEmailBody; cbv zeta;
      rewrite <- (sapp_assoc "Dear " name), sapp_cons;
      apply startsWith_app_cons.
Qed.

(** X22. The years of experience that the letters state: none for an
    empty history, otherwise at least one, also when no date can be read.
    The months of the roles add up, so that roles held at the same time
    count twice, and more roles never give fewer years. *)
Theorem calculateTotalExperience_bounds (experience more : list Experience) :
  (calculateTotalExperience now experience = 0%Z <-> experience = []) /\
  (experience <> [] -> (1 <= calculateTotalExperience now experience)%Z) /\
  totalMonths now (experience ++ more) =
    (totalMonths now experience + totalMonths now more)%Z /\
  (experience <> [] ->
     (calculateTotalExperience now experience
      <= calculateTotalExperience now (experience ++ more))%Z) /\
  (experience <> [] ->
     Forall (fun e => Date_parse (startDate e) = None) experience ->
     calculateTotalExperience now experience = 1%Z).
Proof.
  split; [|split; [|split; [|split]]].
  - destruct experience as [|e l]; [done|].
    unfold calculateTotalExperience. split; [lia|done].
  - intros Hne. destruct experience as [|e l]; [done|].
    unfold calculateTotalExperience. lia.
  - apply totalMonths_app.
  - intros Hne. destruct experience as [|e l]; [done|].
    unfold calculateTotalExperience. cbn [app].
    change (e :: l ++ more) with ((e :: l) ++ more).
    rewrite totalMonths_app. unfold round_twelfth.
    pose proof (totalMonths_nonneg now more).
    apply Z.max_le_compat_l, Z.div_le_mono; lia.
  - intros Hne Hall. destruct experience as [|e l]; [done|].
    unfold calculateTotalExperience.
    by rewrite totalMonths_unreadable.
Qed.

End CorrespondenceExtras.

Section CorrespondenceWitnesses.
Import JS Model Years EmailTemplate Examples.

Lemma calculateTotalExperience_bounds_witness :
  [acme_engineer; acme_senior] <> [] /\
  (1 <= @calculateTotalExperience (IsoDate.runtime 0) (calendar_of 0)
          1700000000000 [acme_engineer; acme_senior])%Z.
Proof.
  split; [discriminate|].
  pose proof (@calculateTotalExperience_bounds (IsoDate.runtime 0)
                (calendar_of 0) 1700000000000
                [acme_engineer; acme_senior] []) as (_ & H & _).
  apply H. discriminate.
Defined.

End CorrespondenceWitnesses.

(** ** error-utils.ts, index.ts *)

Section ServerExtras.
Import JS JSFacts Path PathFacts DocumentGenerator ErrorUtils Server.
Import CorrespondenceFacts.

(** X23. Whatever was thrown, [extractSafeErrorDetails] answers with one
    of six fixed sentences, so that no part of an error message reaches
    the answer; and the answer depends on the message only up to letter
    case. *)
Theorem extractSafeErrorDetails_fixed_sentences (error : Thrown) :
  extractSafeErrorDetails error ∈
    ["Invalid input provided. Please check your data and try again.";
     "Requested resource not found. Please verify your input.";
     "Permission denied. Please check your access rights.";
     "Operation timed out. Please try again.";
     "Network error occurred. Please check your connection and try again.";
     "An unexpected error occurred. Please try again later."] /\
  (forall m, extractSafeErrorDetails (ErrorObject m) =
             extractSafeErrorDetails (ErrorObject (toLowerCase m))).
Proof.
  split.
  - destruct error as [m|]; cbn [extractSafeErrorDetails]; cbv zeta.
    + repeat (match goal with
              | |- context [if ?b then _ else _] => destruct b
              end);
        apply (bool_decide_unpack _); by vm_compute.
    + apply (bool_decide_unpack _). by vm_compute.
  - intros m. cbn [extractSafeErrorDetails].
    by rewrite toLowerCase_idem.
Qed.

Lemma normalize_absolute (X : string) :
  X <> "" -> isAbsolute (normalize X) = isAbsolute X.
Proof.
  intros HX. unfold normalize.
  destruct (is_empty X) eqn:He; [by apply is_empty_true in He|].
  cbv zeta. destruct (isAbsolute X) eqn:Habs.
  - destruct (is_empty (join _ _)); [done|]. by rewrite sapp_cons.
  - cbn [negb].
    set (RR := fold_left (norm_step true) (split_slash X) []).
    assert (HRR : Forall kept RR) by by apply fold_norm_kept.
    assert (HRs : Forall (fun c => no_slash c = true) RR).
    { apply fold_norm_no_slash; [apply split_slash_no_slash|done]. }
    unfold normalizeString. fold RR.
    destruct (is_empty (join "/" (rev RR))) eqn:Hbody.
    { by destruct (endsWithSlash X). }
    destruct (rev RR) as [|c r] eqn:Hrev; [done|].
    assert (Hk : Forall kept (c :: r))
      by (rewrite <- Hrev; by apply Forall_rev).
    assert (Hs : Forall (fun c => no_slash c = true) (c :: r))
      by (rewrite <- Hrev; by apply Forall_rev).
    inversion Hk as [|? ? [Hc _] _]; subst.
    inversion Hs as [|? ? Hcs _]; subst.
    rewrite sapp_nil_l. by apply join_not_abs.
Qed.

(** X24. The default output directory is an absolute path in normal form
    when [DEFAULT_OUTPUT_PATH] is set, and when neither [USERPROFILE] nor
    [HOME] is; the fallback to the home directory is joined but not
    resolved, so that it is absolute exactly when the home directory
    is. *)
Theorem getDefaultOutputPath_absolute (w : World) :
  (is_Some (env_value w "DEFAULT_OUTPUT_PATH") \/
   (env_value w "USERPROFILE" = None /\ env_value w "HOME" = None) ->
   isAbsolute (getDefaultOutputPath w) = true /\
   forall cwd', resolve cwd' (getDefaultOutputPath w) = getDefaultOutputPath w)
  /\
  (forall homeDir,
     env_value w "DEFAULT_OUTPUT_PATH" = None ->
     env_value w "USERPROFILE" = Some homeDir \/
     (env_value w "USERPROFILE" = None /\ env_value w "HOME" = Some homeDir) ->
     getDefaultOutputPath w = path_join [homeDir; "Documents"; "CVs"] /\
     isAbsolute (getDefaultOutputPath w) = isAbsolute homeDir).
Proof.
  assert (Hres : forall p, isAbsolute (resolve (cwd w) p) = true /\
            forall cwd', resolve cwd' (resolve (cwd w) p) = resolve (cwd w) p).
  { intros p. split; [reflexivity|]. intros cwd'. unfold resolve.
    by rewrite resolve_comps_render by apply resolve_comps_normal. }
  split.
  - unfold getDefaultOutputPath. intros [[v Hv]|[Hu Hh]].
    + rewrite Hv. apply Hres.
    + destruct (env_value w "DEFAULT_OUTPUT_PATH"); [apply Hres|].
      rewrite Hu, Hh. apply Hres.
  - intros homeDir Hd Hhome.
    assert (Hne : homeDir <> "").
    { assert (Hval : forall n, env_value w n = Some homeDir -> homeDir <> "").
      { intros n. unfold env_value. destruct (env w !! n) as [v|]; [|done].
        destruct (is_empty v) eqn:Hv; [done|]. intros [= <-] ->. done. }
      destruct Hhome as [H|[_ H]]; by apply Hval in H. }
    assert (Hpath : getDefaultOutputPath w =
                    path_join [homeDir; "Documents"; "CVs"]).
    { unfold getDefaultOutputPath. rewrite Hd.
      destruct Hhome as [->|[-> ->]]; [|done].
      by destruct (env_value w "HOME"). }
    split; [done|]. rewrite Hpath. unfold path_join.
    rewrite !filter_cons_True by (by destruct homeDir).
    rewrite filter_nil. rewrite PathFacts.join_nonempty by done.
    rewrite normalize_absolute.
    + rewrite PathFacts.join_cons. by destruct homeDir.
    + intros Heq. pose proof (PathFacts.join_nonempty homeDir
                                ["Documents"; "CVs"] Hne) as Hj.
      by rewrite Heq in Hj.
Qed.

End ServerExtras.

Section ServerWitnesses.
Import JS Path DocumentGenerator Server.

Lemma getDefaultOutputPath_absolute_witness :
  getDefaultOutputPath
    {| files := ∅; dirs := ∅; env := {[ "HOME" := "home/ada" ]};
       now := 0; tmpdir := "/tmp"; cwd := "/srv"; conversions := [] |}
  = "home/ada/Documents/CVs" /\
  isAbsolute
    (getDefaultOutputPath
       {| files := ∅; dirs := ∅; env := {[ "HOME" := "home/ada" ]};
          now := 0; tmpdir := "/tmp"; cwd := "/srv"; conversions := [] |})
  = false.
Proof.
  pose proof (getDefaultOutputPath_absolute
    {| files := ∅; dirs := ∅; env := {[ "HOME" := "home/ada" ]};
       now := 0; tmpdir := "/tmp"; cwd := "/srv"; conversions := [] |})
    as [_ H].
  apply (H "home/ada"); [reflexivity|]. right. split; reflexivity.
Defined.

End ServerWitnesses.

Module LetterFacts.
Import JS JSFacts Model CoverLetter CoverLetterGenerator RenderFacts.

Lemma page_holds_recipient (currentDate : string)
    (coverLetter : CoverLetterData) :
  includes (formatCoverLetterAsHTML currentDate coverLetter)
    (rc_jobTitle (recipient coverLetter)) = true /\
  includes (formatCoverLetterAsHTML currentDate coverLetter)
    (companyName (recipient coverLetter)) = true /\
  includes (formatCoverLetterAsHTML currentDate coverLetter)
    (or_empty (rc_hiringManagerName (recipient coverLetter))) = true.
Proof.
  unfold formatCoverLetterAsHTML. split; [|split]; find_piece.
Qed.

Lemma text_holds (currentDate : string) (coverLetter : CoverLetterData) :
  includes (formatCoverLetterAsText currentDate coverLetter)
    (fullName (cl_personalInfo coverLetter)) = true /\
  includes (formatCoverLetterAsText currentDate coverLetter)
    (rc_jobTitle (recipient coverLetter)) = true /\
  includes (formatCoverLetterAsText currentDate coverLetter)
    (companyName (recipient coverLetter)) = true.
Proof.
  unfold formatCoverLetterAsText. cbv zeta. split; [|split]; find_piece.
Qed.

End LetterFacts.

Section LetterExtras.
Import JS JSFacts Model JobParser CoverLetter CoverLetterGenerator.
Import RenderFacts LetterFacts.
Context {date : DateRuntime} {calendar : CalendarRuntime}.
Variable now : Z.

(** X25. From the profile and the posting to the page: for every profile,
    every posting, every recipient and both draws of the wording, the
    HTML page of the generated cover letter holds the full name of the
    profile, the job title and the company of the posting and the hiring
    manager's name as they were given, so that markup in any of them is
    markup of the page; the plain-text letter holds the same name, title
    and company. *)
Theorem generated_cover_letter_carries_input (openingChoice closingChoice : Choice)
    (userProfile : UserProfile) (jobReq : JobRequirements)
    (hiringManagerName emailAddress : option string)
    (currentDate marker : string) :
  let letter :=
    generateCoverLetter now openingChoice closingChoice userProfile
      (parseJobRequirements jobReq) hiringManagerName emailAddress in
  includes (fullName (personalInfo userProfile)) marker = true \/
  includes (jr_jobTitle jobReq) marker = true \/
  includes (jr_company jobReq) marker = true \/
  (exists name, hiringManagerName = Some name /\
                includes name marker = true) ->
  includes (formatCoverLetterAsHTML currentDate letter) marker = true /\
  (includes (fullName (personalInfo userProfile)) marker = true \/
   includes (jr_jobTitle jobReq) marker = true \/
   includes (jr_company jobReq) marker = true ->
   includes (formatCoverLetterAsText currentDate letter) marker = true).
Proof.
  intros letter Hsrc.
  destruct (page_holds_recipient currentDate letter) as (Ht & Hc & Hm).
  destruct (text_holds currentDate letter) as (Tn & Tt & Tc).
  pose proof (cover_letter_holds_name currentDate letter) as Hn.
  split.
  - destruct Hsrc as [H|[H|[H|(name & -> & H)]]].
    + by apply (includes_trans _ _ _ Hn).
    + by apply (includes_trans _ _ _ Ht).
    + by apply (includes_trans _ _ _ Hc).
    + by apply (includes_trans _ _ _ Hm).
  - intros [H|[H|H]].
    + by apply (includes_trans _ _ _ Tn).
    + by apply (includes_trans _ _ _ Tt).
    + by apply (includes_trans _ _ _ Tc).
Qed.

End LetterExtras.

Section LetterWitnesses.
Import JS Model JobParser CoverLetter CoverLetterGenerator Examples.

Lemma generated_cover_letter_carries_input_witness :
  includes
    (formatCoverLetterAsHTML "January 1, 2025"
       (@generateCoverLetter (IsoDate.runtime 0) (calendar_of 0)
          1700000000000 First Third
          {| personalInfo := script_info; summary := "Engineer.";
             experience := [acme_engineer]; education := [];
             skills := {| technical := ["Java"]; soft := None;
                          languages := None; certifications := None |};
             projects := None |}
          (parseJobRequirements agile_posting) (Some "<b>Eve</b>") None))
    "<b>" = true.
Proof.
  refine (proj1 (@generated_cover_letter_carries_input (IsoDate.runtime 0)
           (calendar_of 0) 1700000000000 First Third
           {| personalInfo := script_info; summary := "Engineer.";
              experience := [acme_engineer]; education := [];
              skills := {| technical := ["Java"]; soft := None;
                           languages := None; certifications := None |};
              projects := None |}
           agile_posting (Some "<b>Eve</b>") None "January 1, 2025" "<b>" _)).
  right. right. right. exists "<b>Eve</b>". split; reflexivity.
Defined.

End LetterWitnesses.

(** ** The bold markers of the tailoring, and their removal *)

Module MarkerFacts.
Import JS JSFacts Regex DocumentGenerator Markers.

Lemma stake_app (w r : string) : stake (String.length w) (w +:+ r) = w.
Proof.
  induction w as [|a w IH]; [by destruct r|].
  rewrite sapp_cons. cbn. by rewrite IH.
Qed.

Lemma star_neq (a : ascii) :
  negb (ascii_eqb a "*") = true -> ascii_eqb "*" a = false.
Proof.
  intros H. destruct (ascii_eqb "*" a) eqn:He; [|done].
  apply ascii_eqb_eq in He as <-. done.
Qed.

(** the marker pattern does not match where no asterisk stands *)
Lemma match_at_no_star (p : option ascii) (i : nat) (s : string) :
  match s with
  | String a _ => negb (ascii_eqb a "*") = true
  | EmptyString => True
  end ->
  match_at bold_marks p i s = None.
Proof.
  intros H. unfold match_at, bold_marks, lit. cbn [seq m rest].
  destruct s as [|a s']; [done|]. by rewrite (star_neq a H).
Qed.

Lemma lazy_loop_hit (step : (state -> option state) -> state -> option state)
    (k : state -> option state) (fuel : nat) (x z : state) :
  k x = Some z -> lazy_loop step k fuel x = Some z.
Proof. intros H. destruct fuel; cbn; by rewrite H. Qed.

Lemma lazy_run (x0 : state) (post w : string) :
  sforall plain w = true ->
  forall (fuel : nat) (y : state),
    String.length w <= fuel ->
    rest y = w +:+ String "*" (String "*" post) ->
    lazy_loop (m dot) (closing x0) fuel y =
    Some {| prev := Some "*"%char;
            pos := pos y + String.length w + 2;
            rest := post;
            cap := Some (stake (pos y + String.length w - pos x0) (rest x0)) |}.
Proof.
  induction w as [|a w IH]; intros Hw fuel y Hfuel Hrest.
  - rewrite sapp_nil_l in Hrest. apply lazy_loop_hit.
    unfold closing, lit. cbn [m rest]. rewrite Hrest.
    cbn [ascii_eqb Ascii.eqb Bool.eqb andb pos prev cap rest String.length].
    by rewrite !Nat.add_0_r, Nat.add_comm.
  - rewrite sapp_cons in Hrest. cbn [sforall] in Hw.
    apply andb_true_iff in Hw as [Ha Hw].
    apply andb_true_iff in Ha as [Hstar Hnl].
    change (String.length (String a w)) with (S (String.length w)) in Hfuel.
    destruct fuel as [|fuel]; [lia|].
    cbn [lazy_loop].
    assert (Hk : closing x0 y = None).
    { unfold closing, lit. cbn [m rest]. rewrite Hrest.
      by rewrite (star_neq a Hstar). }
    rewrite Hk. unfold dot at 1. cbn [m]. rewrite Hrest, Hnl.
    cbn [pos].
    assert (Hlt : (pos y <? S (pos y))%nat = true) by (apply Nat.ltb_lt; lia).
    rewrite Hlt.
    change (String.length (String a w)) with (S (String.length w)) in *.
    rewrite (IH Hw); [|lia|done].
    cbn [pos rest].
    by replace (S (pos y) + String.length w)
      with (pos y + S (String.length w)) by lia.
Qed.

Lemma m_lit_hit (c : ascii) (k : state -> option state)
    (p : option ascii) (i : nat) (s' : string) (cp : option string) :
  m (lit c) k {| prev := p; pos := i; rest := String c s'; cap := cp |} =
  k {| prev := Some c; pos := S i; rest := s'; cap := cp |}.
Proof. unfold lit. cbn. by rewrite ascii_eqb_refl. Qed.

Lemma m_group_lazy (x : state) :
  m (Group (StarLazy dot)) (m (Seq (lit "*") (lit "*")) Some) x =
  lazy_loop (m dot) (closing x) (String.length (rest x)) x.
Proof. reflexivity. Qed.

Lemma length_sapp (s t : string) :
  String.length (s +:+ t) = String.length s + String.length t.
Proof.
  induction s as [|a s IH]; [by rewrite sapp_nil_l|].
  rewrite sapp_cons. cbn. by rewrite IH.
Qed.

Lemma match_at_marked (p : option ascii) (i : nat) (w post : string) :
  sforall plain w = true ->
  match_at bold_marks p i
    (String "*" (String "*" (w +:+ String "*" (String "*" post)))) =
  Some (S (String.length w + 3), Some w).
Proof.
  intros Hw. unfold match_at, bold_marks. cbn [seq].
  rewrite RegexFacts.m_seq, m_lit_hit, RegexFacts.m_seq, m_lit_hit.
  rewrite RegexFacts.m_seq, m_group_lazy.
  rewrite (lazy_run _ post w Hw); [| |done].
  - cbn [pos cap rest].
    replace (S (S i) + String.length w - S (S i)) with (String.length w)
      by lia.
    rewrite stake_app. f_equal. f_equal. lia.
  - cbn [rest]. rewrite length_sapp. lia.
Qed.

Lemma scan_skip {A} (r : re) (hit : string -> option string -> A)
    (miss : ascii -> list A) (u s : string) :
  forall (p : option ascii) (i : nat),
  exists p', scan r hit miss p i (String.length u) (u +:+ s) =
             scan r hit miss p' (i + String.length u) 0 s.
Proof.
  induction u as [|a u IH]; intros p i.
  - exists p. by rewrite sapp_nil_l, Nat.add_0_r.
  - rewrite sapp_cons. cbn [String.length scan].
    destruct (IH (Some a) (S i)) as [p' ->]. exists p'.
    by rewrite Nat.add_succ_r.
Qed.

Lemma cleaned_plain (s : string) :
  sforall no_star s = true -> forall p i, cleaned p i s = s.
Proof.
  unfold cleaned. induction s as [|a s IH]; intros Hs p i.
  - cbn [scan]. by rewrite match_at_no_star.
  - cbn [sforall] in Hs. apply andb_true_iff in Hs as [Ha Hs].
    cbn [scan]. rewrite match_at_no_star by done.
    cbn [app fold_right]. by rewrite IH, sapp_cons, sapp_nil_l.
Qed.


Lemma scan_hit {A} (r : re) (hit : string -> option string -> A)
    (miss : ascii -> list A) (p : option ascii) (i n : nat) (a : ascii)
    (s' : string) (c : option string) :
  match_at r p i (String a s') = Some (S n, c) ->
  scan r hit miss p i 0 (String a s') =
  hit (stake (S n) (String a s')) c :: scan r hit miss (Some a) (S i) n s'.
Proof. intros H. cbn [scan]. by rewrite H. Qed.

Lemma cleaned_marked (w post : string) :
  sforall plain w = true -> sforall no_star post = true ->
  forall p i,
    cleaned p i (String "*" (String "*" (w +:+ String "*" (String "*" post))))
    = w +:+ post.
Proof.
  intros Hw Hpost p i. unfold cleaned.
  rewrite (scan_hit _ _ _ _ _ _ _ _ _ (match_at_marked p i w post Hw)).
  cbn [fold_right default]. f_equal.
  replace (String "*" (w +:+ String "*" (String "*" post)))
    with ((String "*" (w +:+ String "*" (String "*" ""))) +:+ post).
  2:{ rewrite sapp_cons, sapp_assoc, !sapp_cons. by rewrite sapp_nil_l. }
  replace (String.length w + 3)
    with (String.length (String "*" (w +:+ String "*" (String "*" "")))).
  2:{ cbn [String.length]. rewrite length_sapp. cbn. lia. }
  destruct (scan_skip bold_marks (fun _ c => default "" c)
              (fun a => [String a ""])
              (String "*" (w +:+ String "*" (String "*" ""))) post
              (Some "*"%char) (S i)) as [p' ->].
  by apply cleaned_plain.
Qed.

End MarkerFacts.

Section MarkerExtras.
Import JS JSFacts Regex DocumentGenerator Markers MarkerFacts.



End MarkerExtras.

Module HighlightFacts.
Import JS JSFacts Regex CvGenerator DocumentGenerator Markers MarkerFacts.

Lemma seq_cons (r : re) (rs : list re) :
  rs <> [] -> seq (r :: rs) = Seq r (seq rs).
Proof. by destruct rs. Qed.

Lemma alpha_lower (b : ascii) :
  is_alpha b = true -> is_alpha (lower_char b) = true.
Proof. destruct b as [[] [] [] [] [] [] [] []]; by vm_compute. Qed.

Lemma alpha_facts (b : ascii) :
  is_alpha b = true ->
  ascii_eqb b "." = false /\ is_word b = true /\ plain b = true.
Proof. destruct b as [[] [] [] [] [] [] [] []]; by vm_compute. Qed.

(** a character that agrees with a letter up to case is a letter *)
Lemma alpha_same_lower (a b : ascii) :
  lower_char a = lower_char b -> is_alpha b = true -> is_alpha a = true.
Proof.
  intros Heq Hb. unfold lower_char at 1 in Heq.
  destruct (is_upper a) eqn:Hu; [unfold is_alpha; by rewrite Hu|].
  rewrite Heq. by apply alpha_lower.
Qed.

Lemma same_lower_alpha (W word : string) :
  toLowerCase W = toLowerCase word -> sforall is_alpha word = true ->
  sforall is_alpha W = true.
Proof.
  revert W. induction word as [|b word IH]; intros W Heq Hw.
  - by destruct W.
  - destruct W as [|a W]; [done|]. cbn in Heq. injection Heq as Ha HW.
    cbn [sforall] in Hw |- *. apply andb_true_iff in Hw as [Hb Hw].
    rewrite (alpha_same_lower a b Ha Hb). by apply IH.
Qed.

Lemma last_char_word (p : option ascii) (W : string) :
  is_word_opt p = true -> sforall is_alpha W = true ->
  is_word_opt (last_char p W) = true.
Proof.
  revert p. induction W as [|a W IH]; intros p Hp HW; [done|].
  cbn [sforall] in HW. apply andb_true_iff in HW as [Ha HW].
  cbn [last_char]. apply IH; [|done]. by apply alpha_facts.
Qed.

(** the letters of the word are matched one by one, whatever their
    case *)
Lemma m_word (word : string) :
  sforall is_alpha word = true ->
  forall (W tail : string) (k : state -> option state) (p : option ascii)
         (i : nat) (cp : option string),
    toLowerCase W = toLowerCase word ->
    m (seq (word_of pat_char word ++ [Bound])) k
      {| prev := p; pos := i; rest := W +:+ tail; cap := cp |} =
    m Bound k
      {| prev := last_char p W; pos := i + String.length W; rest := tail;
         cap := cp |}.
Proof.
  induction word as [|b word IH]; intros Hw W tail k p i cp Heq.
  - destruct W; [|done]. rewrite sapp_nil_l. cbn [String.length last_char].
    by rewrite Nat.add_0_r.
  - destruct W as [|a W]; [done|]. cbn in Heq. injection Heq as Ha HW.
    cbn [sforall] in Hw. apply andb_true_iff in Hw as [Hb Hw].
    destruct (alpha_facts b Hb) as (Hdot & _ & _).
    cbn [word_of app]. rewrite seq_cons by by destruct (word_of _ _).
    rewrite RegexFacts.m_seq. unfold pat_char at 1. rewrite Hdot.
    unfold lit_i at 1. rewrite sapp_cons. cbn [m rest].
    rewrite Ha, ascii_eqb_refl. cbn [pos cap].
    rewrite (IH Hw) by done. cbn [last_char String.length].
    by rewrite Nat.add_succ_r.
Qed.

Lemma match_at_whole_word (word W : string) :
  word <> "" -> sforall is_alpha word = true ->
  toLowerCase W = toLowerCase word ->
  match_at (word_regex word) None 0 W = Some (String.length W, None).
Proof.
  intros Hne Hw Heq. unfold match_at, word_regex.
  rewrite seq_cons by by destruct (word_of _ _).
  rewrite RegexFacts.m_seq.
  pose proof (same_lower_alpha W word Heq Hw) as HW.
  destruct W as [|a W]; [by destruct word|].
  cbn [sforall] in HW. apply andb_true_iff in HW as [Ha HW].
  destruct (alpha_facts a Ha) as (_ & Hword & _).
  cbn [m prev rest head_char is_word_opt]. rewrite Hword. cbn [xorb].
  rewrite <- (sapp_nil_r (String a W)) at 1.
  rewrite (m_word word Hw (String a W) "") by done.
  cbn [m prev rest head_char is_word_opt last_char].
  rewrite (last_char_word (Some a) W) by done. cbn [xorb pos cap].
  by rewrite Nat.sub_0_r.
Qed.

Lemma match_at_end (word : string) (p : option ascii) (i : nat) :
  word <> "" -> sforall is_alpha word = true ->
  match_at (word_regex word) p i "" = None.
Proof.
  intros Hne Hw. unfold match_at, word_regex.
  rewrite seq_cons by by destruct (word_of _ _).
  rewrite RegexFacts.m_seq. cbn [m prev rest head_char is_word_opt].
  destruct (xorb _ _); [|done].
  destruct word as [|b word]; [done|].
  cbn [sforall] in Hw. apply andb_true_iff in Hw as [Hb _].
  destruct (alpha_facts b Hb) as (Hdot & _ & _).
  cbn [word_of app]. rewrite seq_cons by by destruct (word_of _ _).
  rewrite RegexFacts.m_seq. unfold pat_char at 1. rewrite Hdot.
  reflexivity.
Qed.

Lemma highlight_whole_word (word W : string) :
  word <> "" -> sforall is_alpha word = true ->
  toLowerCase W = toLowerCase word ->
  highlight W word = "**" +:+ word +:+ "**".
Proof.
  intros Hne Hw Heq. unfold highlight, replace_all.
  pose proof (match_at_whole_word word W Hne Hw Heq) as Hm.
  destruct W as [|a W]; [by destruct word|].
  cbn [String.length] in Hm. rewrite (scan_hit _ _ _ _ _ _ _ _ _ Hm).
  rewrite <- (sapp_nil_r W) at 2.
  destruct (scan_skip (word_regex word)
              (fun _ _ => "**" +:+ word +:+ "**")
              (fun a => [String a ""]) W "" (Some a) 1) as [p' ->].
  cbn [scan]. rewrite match_at_end by done.
  cbn [fold_right]. by rewrite sapp_nil_r.
Qed.

End HighlightFacts.

Section HighlightExtras.
Import JS JSFacts Regex Model CvGenerator DocumentGenerator.
Import Markers MarkerFacts HighlightFacts.

(** X27. Highlighting writes the keyword in the spelling of the keyword
    list, not in that of the text: a text that is a keyword of letters up
    to letter case becomes the keyword itself between bold markers, and
    the markdown rendering of an achievement, which takes the markers off,
    is left with the keyword's spelling (with the keyword [aws], [AWS]
    becomes [aws]). *)
Theorem highlight_respells (word W : string) :
  word <> "" -> sforall is_alpha word = true ->
  toLowerCase W = toLowerCase word ->
  highlight W word = "**" +:+ word +:+ "**" /\
  cleanAchievement (highlight W word) = word.
Proof.
  intros Hne Hw Heq.
  pose proof (highlight_whole_word word W Hne Hw Heq) as Hh.
  split; [done|]. rewrite Hh. unfold cleanAchievement, replace_all.
  fold (cleaned None 0 ("**" +:+ word +:+ "**")).
  rewrite !sapp_cons, !sapp_nil_l.
  rewrite (cleaned_marked word ""); [by rewrite sapp_nil_r| |done].
  eapply sforall_impl; [|exact Hw]. intros c Hc. by apply alpha_facts.
Qed.

Lemma highlight_respells_witness :
  highlight "AWS" "aws" = "**aws**" /\
  cleanAchievement (highlight "AWS" "aws") = "aws".
Proof.
  apply (highlight_respells "aws" "AWS"); [discriminate|reflexivity..].
Defined.

End HighlightExtras.

Section TemplateWitnesses.
Import JS Model JobParser EmailTemplate Examples.

Lemma generateEmailTemplate_single_line_headers_witness :
  startsWith
    (body (@generateEmailTemplate (IsoDate.runtime 0) (calendar_of 0)
             1700000000000
             {| personalInfo := script_info; summary := "Engineer.";
                experience := [acme_engineer]; education := [];
                skills := {| technical := ["Java"]; soft := None;
                             languages := None; certifications := None |};
                projects := None |}
             (parseJobRequirements agile_posting) "jobs@example.com"
             FOLLOW_UP (Some "Grace Hopper")))
    "Dear Grace Hopper," = true.
Proof.
  pose proof (@generateEmailTemplate_single_line_headers (IsoDate.runtime 0)
                (calendar_of 0) 1700000000000
                {| personalInfo := script_info; summary := "Engineer.";
                   experience := [acme_engineer]; education := [];
                   skills := {| technical := ["Java"]; soft := None;
                                languages := None; certifications := None |};
                   projects := None |}
                (parseJobRequirements agile_posting) "jobs@example.com"
                FOLLOW_UP (Some "Grace Hopper")) as [_ H].
  apply (H "Grace Hopper"); [reflexivity|discriminate].
Defined.

End TemplateWitnesses.

(** ** The summary: what the append step leaves alone *)

Module SummaryFacts.
Import JS JSFacts Model CvGenerator TailorFacts.

Lemma append_skills_prefix (skills : list string) (t : string) :
  exists r, append_skills t skills = t +:+ r.
Proof.
  revert t. induction skills as [|k ks IH]; intros t.
  - exists "". by rewrite sapp_nil_r.
  - unfold append_skills. cbn [fold_left]. fold (append_skills (append_skill t k) ks).
    destruct (IH (append_skill t k)) as [r ->]. unfold append_skill.
    destruct (negb _).
    + exists (" Experienced with " +:+ k +:+ "." +:+ r).
      by rewrite !sapp_assoc.
    + by exists r.
Qed.

Lemma append_skills_fixed (skills : list string) (t : string) :
  Forall (fun k => includes (toLowerCase t) (toLowerCase k) = true) skills ->
  append_skills t skills = t.
Proof.
  induction 1 as [|k ks Hk _ IH]; [done|].
  unfold append_skills. cbn [fold_left]. unfold append_skill at 2.
  rewrite Hk. cbn [negb]. exact IH.
Qed.

End SummaryFacts.

Section SummaryExtras.
Import JS JSFacts Model CvGenerator TailorFacts SummaryFacts.

(** X28. For a level other than [senior], tailoring the summary only
    appends: the given summary is the beginning of the result; a summary
    that already mentions every key skill is returned as it is; and
    tailoring is idempotent, a tailored summary being left alone by a
    second pass. *)
Theorem tailorSummary_only_appends (summary : string)
    (jobReq : ParsedJobRequirements) :
  experienceLevel jobReq <> "senior" ->
  startsWith (tailorSummary summary jobReq) summary = true /\
  (Forall (fun k => includes (toLowerCase summary) (toLowerCase k) = true)
     (keySkills jobReq) ->
   tailorSummary summary jobReq = summary) /\
  tailorSummary (tailorSummary summary jobReq) jobReq
  = tailorSummary summary jobReq.
Proof.
  intros Hlevel.
  assert (Hplain : forall s, tailorSummary s jobReq =
                             append_skills s (keySkills jobReq)).
  { intros s. unfold tailorSummary. cbv zeta.
    destruct (str_eqb (experienceLevel jobReq) "senior") eqn:He; [|done].
    by apply str_eqb_eq in He. }
  rewrite !Hplain. split; [|split].
  - destruct (append_skills_prefix (keySkills jobReq) summary) as [r ->].
    apply startsWith_app.
  - apply append_skills_fixed.
  - apply append_skills_fixed, Forall_forall. intros k Hk.
    by apply append_skills_has.
Qed.

Lemma tailorSummary_only_appends_witness :
  startsWith
    (tailorSummary "Engineer."
       {| pj_jobTitle := "Developer"; pj_company := "Acme";
          keySkills := ["react"]; requiredSkills := []; preferredSkills := [];
          keyWords := []; experienceLevel := "mid"; pj_location := None;
          pj_salaryRange := None; contactEmails := None;
          hiringManagerName := None |}) "Engineer." = true.
Proof.
  apply (tailorSummary_only_appends "Engineer."
    {| pj_jobTitle := "Developer"; pj_company := "Acme";
       keySkills := ["react"]; requiredSkills := []; preferredSkills := [];
       keyWords := []; experienceLevel := "mid"; pj_location := None;
       pj_salaryRange := None; contactEmails := None;
       hiringManagerName := None |}).
  discriminate.
Defined.

End SummaryExtras.

(** ** The extension of the file that generateDocument writes *)

Module ExtensionFacts.
Import JS JSFacts Regex Path PathFacts DocumentGenerator.
Import PathGuardFacts HighlightFacts.

Lemma alpha_not_special (a : ascii) :
  is_alpha a = true ->
  ascii_eqb "." a = false /\ a <> "."%char /\
  negb (ascii_eqb a "/") = true /\ negb (ascii_eqb a NUL) = true.
Proof. destruct a as [[] [] [] [] [] [] [] []]; by vm_compute. Qed.

(** the extension pattern finds nothing in letters followed by a dot *)
Lemma search_trailing_dot (stem : string) :
  sforall is_alpha stem = true ->
  forall p i, search extension p i (stem +:+ ".") = None.
Proof.
  induction stem as [|a stem IH]; intros Hs p i; [reflexivity|].
  cbn [sforall] in Hs. apply andb_true_iff in Hs as [Ha Hs].
  destruct (alpha_not_special a Ha) as (Hdot & _).
  rewrite sapp_cons. cbn [search].
  assert (Hm : match_at extension p i (String a (stem +:+ ".")) = None).
  { unfold match_at, extension. cbn [seq]. rewrite RegexFacts.m_seq.
    unfold lit at 1. cbn [m rest]. by rewrite Hdot. }
  rewrite Hm. by apply IH.
Qed.

Lemma remove_dotdot_stem (stem r : string) :
  sforall is_alpha stem = true ->
  remove_dotdot (stem +:+ r) = stem +:+ remove_dotdot r.
Proof.
  induction stem as [|a stem IH]; intros Hs; [by rewrite !sapp_nil_l|].
  cbn [sforall] in Hs. apply andb_true_iff in Hs as [Ha Hs].
  destruct (alpha_not_special a Ha) as (_ & Hne & _).
  rewrite !sapp_cons, remove_dotdot_head by done. by rewrite IH.
Qed.

Lemma sanitize_stem (stem : string) :
  sforall is_alpha stem = true ->
  sanitize_segment ((stem +:+ ".") +:+ ".md") = stem +:+ "md".
Proof.
  intros Hs. unfold sanitize_segment, remove_nul.
  rewrite sapp_assoc. rewrite sfilter_id.
  - by rewrite remove_dotdot_stem.
  - rewrite ValidateFacts.sforall_sapp. apply andb_true_iff. split; [|done].
    eapply sforall_impl; [|exact Hs]. intros c Hc.
    by apply alpha_not_special.
Qed.

Lemma stem_comp (stem : string) :
  stem <> "" -> sforall is_alpha stem = true ->
  normalizeString false (flat_map split_slash [stem +:+ "md"]) =
  [stem +:+ "md"].
Proof.
  intros Hne Hs. cbn [flat_map]. rewrite app_nil_r.
  assert (Hslash : no_slash (stem +:+ "md") = true).
  { unfold no_slash. rewrite ValidateFacts.sforall_sapp.
    apply andb_true_iff. split; [|done].
    eapply sforall_impl; [|exact Hs]. intros c Hc.
    by apply alpha_not_special. }
  rewrite split_slash_one by done. unfold normalizeString. cbn [fold_left].
  destruct stem as [|a stem]; [done|].
  cbn [sforall] in Hs. apply andb_true_iff in Hs as [Ha _].
  destruct (alpha_not_special a Ha) as (_ & Hdot & _).
  rewrite norm_step_push; [done| | |]; rewrite sapp_cons; intros [= ? ?]; done.
Qed.

End ExtensionFacts.

Section ExtensionExtras.
Import JS JSFacts Regex Model Path PathFacts DocumentGenerator DocumentFacts.
Import ExtensionFacts.
Variable render : MarkdownItOptions -> string -> string.
Variable mdToPdf : PdfRequest -> World -> PdfOutcome.

(** X29. The extension is appended before the segment is sanitized, so
    that the dot of the extension can be taken for half of a [..]: for a
    file name that [sanitizeFileName] turns into letters followed by a
    dot (as in [report.]), a markdown request that returns a path
    returns the one of the letters followed by [md], without a dot, in
    the output directory, and that is the file it has written. *)
Theorem generateDocument_loses_extension_dot (cvData : TailoredCV)
    (outputPath fileName stem p : string) (pdfOptions : option PDFOptions)
    (w : World) :
  sanitizeFileName fileName = OK (stem +:+ ".") ->
  stem <> "" -> sforall is_alpha stem = true ->
  (generateDocument render mdToPdf cvData outputPath fileName MARKDOWN
     pdfOptions w).1 = OK p ->
  p = render_abs
        (resolve_comps (cwd w) (remove_nul outputPath) ++ [stem +:+ "md"]) /\
  exists markdown,
    formatCVAsMarkdown cvData = OK markdown /\
    files (generateDocument render mdToPdf cvData outputPath fileName
             MARKDOWN pdfOptions w).2 !! p = Some markdown.
Proof.
  intros Hname Hne Hstem H.
  destruct (markdown_steps render mdToPdf _ _ _ _ _ _ H)
    as (name & markdown & w1 & Ho & Hens & Hname' & Hmd & Hj & Hw).
  set (dir := resolve (cwd w) (remove_nul outputPath)) in *.
  pose proof (ensure_keeps dir w) as (_ & Hcwd & _).
  rewrite Hens in Hcwd. cbn [snd] in Hcwd.
  rewrite Hname in Hname'. injection Hname' as <-.
  split.
  - unfold replace_first in Hj. rewrite search_trailing_dot in Hj by done.
    rewrite safeJoinPath_inside in Hj by apply resolve_nonempty.
    cbn [map fst] in Hj. rewrite sanitize_stem, stem_comp in Hj by done.
    rewrite Hcwd in Hj. unfold dir, resolve in Hj.
    rewrite resolve_comps_render in Hj by apply resolve_comps_normal.
    by injection Hj.
  - exists markdown. split; [done|]. rewrite Hw. cbn.
    by simplify_map_eq.
Qed.

End ExtensionExtras.

Section ExtensionWitnesses.
Import JS Model Path DocumentGenerator Examples.

Lemma generateDocument_loses_extension_dot_witness :
  (generateDocument echo_render working_converter plain_cv "out" "report."
     MARKDOWN None hostile_world).1 = OK "/home/user/out/reportmd" /\
  "/home/user/out/reportmd" =
  render_abs (resolve_comps (cwd hostile_world) (remove_nul "out")
              ++ ["report" +:+ "md"]).
Proof.
  assert (H : (generateDocument echo_render working_converter plain_cv "out"
                 "report." MARKDOWN None hostile_world).1
              = OK "/home/user/out/reportmd") by reflexivity.
  split; [exact H|].
  refine (proj1 (generateDocument_loses_extension_dot echo_render
                   working_converter plain_cv "out" "report." "report"
                   "/home/user/out/reportmd" None hostile_world
                   _ _ _ H));
    [reflexivity | discriminate | reflexivity].
Defined.

End ExtensionWitnesses.
